(** * Lint rules of the repository, embedded and verified

    The development covers the rule modules of [src/lib/rules]:

    - [no-use-before-define.js]: the execution-context classifier and the
      use-before-define check,
    - the no-labels rule (second half of [no-lonely-if.js]): the label-scope
      stack kept across the traversal, and what the rule reports,
    - the no-lonely-if rule (first half of [no-lonely-if.js]): the handler
      and its fix,
    - [quotes.js]: the quote converter, the handlers and the
      directive-prologue guards.

    JavaScript objects that point at each other ([parent], [upper], [from],
    [scope]) live in arenas: a syntax node is an index into the list of nodes
    of the program, a scope an index into the list of scopes.  Loops that
    follow such links take a fuel argument; code that would read a property
    of [null] or [undefined] yields [Err TypeError]. *)

From Stdlib Require Import List String Ascii Arith NArith Bool Lia PeanoNat.
Import ListNotations.
Set Warnings "-register-all".
Local Open Scope string_scope.
Local Open Scope list_scope.
Local Open Scope nat_scope.

(** ** Outcomes of a JavaScript computation *)

Inductive error : Type :=
| TypeError
| OutOfFuel.

Inductive result (A : Type) : Type :=
| Ok (a : A)
| Err (e : error).

Arguments Ok {A} a.
Arguments Err {A} e.

Definition bind {A B : Type} (m : result A) (k : A -> result B) : result B :=
  match m with
  | Ok a => k a
  | Err e => Err e
  end.

Notation "x <- m ;; k" := (bind m (fun x => k))
  (at level 61, m at next level, right associativity).

(** [Array.prototype.some] with a callback that may throw: the callback runs
    left to right and the scan stops at the first [true]. *)
Fixpoint some {A : Type} (f : A -> result bool) (l : list A) : result bool :=
  match l with
  | [] => Ok false
  | x :: xs => b <- f x ;; if b then Ok true else some f xs
  end.

(** [Array.prototype.filter] with a callback that may throw. *)
Fixpoint filterM {A : Type} (f : A -> result bool) (l : list A) : result (list A) :=
  match l with
  | [] => Ok []
  | x :: xs =>
      b <- f x ;;
      rest <- filterM f xs ;;
      Ok (if b then x :: rest else rest)
  end.

(** ** Syntax nodes *)

Definition NodeId : Type := nat.
Definition ScopeId : Type := nat.

(** The values a node property holds in the rules below. *)
Inductive Value : Type :=
| VUndefined
| VNull
| VBool (b : bool)
| VNum (n : nat)
| VStr (s : string)
| VNode (id : NodeId)
| VArr (ids : list NodeId).

Definition truthy (v : Value) : bool :=
  match v with
  | VUndefined | VNull => false
  | VBool b => b
  | VNum n => negb (n =? 0)
  | VStr s => negb (String.eqb s "")
  | VNode _ | VArr _ => true
  end.

Module Node.
Record t : Type := mk {
  type : string;
  range : nat * nat;
  parent : option NodeId;
  props : list (string * Value)
}.
End Node.

Fixpoint assoc (k : string) (l : list (string * Value)) : Value :=
  match l with
  | [] => VUndefined
  | (k', v) :: l' => if String.eqb k k' then v else assoc k l'
  end.

(** [node[k]]: a property that is absent reads as [undefined]. *)
Definition prop (n : Node.t) (k : string) : Value := assoc k (Node.props n).

(** ** Scopes, variables, definitions and references *)

Module Def.
Record t : Type := mk {
  type : string;
  name : NodeId;
  node : NodeId
}.
End Def.

Module Var.
Record t : Type := mk {
  name : string;
  scope : ScopeId;
  defs : list Def.t
}.
End Var.

Module Reference.
Record t : Type := mk {
  identifier : NodeId;
  from : ScopeId;
  resolved : option Var.t;
  init : bool
}.
End Reference.

Module Scope.
Record t : Type := mk {
  type : string;
  block : NodeId;
  upper : option ScopeId;
  variableScope : ScopeId;
  variables : list Var.t;
  references : list Reference.t;
  childScopes : list ScopeId
}.
End Scope.

(** What a rule reads through [context.sourceCode]: the nodes of the program
    and the scopes the scope analysis produced for it. *)
Record SourceCode : Type := mkSourceCode {
  ast : list Node.t;
  scopes : list Scope.t
}.

Definition getNode (sc : SourceCode) (id : NodeId) : result Node.t :=
  match nth_error (ast sc) id with
  | Some n => Ok n
  | None => Err TypeError
  end.

Definition getScope (sc : SourceCode) (id : ScopeId) : result Scope.t :=
  match nth_error (scopes sc) id with
  | Some s => Ok s
  | None => Err TypeError
  end.

(** [node.parent].  An index outside the arena stands for a missing
    object, and reading a property of it throws. *)
Definition parentOf (sc : SourceCode) (id : NodeId) : result (option NodeId) :=
  n <- getNode sc id ;; Ok (Node.parent n).

(** [node.parent.type]. *)
Definition parentType (sc : SourceCode) (id : NodeId) : result string :=
  p <- parentOf sc id ;;
  match p with
  | None => Err TypeError
  | Some pid => pn <- getNode sc pid ;; Ok (Node.type pn)
  end.

(** ** no-use-before-define *)

Module NoUseBeforeDefine.

(** [SENTINEL_TYPE]: the alternatives of the anchored regular expression,
    spelled out. *)
Definition SENTINEL_TYPE_alternatives : list string :=
  flat_map (fun a => map (String.append a) ["Declaration"; "Expression"])
           ["Function"; "Class"]
  ++ ["ArrowFunctionExpression"; "CatchClause"; "ImportDeclaration";
      "ExportNamedDeclaration"].

Definition SENTINEL_TYPE (t : string) : bool :=
  existsb (String.eqb t) SENTINEL_TYPE_alternatives.

Definition FOR_IN_OF_TYPE (t : string) : bool :=
  existsb (String.eqb t) (map (fun a => String.append "For" (String.append a "Statement")) ["In"; "Of"]).

Record Options : Type := mkOptions {
  functions : bool;
  classes : bool;
  variables : bool;
  allowNamedExports : bool;
  enums : bool;
  typedefs : bool;
  ignoreTypeReferences : bool
}.

(** The value of [context.options[0]]. *)
Inductive RawOptions : Type :=
| OptUndefined
| OptString (s : string)
| OptObject (o : Options).

Definition parseOptions (options : RawOptions) : Options :=
  match options with
  | OptObject o => o
  | _ =>
      let functions :=
        match options with
        | OptString s => negb (String.eqb s "nofunc")
        | _ => true
        end in
      {| functions := functions;
         classes := true;
         variables := true;
         allowNamedExports := false;
         enums := true;
         typedefs := true;
         ignoreTypeReferences := true |}
  end.

Section Rule.

Variable sc : SourceCode.

(** [node && node.range[0] <= location && location <= node.range[1]]. *)
Definition isInRange (node : Value) (location : nat) : result bool :=
  match node with
  | VNode id =>
      n <- getNode sc id ;;
      Ok ((fst (Node.range n) <=? location) && (location <=? snd (Node.range n)))
  | VArr _ => Err TypeError
  | v => if truthy v then Err TypeError else Ok false
  end.

Definition isInClassStaticInitializerRange (node : Value) (location : nat)
  : result bool :=
  match node with
  | VNode id =>
      n <- getNode sc id ;;
      match prop n "body" with
      | VArr members =>
          some (fun classMember =>
                  m <- getNode sc classMember ;;
                  inBlock <-
                    (if String.eqb (Node.type m) "StaticBlock"
                     then isInRange (VNode classMember) location
                     else Ok false) ;;
                  if inBlock then Ok true
                  else if String.eqb (Node.type m) "PropertyDefinition"
                          && truthy (prop m "static")
                          && truthy (prop m "value")
                       then isInRange (prop m "value") location
                       else Ok false)
               members
      | _ => Err TypeError
      end
  | _ => Err TypeError
  end.

Definition isClassStaticInitializerScope (scope : Scope.t) : result bool :=
  if String.eqb (Scope.type scope) "class-static-block" then Ok true
  else if String.eqb (Scope.type scope) "class-field-initializer" then
    p <- parentOf sc (Scope.block scope) ;;
    match p with
    | None => Err TypeError
    | Some propertyDefinition =>
        pd <- getNode sc propertyDefinition ;;
        Ok (truthy (prop pd "static"))
    end
  else Ok false.

(** The [while] loop of [isFromSeparateExecutionContext]; [target] is
    [variable.scope.variableScope], [scope] the loop variable ([None] once
    [upper] was [null]). *)
Fixpoint ascend (fuel : nat) (target : ScopeId) (scope : option ScopeId)
  : result bool :=
  match fuel with
  | 0 => Err OutOfFuel
  | S fuel' =>
      match scope with
      | None => Err TypeError
      | Some sid =>
          s <- getScope sc sid ;;
          if target =? Scope.variableScope s then Ok false
          else
            vs <- getScope sc (Scope.variableScope s) ;;
            transparent <- isClassStaticInitializerScope vs ;;
            if transparent then ascend fuel' target (Scope.upper vs)
            else Ok true
      end
  end.

Definition isFromSeparateExecutionContext (fuel : nat) (reference : Reference.t)
  : result bool :=
  match Reference.resolved reference with
  | None => Err TypeError
  | Some variable =>
      vscope <- getScope sc (Var.scope variable) ;;
      ascend fuel (Scope.variableScope vscope) (Some (Reference.from reference))
  end.

(** The upward walk of [isEvaluatedDuringInitialization] from
    [definition.name.parent]. *)
Fixpoint walkUp (fuel : nat) (node : option NodeId) (location : nat)
  : result bool :=
  match fuel with
  | 0 => Err OutOfFuel
  | S fuel' =>
      match node with
      | None => Ok false
      | Some id =>
          n <- getNode sc id ;;
          if String.eqb (Node.type n) "VariableDeclarator" then
            inInit <- isInRange (prop n "init") location ;;
            if inInit then Ok true
            else
              declaration <- parentOf sc id ;;
              match declaration with
              | None => Err TypeError
              | Some did =>
                  statement <- parentOf sc did ;;
                  match statement with
                  | None => Err TypeError
                  | Some stid =>
                      st <- getNode sc stid ;;
                      if FOR_IN_OF_TYPE (Node.type st) then
                        isInRange (prop st "right") location
                      else Ok false
                  end
              end
          else if String.eqb (Node.type n) "AssignmentPattern" then
            inRight <- isInRange (prop n "right") location ;;
            if inRight then Ok true
            else walkUp fuel' (Node.parent n) location
          else if SENTINEL_TYPE (Node.type n) then Ok false
          else walkUp fuel' (Node.parent n) location
      end
  end.

Definition isEvaluatedDuringInitialization (fuel : nat) (reference : Reference.t)
  : result bool :=
  separate <- isFromSeparateExecutionContext fuel reference ;;
  if separate then Ok false
  else
    ident <- getNode sc (Reference.identifier reference) ;;
    let location := snd (Node.range ident) in
    match Reference.resolved reference with
    | None => Err TypeError
    | Some variable =>
        match Var.defs variable with
        | [] => Err TypeError
        | definition :: _ =>
            if String.eqb (Def.type definition) "ClassName" then
              let classDefinition := Def.node definition in
              inClass <- isInRange (VNode classDefinition) location ;;
              if inClass then
                cd <- getNode sc classDefinition ;;
                inStatic <- isInClassStaticInitializerRange (prop cd "body") location ;;
                Ok (negb inStatic)
              else Ok false
            else
              start <- parentOf sc (Def.name definition) ;;
              walkUp fuel start location
        end
    end.

Fixpoint referenceContainsTypeQuery (fuel : nat) (node : option NodeId)
  : result bool :=
  match fuel with
  | 0 => Err OutOfFuel
  | S fuel' =>
      match node with
      | None => Err TypeError
      | Some id =>
          n <- getNode sc id ;;
          if String.eqb (Node.type n) "TSTypeQuery" then Ok true
          else if String.eqb (Node.type n) "TSQualifiedName"
                  || String.eqb (Node.type n) "Identifier"
               then referenceContainsTypeQuery fuel' (Node.parent n)
               else Ok false
      end
  end.

Definition isClassRefInClassDecorator (variable : Var.t) (reference : Reference.t)
  : result bool :=
  match Var.defs variable with
  | [] => Err TypeError
  | definition :: _ =>
      if negb (String.eqb (Def.type definition) "ClassName") then Ok false
      else
        dn <- getNode sc (Def.node definition) ;;
        match prop dn "decorators" with
        | VArr decorators =>
            ident <- getNode sc (Reference.identifier reference) ;;
            some (fun deco =>
                    d <- getNode sc deco ;;
                    Ok ((fst (Node.range d) <=? fst (Node.range ident))
                        && (snd (Node.range ident) <=? snd (Node.range d))))
                 decorators
        | v => if truthy v then Err TypeError else Ok false
        end
  end.

(** The [while] loop of [shouldCheck] that follows [left] out of nested
    [TSQualifiedName] nodes.  Reading [.type] of a primitive gives
    [undefined], which ends the loop. *)
Fixpoint leftmost (fuel : nat) (currentNode : Value) : result Value :=
  match fuel with
  | 0 => Err OutOfFuel
  | S fuel' =>
      match currentNode with
      | VNode id =>
          n <- getNode sc id ;;
          if String.eqb (Node.type n) "TSQualifiedName"
          then leftmost fuel' (prop n "left")
          else Ok currentNode
      | VUndefined | VNull => Err TypeError
      | v => Ok v
      end
  end.

(** [v === identifier] for a node [identifier]. *)
Definition isNode (v : Value) (identifier : NodeId) : bool :=
  match v with
  | VNode id => id =? identifier
  | _ => false
  end.

Variable options : Options.

Definition shouldCheck (fuel : nat) (reference : Reference.t) : result bool :=
  if Reference.init reference then Ok false
  else
    let identifier := Reference.identifier reference in
    namedExport <-
      (if allowNamedExports options then
         p <- parentOf sc identifier ;;
         match p with
         | None => Err TypeError
         | Some pid =>
             pn <- getNode sc pid ;;
             Ok (String.eqb (Node.type pn) "ExportSpecifier"
                 && isNode (prop pn "local") identifier)
         end
       else Ok false) ;;
    if namedExport then Ok false
    else
      match Reference.resolved reference with
      | None => Ok false
      | Some variable =>
          match Var.defs variable with
          | [] => Ok false
          | definition :: _ =>
              let definitionType := Def.type definition in
              if negb (functions options) && String.eqb definitionType "FunctionName"
              then Ok false
              else
                upperScope <-
                  (if (negb (variables options) && String.eqb definitionType "Variable")
                      || (negb (classes options) && String.eqb definitionType "ClassName")
                   then isFromSeparateExecutionContext fuel reference
                   else Ok false) ;;
                if upperScope then Ok false
                else if negb (enums options) && String.eqb definitionType "TSEnumName"
                then Ok false
                else if negb (typedefs options) && String.eqb definitionType "Type"
                then Ok false
                else
                  typeReference <-
                    (if ignoreTypeReferences options then
                       query <- referenceContainsTypeQuery fuel (Some identifier) ;;
                       if query then Ok true
                       else pt <- parentType sc identifier ;;
                            Ok (String.eqb pt "TSTypeReference")
                     else Ok false) ;;
                  if typeReference then Ok false
                  else
                    pt <- parentType sc identifier ;;
                    if String.eqb pt "TSQualifiedName" then
                      p <- parentOf sc identifier ;;
                      match p with
                      | None => Err TypeError
                      | Some pid =>
                          currentNode <- leftmost fuel (VNode pid) ;;
                          Ok (isNode currentNode identifier)
                      end
                    else
                      decorated <- isClassRefInClassDecorator variable reference ;;
                      Ok (negb decorated)
          end
      end.

(** The condition under which the callback of [checkReferencesInScope]
    calls [context.report]. *)
Definition usedBeforeDefined (fuel : nat) (reference : Reference.t) : result bool :=
  match Reference.resolved reference with
  | None => Err TypeError
  | Some variable =>
      match Var.defs variable with
      | [] => Err TypeError
      | definition :: _ =>
          ident <- getNode sc (Reference.identifier reference) ;;
          definitionIdentifier <- getNode sc (Def.name definition) ;;
          if snd (Node.range ident) <? snd (Node.range definitionIdentifier)
          then Ok true
          else
            during <- isEvaluatedDuringInitialization fuel reference ;;
            if during then
              pt <- parentType sc (Reference.identifier reference) ;;
              Ok (negb (String.eqb pt "TSTypeReference"))
            else Ok false
      end
  end.

(** [list.forEach(f)] where each call of [f] reports a list of items. *)
Fixpoint forEachM {A B : Type} (f : A -> result (list B)) (l : list A)
  : result (list B) :=
  match l with
  | [] => Ok []
  | x :: xs => r <- f x ;; rs <- forEachM f xs ;; Ok (r ++ rs)
  end.

(** [checkReferencesInScope] returns the references it calls
    [context.report] for, in the order of the calls.  [depth] bounds the
    recursion through [childScopes], [fuel] the loops of the helpers. *)
Fixpoint checkReferencesInScope (fuel depth : nat) (scope : ScopeId)
  : result (list Reference.t) :=
  match depth with
  | 0 => Err OutOfFuel
  | S depth' =>
      s <- getScope sc scope ;;
      checked <- filterM (shouldCheck fuel) (Scope.references s) ;;
      reported <- filterM (usedBeforeDefined fuel) checked ;;
      nested <- forEachM (checkReferencesInScope fuel depth') (Scope.childScopes s) ;;
      Ok (reported ++ nested)
  end.

Record Problem : Type := mkProblem {
  node : NodeId;
  messageId : string;
  data : NodeId
}.

(** The descriptor handed to [context.report] for a reference. *)
Definition report (reference : Reference.t) : Problem :=
  {| node := Reference.identifier reference;
     messageId := "usedBeforeDefined";
     data := Reference.identifier reference |}.

(** The [Program] handler; [globalScope] is what [sourceCode.getScope(node)]
    returns for the [Program] node. *)
Definition Program (fuel depth : nat) (globalScope : ScopeId)
  : result (list Problem) :=
  reported <- checkReferencesInScope fuel depth globalScope ;;
  Ok (map report reported).

End Rule.

End NoUseBeforeDefine.

(** ** Programs used as scenarios

    Each program is given as the parser and the scope analysis hand it to
    the rule: its nodes with their ranges (offsets into the source text) and
    its scopes.  Node [i] of a program is element [i] of [ast]. *)

Module Programs.

Import NoUseBeforeDefine.

(** *** [var a = a;] *)

Definition var_a : Var.t :=
  Var.mk "a" 0 [Def.mk "Variable" 3 2].

Definition var_a_ast : list Node.t :=
  [ Node.mk "Program" (0, 10) None [("body", VArr [1])];
    Node.mk "VariableDeclaration" (0, 10) (Some 0)
            [("declarations", VArr [2]); ("kind", VStr "var")];
    Node.mk "VariableDeclarator" (4, 9) (Some 1)
            [("id", VNode 3); ("init", VNode 4)];
    Node.mk "Identifier" (4, 5) (Some 2) [("name", VStr "a")];
    Node.mk "Identifier" (8, 9) (Some 2) [("name", VStr "a")] ].

Definition var_a_write : Reference.t := Reference.mk 3 0 (Some var_a) true.
Definition var_a_read : Reference.t := Reference.mk 4 0 (Some var_a) false.

Definition var_a_program : SourceCode :=
  {| ast := var_a_ast;
     scopes :=
       [ Scope.mk "global" 0 None 0 [var_a] [var_a_write; var_a_read] [] ] |}.

(** *** [function f(){} f();] *)

Definition fun_f : Var.t :=
  Var.mk "f" 0 [Def.mk "FunctionName" 2 1].

Definition fun_f_ast : list Node.t :=
  [ Node.mk "Program" (0, 19) None [("body", VArr [1; 4])];
    Node.mk "FunctionDeclaration" (0, 14) (Some 0)
            [("id", VNode 2); ("params", VArr []); ("body", VNode 3)];
    Node.mk "Identifier" (9, 10) (Some 1) [("name", VStr "f")];
    Node.mk "BlockStatement" (12, 14) (Some 1) [("body", VArr [])];
    Node.mk "ExpressionStatement" (15, 19) (Some 0) [("expression", VNode 5)];
    Node.mk "CallExpression" (15, 18) (Some 4)
            [("callee", VNode 6); ("arguments", VArr [])];
    Node.mk "Identifier" (15, 16) (Some 5) [("name", VStr "f")] ].

Definition fun_f_call : Reference.t := Reference.mk 6 0 (Some fun_f) false.

Definition fun_f_program : SourceCode :=
  {| ast := fun_f_ast;
     scopes :=
       [ Scope.mk "global" 0 None 0 [fun_f] [fun_f_call] [1];
         Scope.mk "function" 1 (Some 0) 1 [Var.mk "arguments" 1 []] [] [] ] |}.

(** *** [class C { static foo = 1; static { bar = C; } }]

    The class name is bound twice, in the enclosing scope and in the class
    scope; the reference in the static block resolves to the inner binding. *)

Definition class_C_outer : Var.t := Var.mk "C" 0 [Def.mk "ClassName" 2 1].
Definition class_C_inner : Var.t := Var.mk "C" 1 [Def.mk "ClassName" 2 1].

Definition static_C_ast : list Node.t :=
  [ Node.mk "Program" (0, 47) None [("body", VArr [1])];
    Node.mk "ClassDeclaration" (0, 47) (Some 0)
            [("id", VNode 2); ("superClass", VNull); ("body", VNode 3)];
    Node.mk "Identifier" (6, 7) (Some 1) [("name", VStr "C")];
    Node.mk "ClassBody" (8, 47) (Some 1) [("body", VArr [4; 7])];
    Node.mk "PropertyDefinition" (10, 25) (Some 3)
            [("key", VNode 5); ("value", VNode 6); ("static", VBool true);
             ("computed", VBool false)];
    Node.mk "Identifier" (17, 20) (Some 4) [("name", VStr "foo")];
    Node.mk "Literal" (23, 24) (Some 4) [("raw", VStr "1")];
    Node.mk "StaticBlock" (26, 45) (Some 3) [("body", VArr [8])];
    Node.mk "ExpressionStatement" (35, 43) (Some 7) [("expression", VNode 9)];
    Node.mk "AssignmentExpression" (35, 42) (Some 8)
            [("operator", VStr "="); ("left", VNode 10); ("right", VNode 11)];
    Node.mk "Identifier" (35, 38) (Some 9) [("name", VStr "bar")];
    Node.mk "Identifier" (41, 42) (Some 9) [("name", VStr "C")] ].

Definition static_C_bar : Reference.t := Reference.mk 10 3 None false.
Definition static_C_ref : Reference.t := Reference.mk 11 3 (Some class_C_inner) false.

Definition static_C_program : SourceCode :=
  {| ast := static_C_ast;
     scopes :=
       [ Scope.mk "global" 0 None 0 [class_C_outer] [] [1];
         Scope.mk "class" 1 (Some 0) 0 [class_C_inner] [] [2; 3];
         Scope.mk "class-field-initializer" 6 (Some 1) 2 [] [] [];
         Scope.mk "class-static-block" 7 (Some 1) 3 [] [static_C_bar; static_C_ref] [] ] |}.

(** *** [class C { m() { C; } }] *)

Definition method_C_ast : list Node.t :=
  [ Node.mk "Program" (0, 22) None [("body", VArr [1])];
    Node.mk "ClassDeclaration" (0, 22) (Some 0)
            [("id", VNode 2); ("superClass", VNull); ("body", VNode 3)];
    Node.mk "Identifier" (6, 7) (Some 1) [("name", VStr "C")];
    Node.mk "ClassBody" (8, 22) (Some 1) [("body", VArr [4])];
    Node.mk "MethodDefinition" (10, 20) (Some 3)
            [("key", VNode 5); ("value", VNode 6); ("static", VBool false);
             ("computed", VBool false); ("kind", VStr "method")];
    Node.mk "Identifier" (10, 11) (Some 4) [("name", VStr "m")];
    Node.mk "FunctionExpression" (11, 20) (Some 4)
            [("id", VNull); ("params", VArr []); ("body", VNode 7)];
    Node.mk "BlockStatement" (14, 20) (Some 6) [("body", VArr [8])];
    Node.mk "ExpressionStatement" (16, 18) (Some 7) [("expression", VNode 9)];
    Node.mk "Identifier" (16, 17) (Some 8) [("name", VStr "C")] ].

Definition method_C_ref : Reference.t := Reference.mk 9 2 (Some class_C_inner) false.

Definition method_C_program : SourceCode :=
  {| ast := method_C_ast;
     scopes :=
       [ Scope.mk "global" 0 None 0 [class_C_outer] [] [1];
         Scope.mk "class" 1 (Some 0) 0 [class_C_inner] [] [2];
         Scope.mk "function" 6 (Some 1) 2 [Var.mk "arguments" 2 []] [method_C_ref] [] ] |}.

(** *** [const C = class { x = C; };] *)

Definition const_C : Var.t := Var.mk "C" 0 [Def.mk "Variable" 3 2].

Definition field_C_ast : list Node.t :=
  [ Node.mk "Program" (0, 27) None [("body", VArr [1])];
    Node.mk "VariableDeclaration" (0, 27) (Some 0)
            [("declarations", VArr [2]); ("kind", VStr "const")];
    Node.mk "VariableDeclarator" (6, 26) (Some 1)
            [("id", VNode 3); ("init", VNode 4)];
    Node.mk "Identifier" (6, 7) (Some 2) [("name", VStr "C")];
    Node.mk "ClassExpression" (10, 26) (Some 2)
            [("id", VNull); ("superClass", VNull); ("body", VNode 5)];
    Node.mk "ClassBody" (16, 26) (Some 4) [("body", VArr [6])];
    Node.mk "PropertyDefinition" (18, 24) (Some 5)
            [("key", VNode 7); ("value", VNode 8); ("static", VBool false);
             ("computed", VBool false)];
    Node.mk "Identifier" (18, 19) (Some 6) [("name", VStr "x")];
    Node.mk "Identifier" (22, 23) (Some 6) [("name", VStr "C")] ].

Definition field_C_write : Reference.t := Reference.mk 3 0 (Some const_C) true.
Definition field_C_ref : Reference.t := Reference.mk 8 2 (Some const_C) false.

Definition field_C_program : SourceCode :=
  {| ast := field_C_ast;
     scopes :=
       [ Scope.mk "global" 0 None 0 [const_C] [field_C_write] [1];
         Scope.mk "class" 4 (Some 0) 0 [] [] [2];
         Scope.mk "class-field-initializer" 8 (Some 1) 2 [] [field_C_ref] [] ] |}.

(** *** [var a = function (p) { p; };] *)

Definition param_p : Var.t := Var.mk "p" 1 [Def.mk "Parameter" 5 4].

Definition param_p_ast : list Node.t :=
  [ Node.mk "Program" (0, 28) None [("body", VArr [1])];
    Node.mk "VariableDeclaration" (0, 28) (Some 0)
            [("declarations", VArr [2]); ("kind", VStr "var")];
    Node.mk "VariableDeclarator" (4, 27) (Some 1)
            [("id", VNode 3); ("init", VNode 4)];
    Node.mk "Identifier" (4, 5) (Some 2) [("name", VStr "a")];
    Node.mk "FunctionExpression" (8, 27) (Some 2)
            [("id", VNull); ("params", VArr [5]); ("body", VNode 6)];
    Node.mk "Identifier" (18, 19) (Some 4) [("name", VStr "p")];
    Node.mk "BlockStatement" (21, 27) (Some 4) [("body", VArr [7])];
    Node.mk "ExpressionStatement" (23, 25) (Some 6) [("expression", VNode 8)];
    Node.mk "Identifier" (23, 24) (Some 7) [("name", VStr "p")] ].

Definition param_p_ref : Reference.t := Reference.mk 8 1 (Some param_p) false.

Definition param_p_program : SourceCode :=
  {| ast := param_p_ast;
     scopes :=
       [ Scope.mk "global" 0 None 0 [var_a]
                  [Reference.mk 3 0 (Some var_a) true] [1];
         Scope.mk "function" 4 (Some 0) 1
                  [Var.mk "arguments" 1 []; param_p] [param_p_ref] [] ] |}.

(** *** [function f() { arguments; }]

    [arguments] is a variable of the function scope that no syntax
    construct declares: its [defs] is empty. *)

Definition arguments_var : Var.t := Var.mk "arguments" 1 [].

Definition arguments_ast : list Node.t :=
  [ Node.mk "Program" (0, 27) None [("body", VArr [1])];
    Node.mk "FunctionDeclaration" (0, 27) (Some 0)
            [("id", VNode 2); ("params", VArr []); ("body", VNode 3)];
    Node.mk "Identifier" (9, 10) (Some 1) [("name", VStr "f")];
    Node.mk "BlockStatement" (13, 27) (Some 1) [("body", VArr [4])];
    Node.mk "ExpressionStatement" (15, 25) (Some 3) [("expression", VNode 5)];
    Node.mk "Identifier" (15, 24) (Some 4) [("name", VStr "arguments")] ].

Definition arguments_ref : Reference.t := Reference.mk 5 1 (Some arguments_var) false.

Definition arguments_program : SourceCode :=
  {| ast := arguments_ast;
     scopes :=
       [ Scope.mk "global" 0 None 0 [fun_f] [] [1];
         Scope.mk "function" 1 (Some 0) 1 [arguments_var] [arguments_ref] [] ] |}.

(** *** [class C { [C]; }] *)

Definition computed_C_ast : list Node.t :=
  [ Node.mk "Program" (0, 16) None [("body", VArr [1])];
    Node.mk "ClassDeclaration" (0, 16) (Some 0)
            [("id", VNode 2); ("superClass", VNull); ("body", VNode 3)];
    Node.mk "Identifier" (6, 7) (Some 1) [("name", VStr "C")];
    Node.mk "ClassBody" (8, 16) (Some 1) [("body", VArr [4])];
    Node.mk "PropertyDefinition" (10, 14) (Some 3)
            [("key", VNode 5); ("value", VNull); ("static", VBool false);
             ("computed", VBool true)];
    Node.mk "Identifier" (11, 12) (Some 4) [("name", VStr "C")] ].

Definition computed_C_ref : Reference.t := Reference.mk 5 1 (Some class_C_inner) false.

Definition computed_C_program : SourceCode :=
  {| ast := computed_C_ast;
     scopes :=
       [ Scope.mk "global" 0 None 0 [class_C_outer] [] [1];
         Scope.mk "class" 1 (Some 0) 0 [class_C_inner] [computed_C_ref] [] ] |}.

Definition defaults : Options := parseOptions OptUndefined.

(** Node [i] of a program. *)
Definition nodeAt (sc : SourceCode) (i : NodeId) : Node.t :=
  nth i (ast sc) (Node.mk "" (0, 0) None []).

Definition scopeAt (sc : SourceCode) (i : ScopeId) : Scope.t :=
  nth i (scopes sc) (Scope.mk "" 0 None 0 [] [] []).

End Programs.

(** ** no-labels

    The rule only reacts to labeled statements, [break] and [continue]; the
    tree below keeps these three node kinds apart and folds every other node
    into [OtherNode].  The [Identifier] children that carry the label names
    trigger no handler of the rule and are kept as the name itself. *)

Module NoLabels.

Inductive ASTNode : Type :=
| LabeledStatement (label : string) (body : ASTNode)
| BreakStatement (label : option string)
| ContinueStatement (label : option string)
| OtherNode (type : string) (children : list ASTNode).

Definition typeOf (node : ASTNode) : string :=
  match node with
  | LabeledStatement _ _ => "LabeledStatement"
  | BreakStatement _ => "BreakStatement"
  | ContinueStatement _ => "ContinueStatement"
  | OtherNode type _ => type
  end.

(** Induction over syntax trees, with the children of a node covered by
    [Forall]. *)
Section ASTNode_induction.

Variable P : ASTNode -> Prop.
Hypothesis P_labeled : forall label body, P body -> P (LabeledStatement label body).
Hypothesis P_break : forall label, P (BreakStatement label).
Hypothesis P_continue : forall label, P (ContinueStatement label).
Hypothesis P_other : forall type children, Forall P children -> P (OtherNode type children).

Fixpoint ASTNode_induction (node : ASTNode) : P node :=
  match node with
  | LabeledStatement label body => P_labeled label body (ASTNode_induction body)
  | BreakStatement label => P_break label
  | ContinueStatement label => P_continue label
  | OtherNode type children =>
      P_other type children
        ((fix all (l : list ASTNode) : Forall P l :=
            match l with
            | [] => Forall_nil P
            | child :: rest => Forall_cons child (ASTNode_induction child) (all rest)
            end) children)
  end.

End ASTNode_induction.

(** The linked list [{ label, kind, upper }] held in [scopeInfo]; [None] is
    [null]. *)
Inductive ScopeInfo : Type :=
| mkScopeInfo (label : string) (kind : string) (upper : option ScopeInfo).

Definition info_label (info : ScopeInfo) : string :=
  match info with mkScopeInfo label _ _ => label end.

Definition info_kind (info : ScopeInfo) : string :=
  match info with mkScopeInfo _ kind _ => kind end.

Definition info_upper (info : ScopeInfo) : option ScopeInfo :=
  match info with mkScopeInfo _ _ upper => upper end.

Record Problem : Type := mkProblem {
  node : ASTNode;
  messageId : string
}.

(** The mutable state of one run of the rule: the variable [scopeInfo] of
    [create] and the problems reported so far, oldest first. *)
Record State : Type := mkState {
  scopeInfo : option ScopeInfo;
  reports : list Problem
}.

Definition context_report (p : Problem) (st : State) : State :=
  {| scopeInfo := scopeInfo st; reports := reports st ++ [p] |}.

Section Rule.

(** [astUtils.isLoop], from a module that is not part of the sources at
    hand. *)
Variable isLoop : ASTNode -> bool.

(** The options [allowLoop] and [allowSwitch]. *)
Variables allowLoop allowSwitch : bool.

Definition getBodyKind (node : ASTNode) : string :=
  if isLoop node then "loop"
  else if String.eqb (typeOf node) "SwitchStatement" then "switch"
  else "other".

Definition isAllowed (kind : string) : bool :=
  if String.eqb kind "loop" then allowLoop
  else if String.eqb kind "switch" then allowSwitch
  else false.

(** The [while (info)] loop of [getKind], entered with a non-null [info]. *)
Fixpoint getKindIn (info : ScopeInfo) (label : string) : string :=
  match info with
  | mkScopeInfo l kind upper =>
      if String.eqb l label then kind
      else match upper with
           | None => "other"
           | Some info' => getKindIn info' label
           end
  end.

Definition getKindFrom (info : option ScopeInfo) (label : string) : string :=
  match info with
  | None => "other"
  | Some i => getKindIn i label
  end.

Definition getKind (st : State) (label : string) : string :=
  getKindFrom (scopeInfo st) label.

(** Handler [LabeledStatement]. *)
Definition onLabeledStatement (label : string) (body : ASTNode) (st : State)
  : result State :=
  Ok {| scopeInfo := Some (mkScopeInfo label (getBodyKind body) (scopeInfo st));
        reports := reports st |}.

(** Handler ["LabeledStatement:exit"]. *)
Definition onLabeledStatementExit (node : ASTNode) (st : State) : result State :=
  match scopeInfo st with
  | None => Err TypeError
  | Some info =>
      let st' :=
        if negb (isAllowed (info_kind info))
        then context_report (mkProblem node "unexpectedLabel") st
        else st in
      Ok {| scopeInfo := info_upper info; reports := reports st' |}
  end.

(** Handler [BreakStatement]. *)
Definition onBreakStatement (node : ASTNode) (label : option string) (st : State)
  : result State :=
  match label with
  | Some name =>
      if negb (isAllowed (getKind st name))
      then Ok (context_report (mkProblem node "unexpectedLabelInBreak") st)
      else Ok st
  | None => Ok st
  end.

(** Handler [ContinueStatement]. *)
Definition onContinueStatement (node : ASTNode) (label : option string) (st : State)
  : result State :=
  match label with
  | Some name =>
      if negb (isAllowed (getKind st name))
      then Ok (context_report (mkProblem node "unexpectedLabelInContinue") st)
      else Ok st
  | None => Ok st
  end.

(** The handler map returned by [create]: what runs when the traversal
    enters, respectively leaves, a node. *)
Definition enter (node : ASTNode) (st : State) : result State :=
  match node with
  | LabeledStatement label body => onLabeledStatement label body st
  | BreakStatement label => onBreakStatement node label st
  | ContinueStatement label => onContinueStatement node label st
  | OtherNode _ _ => Ok st
  end.

Definition leave (node : ASTNode) (st : State) : result State :=
  match node with
  | LabeledStatement _ _ => onLabeledStatementExit node st
  | _ => Ok st
  end.

(** The labels held in [scopeInfo], innermost first. *)
Fixpoint labelsIn (info : ScopeInfo) : list string :=
  match info with
  | mkScopeInfo label _ upper =>
      label :: match upper with
               | None => []
               | Some info' => labelsIn info'
               end
  end.

Definition labelsOf (info : option ScopeInfo) : list string :=
  match info with
  | None => []
  | Some i => labelsIn i
  end.

(** What is seen at one [BreakStatement] or [ContinueStatement] handler
    call: the labels in [scopeInfo] at that moment, and the node. *)
Definition Observation : Type := (list string * ASTNode)%type.

Definition observe (node : ASTNode) (st : State) : list Observation :=
  match node with
  | BreakStatement _ | ContinueStatement _ => [(labelsOf (scopeInfo st), node)]
  | _ => []
  end.

(** Modelled from the spec: the traversal of the rule engine, which is not
    part of the sources at hand.  One depth-first walk: the entry handler of
    a node, then its children from first to last, each subtree finished
    before the next sibling starts, then the exit handler of the node.

    Next to the state the walk returns what it saw at each [BreakStatement]
    and [ContinueStatement] handler call, in call order: the content of
    [scopeInfo] at that moment, and the node. *)
Fixpoint traverse (node : ASTNode) (st : State) : result (list Observation * State) :=
  let seen := observe node st in
  st1 <- enter node st ;;
  r <- match node with
       | LabeledStatement _ body => traverse body st1
       | OtherNode _ children =>
           (fix each (l : list ASTNode) (s : State) : result (list Observation * State) :=
              match l with
              | [] => Ok ([], s)
              | child :: rest =>
                  r1 <- traverse child s ;;
                  r2 <- each rest (snd r1) ;;
                  Ok (fst r1 ++ fst r2, snd r2)
              end) children st1
       | _ => Ok ([], st1)
       end ;;
  st2 <- leave node (snd r) ;;
  Ok (seen ++ fst r, st2).

End Rule.

(** The labels of the labeled statements that enclose each [break] and
    [continue] of a tree, innermost first, read off the tree itself;
    [enclosing] holds the labels met on the way down. *)
Fixpoint jumps (enclosing : list string) (node : ASTNode) : list Observation :=
  match node with
  | LabeledStatement label body => jumps (label :: enclosing) body
  | BreakStatement _ | ContinueStatement _ => [(enclosing, node)]
  | OtherNode _ children =>
      (fix each (l : list ASTNode) : list Observation :=
         match l with
         | [] => []
         | child :: rest => jumps enclosing child ++ each rest
         end) children
  end.

(** A traversal is balanced on [node]: started in any state, it returns,
    it has seen at the jumps of [node] the labels that enclose them in front
    of the labels [scopeInfo] held at the start, and [scopeInfo] ends as it
    started. *)
Definition balanced (isLoop : ASTNode -> bool) (allowLoop allowSwitch : bool)
  (node : ASTNode) : Prop :=
  forall st, exists st',
    traverse isLoop allowLoop allowSwitch node st
    = Ok (jumps (labelsOf (scopeInfo st)) node, st')
    /\ scopeInfo st' = scopeInfo st.

(** [a: while (x) { b: { break a; } continue a; }] *)
Definition nested_labels : ASTNode :=
  OtherNode "Program"
    [ LabeledStatement "a"
        (OtherNode "WhileStatement"
           [ OtherNode "Identifier" [];
             OtherNode "BlockStatement"
               [ LabeledStatement "b"
                   (OtherNode "BlockStatement" [BreakStatement (Some "a")]);
                 ContinueStatement (Some "a") ] ]) ].

(** What a traversal saw, the [scopeInfo] it ended with and the messages
    it reported. *)
Definition summary (r : result (list Observation * State))
  : option (list Observation * option ScopeInfo * list string) :=
  match r with
  | Ok (seen, final) => Some (seen, scopeInfo final, map messageId (reports final))
  | Err _ => None
  end.

(** [isLoop] on the types of the loop statements. *)
Definition loopTypes (node : ASTNode) : bool :=
  existsb (String.eqb (typeOf node))
    ["DoWhileStatement"; "ForStatement"; "ForInStatement"; "ForOfStatement";
     "WhileStatement"].

End NoLabels.

(** ** quotes

    Source text is a [string]: one character per code unit.  The characters
    the rule looks for are all ASCII. *)

Module Quotes.

Local Open Scope string_scope.

Definition DQUOTE : ascii := ascii_of_nat 34.
Definition SQUOTE : ascii := ascii_of_nat 39.
Definition BACKTICK : ascii := ascii_of_nat 96.
Definition BACKSLASH : ascii := ascii_of_nat 92.
Definition DOLLAR : ascii := ascii_of_nat 36.
Definition LBRACE : ascii := ascii_of_nat 123.
Definition CR : ascii := ascii_of_nat 13.
Definition LF : ascii := ascii_of_nat 10.

(** A one-character and a two-character string. *)
Definition str1 (a : ascii) : string := String a EmptyString.
Definition str2 (a b : ascii) : string := String a (String b EmptyString).

Record QuoteSetting : Type := mkQuoteSetting {
  quote : ascii;
  alternateQuote : ascii;
  description : string
}.

Inductive QuoteOption : Type :=
| double
| single
| backtick.

Definition QUOTE_SETTINGS (key : QuoteOption) : QuoteSetting :=
  match key with
  | double => mkQuoteSetting DQUOTE SQUOTE "doublequote"
  | single => mkQuoteSetting SQUOTE DQUOTE "singlequote"
  | backtick => mkQuoteSetting BACKTICK DQUOTE "backtick"
  end.

Definition option_eqb (a : option string) (b : string) : bool :=
  match a with
  | Some s => String.eqb s b
  | None => false
  end.

(** The replacer callback of [convert]: [matched] is the whole match,
    [escaped] and [newline] the two capture groups ([None] when the group
    did not take part in the match). *)
Definition replacer (oldQuote newQuote : ascii)
  (matched : string) (escaped newline : option string) : string :=
  if option_eqb escaped (str1 oldQuote)
     || (Ascii.eqb oldQuote BACKTICK && option_eqb escaped (str2 DOLLAR LBRACE))
  then match escaped with Some e => e | None => EmptyString end
  else if String.eqb matched (str1 newQuote)
          || (Ascii.eqb newQuote BACKTICK && String.eqb matched (str2 DOLLAR LBRACE))
  then String BACKSLASH matched
  else if match newline with Some _ => true | None => false end
          && Ascii.eqb oldQuote BACKTICK
  then String BACKSLASH (str1 "n"%char)
  else matched.

Definition isQuote (c : ascii) : bool :=
  Ascii.eqb c DQUOTE || Ascii.eqb c SQUOTE || Ascii.eqb c BACKTICK.

(** [s.replace(pattern, replacer)] for the global pattern of [convert].  The
    pattern has four alternatives, tried in this order at each position:
    a backslash followed by (group 1) a dollar sign and an opening brace,
    or a line break ([\r\n], [\r], [\n]), or any other character; one
    of the three quote characters; a dollar sign and an opening brace;
    (group 2) a line break.  A character at which none matches is copied. *)
Fixpoint replaceAll (oldQuote newQuote : ascii) (s : string) : string :=
  let cb := replacer oldQuote newQuote in
  match s with
  | EmptyString => EmptyString
  | String c rest =>
      if Ascii.eqb c BACKSLASH then
        match rest with
        | EmptyString => str1 c
        | String d rest1 =>
            let one := cb (str2 c d) (Some (str1 d)) None ++ replaceAll oldQuote newQuote rest1 in
            match rest1 with
            | String e rest2 =>
                if (Ascii.eqb d DOLLAR && Ascii.eqb e LBRACE)
                   || (Ascii.eqb d CR && Ascii.eqb e LF)
                then cb (String c (str2 d e)) (Some (str2 d e)) None
                     ++ replaceAll oldQuote newQuote rest2
                else one
            | EmptyString => one
            end
        end
      else if isQuote c then
        cb (str1 c) None None ++ replaceAll oldQuote newQuote rest
      else if Ascii.eqb c DOLLAR then
        match rest with
        | String d rest1 =>
            if Ascii.eqb d LBRACE
            then cb (str2 c d) None None ++ replaceAll oldQuote newQuote rest1
            else String c (replaceAll oldQuote newQuote rest)
        | EmptyString => String c (replaceAll oldQuote newQuote rest)
        end
      else if Ascii.eqb c CR then
        match rest with
        | String d rest1 =>
            if Ascii.eqb d LF
            then cb (str2 c d) None (Some (str2 c d)) ++ replaceAll oldQuote newQuote rest1
            else cb (str1 c) None (Some (str1 c)) ++ replaceAll oldQuote newQuote rest
        | EmptyString =>
            cb (str1 c) None (Some (str1 c)) ++ replaceAll oldQuote newQuote rest
        end
      else if Ascii.eqb c LF then
        cb (str1 c) None (Some (str1 c)) ++ replaceAll oldQuote newQuote rest
      else String c (replaceAll oldQuote newQuote rest)
  end.

Fixpoint dropLast (s : string) : string :=
  match s with
  | EmptyString => EmptyString
  | String c EmptyString => EmptyString
  | String c rest => String c (dropLast rest)
  end.

(** [str.slice(1, -1)]. *)
Definition slice_1_m1 (str : string) : string :=
  match str with
  | EmptyString => EmptyString
  | String _ rest => dropLast rest
  end.

(** [settings.convert(str)]; [this.quote] is [quote settings].  For the
    empty string [str[0]] is [undefined], which differs from every quote. *)
Definition convert (settings : QuoteSetting) (str : string) : string :=
  let newQuote := quote settings in
  match str with
  | String oldQuote _ =>
      if Ascii.eqb newQuote oldQuote then str
      else String newQuote
             (replaceAll oldQuote newQuote (slice_1_m1 str) ++ str1 newQuote)
  | EmptyString => str2 newQuote newQuote
  end.

Fixpoint includes (s : string) (c : ascii) : bool :=
  match s with
  | EmptyString => false
  | String d rest => Ascii.eqb d c || includes rest c
  end.

(** [options] of [create], the second element of [context.options]. *)
Inductive SecondOption : Type :=
| NoOption
| AvoidEscapeString
| OptionObject (avoidEscape allowTemplateLiterals : option bool).

Definition allowTemplateLiteralsOf (options : SecondOption) : bool :=
  match options with
  | OptionObject _ (Some true) => true
  | _ => false
  end.

Definition avoidEscapeOf (options : SecondOption) : bool :=
  match options with
  | OptionObject (Some true) _ => true
  | AvoidEscapeString => true
  | _ => false
  end.

(** [fixer.replaceText(node, text)]: the range of the node and the new text. *)
Record Edit : Type := mkEdit {
  range : nat * nat;
  text : string
}.

(** A problem as handed to [context.report]; [fix_] is the value the [fix]
    callback of the descriptor returns ([None] for [null]). *)
Record Problem : Type := mkProblem {
  node : NodeId;
  messageId : string;
  data_description : string;
  fix_ : option Edit
}.

Section Rule.

Variable sc : SourceCode.

(** Helpers of [astUtils] and of the [SourceCode] object, from modules that
    are not part of the sources at hand. *)
Variable isParenthesised : NodeId -> bool.
Variable isTopLevelExpressionStatement : NodeId -> bool.
Variable isSurroundedBy : string -> ascii -> bool.
Variable hasOctalOrNonOctalDecimalEscapeSequence : string -> bool.
Variable LINEBREAKS : list ascii.
Variable getText : NodeId -> string.

(** [context.options]. *)
Variable quoteOption : option QuoteOption.
Variable options : SecondOption.

Definition settings : QuoteSetting :=
  QUOTE_SETTINGS (match quoteOption with Some o => o | None => double end).

Definition allowTemplateLiterals : bool := allowTemplateLiteralsOf options.
Definition avoidEscape : bool := avoidEscapeOf options.

Definition isBacktick : bool :=
  match quoteOption with
  | Some backtick => true
  | _ => false
  end.

(** [UNESCAPED_LINEBREAK_PATTERN.test(s)]: some line break of [s] is
    preceded by an even number of backslashes.  [even] tells whether the
    run of backslashes that ends at the current position has even length. *)
Fixpoint unescapedLinebreak (even : bool) (s : string) : bool :=
  match s with
  | EmptyString => false
  | String c rest =>
      if existsb (Ascii.eqb c) LINEBREAKS then even || unescapedLinebreak true rest
      else if Ascii.eqb c BACKSLASH then unescapedLinebreak (negb even) rest
      else unescapedLinebreak true rest
  end.

Definition UNESCAPED_LINEBREAK_PATTERN (s : string) : bool :=
  unescapedLinebreak true s.

(** [node.parent], a node being required. *)
Definition parentNode (id : NodeId) : result (NodeId * Node.t) :=
  p <- parentOf sc id ;;
  match p with
  | None => Err TypeError
  | Some pid => pn <- getNode sc pid ;; Ok (pid, pn)
  end.

Definition isJSXLiteral (node : NodeId) : result bool :=
  p <- parentNode node ;;
  let t := Node.type (snd p) in
  Ok (String.eqb t "JSXAttribute" || String.eqb t "JSXElement"
      || String.eqb t "JSXFragment").

Definition isString (v : Value) : bool :=
  match v with
  | VStr _ => true
  | _ => false
  end.

Definition isDirective (node : NodeId) : result bool :=
  n <- getNode sc node ;;
  if String.eqb (Node.type n) "ExpressionStatement" then
    match prop n "expression" with
    | VNode expression =>
        e <- getNode sc expression ;;
        Ok (String.eqb (Node.type e) "Literal"
            && isString (prop e "value")
            && negb (isParenthesised expression))
    | _ => Err TypeError
    end
  else Ok false.

(** The [for] loop of [isExpressionInOrJustAfterDirectivePrologue] over
    [block.body]. *)
Fixpoint atPrologue (statement_of_node : NodeId) (body : list NodeId) : result bool :=
  match body with
  | [] => Ok false
  | statement :: rest =>
      if Nat.eqb statement statement_of_node then Ok true
      else
        directive <- isDirective statement ;;
        if directive then atPrologue statement_of_node rest else Ok false
  end.

Definition isExpressionInOrJustAfterDirectivePrologue (node : NodeId) : result bool :=
  p <- parentNode node ;;
  if negb (isTopLevelExpressionStatement (fst p)) then Ok false
  else
    b <- parentNode (fst p) ;;
    match prop (snd b) "body" with
    | VArr body => atPrologue (fst p) body
    | VUndefined | VNull => Err TypeError
    | _ => Ok false
    end.

Definition isAllowedAsNonBacktick (node : NodeId) : result bool :=
  p <- parentNode node ;;
  let parent := snd p in
  let t := Node.type parent in
  if String.eqb t "ExpressionStatement" then
    if negb (isParenthesised node)
    then isExpressionInOrJustAfterDirectivePrologue node
    else Ok false
  else if String.eqb t "Property" || String.eqb t "PropertyDefinition"
          || String.eqb t "MethodDefinition" then
    Ok (NoUseBeforeDefine.isNode (prop parent "key") node
        && negb (truthy (prop parent "computed")))
  else if String.eqb t "ImportDeclaration" || String.eqb t "ExportNamedDeclaration" then
    Ok (NoUseBeforeDefine.isNode (prop parent "source") node)
  else if String.eqb t "ExportAllDeclaration" then
    Ok (NoUseBeforeDefine.isNode (prop parent "exported") node
        || NoUseBeforeDefine.isNode (prop parent "source") node)
  else if String.eqb t "ImportSpecifier" then
    Ok (NoUseBeforeDefine.isNode (prop parent "imported") node)
  else if String.eqb t "ExportSpecifier" then
    Ok (NoUseBeforeDefine.isNode (prop parent "local") node
        || NoUseBeforeDefine.isNode (prop parent "exported") node)
  else Ok false.

(** The [raw] text of the first quasi is kept on the [TemplateElement] node
    under the key [value.raw]. *)
Definition isUsingFeatureOfTemplateLiteral (node : NodeId) : result bool :=
  n <- getNode sc node ;;
  p <- parentNode node ;;
  let hasTag := String.eqb (Node.type (snd p)) "TaggedTemplateExpression"
                && NoUseBeforeDefine.isNode (prop (snd p) "quasi") node in
  if hasTag then Ok true
  else
    match prop n "expressions" with
    | VArr expressions =>
        if Nat.ltb 0 (List.length expressions) then Ok true
        else
          match prop n "quasis" with
          | VArr [] => Ok false
          | VArr (quasi :: _) =>
              q <- getNode sc quasi ;;
              match prop q "value.raw" with
              | VStr raw => Ok (UNESCAPED_LINEBREAK_PATTERN raw)
              | _ => Err TypeError
              end
          | _ => Err TypeError
          end
    | _ => Err TypeError
    end.

(** Handler [Literal]: the problem it reports, if any. *)
Definition Literal (node : NodeId) : result (option Problem) :=
  n <- getNode sc node ;;
  if isString (prop n "value") then
    match prop n "raw" with
    | VStr rawVal =>
        allowed <- (if isBacktick then isAllowedAsNonBacktick node else Ok false) ;;
        jsx <- (if allowed then Ok true else isJSXLiteral node) ;;
        let isValid := jsx || isSurroundedBy rawVal (quote settings) in
        let isValid :=
          if negb isValid && avoidEscape
          then isSurroundedBy rawVal (alternateQuote settings)
               && includes rawVal (quote settings)
          else isValid in
        if negb isValid then
          Ok (Some {| node := node;
                      messageId := "wrongQuotes";
                      data_description := description settings;
                      fix_ := if isBacktick && hasOctalOrNonOctalDecimalEscapeSequence rawVal
                             then None
                             else Some (mkEdit (Node.range n) (convert settings rawVal)) |})
        else Ok None
    | _ => Err TypeError
    end
  else Ok None.

(** Handler [TemplateLiteral]. *)
Definition TemplateLiteral (node : NodeId) : result (option Problem) :=
  skip <- (if allowTemplateLiterals || isBacktick then Ok true
           else isUsingFeatureOfTemplateLiteral node) ;;
  if skip then Ok None
  else
    n <- getNode sc node ;;
    p <- parentNode node ;;
    Ok (Some {| node := node;
                messageId := "wrongQuotes";
                data_description := description settings;
                fix_ := if isTopLevelExpressionStatement (fst p)
                          && negb (isParenthesised node)
                       then None
                       else Some (mkEdit (Node.range n) (convert settings (getText node))) |}).

End Rule.

(** *** ['use strict'; ("a");] *)

Definition strict_ast : list Node.t :=
  [ Node.mk "Program" (0, 20) None [("body", VArr [1; 3])];
    Node.mk "ExpressionStatement" (0, 13) (Some 0)
            [("expression", VNode 2); ("directive", VStr "use strict")];
    Node.mk "Literal" (0, 12) (Some 1)
            [("value", VStr "use strict");
             ("raw", VStr (String SQUOTE ("use strict" ++ str1 SQUOTE)))];
    Node.mk "ExpressionStatement" (14, 20) (Some 0) [("expression", VNode 4)];
    Node.mk "Literal" (15, 18) (Some 3)
            [("value", VStr "a");
             ("raw", VStr (String DQUOTE ("a" ++ str1 DQUOTE)))] ].

Definition strict_program : SourceCode :=
  {| ast := strict_ast; scopes := [] |}.

(** The helpers of [astUtils] on this program: only [("a")] is in
    parentheses, both statements are top-level expression statements, and a
    text is surrounded by a character when it starts and ends with it. *)
Definition strict_isParenthesised (n : NodeId) : bool := (n =? 4)%nat.
Definition strict_isTopLevel (n : NodeId) : bool := (n =? 1)%nat || (n =? 3)%nat.

Fixpoint lastChar (s : string) : option ascii :=
  match s with
  | EmptyString => None
  | String c EmptyString => Some c
  | String _ rest => lastChar rest
  end.

Definition surroundedBy (val : string) (c : ascii) : bool :=
  match val with
  | String a _ =>
      Ascii.eqb a c && match lastChar val with Some z => Ascii.eqb z c | None => false end
  | EmptyString => false
  end.

End Quotes.

(** ** Resolution of a name *)

Module ScopeBuilder.



End ScopeBuilder.

(** ** Well-formed programs

    What the parser and the scope analysis guarantee about the arenas, as
    far as the rules depend on it.  All conditions are decidable, so a
    concrete program is checked by evaluation. *)

Module WellFormed.

Definition validValue (size : nat) (v : Value) : bool :=
  match v with
  | VNode id => id <? size
  | VArr ids => forallb (fun id => id <? size) ids
  | _ => true
  end.

(** Every node a node points at is a node of the program. *)
Definition closedNode (size : nat) (n : Node.t) : bool :=
  match Node.parent n with
  | Some p => p <? size
  | None => true
  end
  && forallb (fun kv => validValue size (snd kv)) (Node.props n).

Definition nodeOrAbsent (v : Value) : bool :=
  match v with
  | VNode _ | VNull | VUndefined => true
  | _ => false
  end.

(** The value of a class member is a node or absent. *)
Definition typedNode (n : Node.t) : bool :=
  if String.eqb (Node.type n) "PropertyDefinition"
  then nodeOrAbsent (prop n "value")
  else true.

Definition wf_ast (sc : SourceCode) : bool :=
  forallb (fun n => closedNode (List.length (ast sc)) n && typedNode n) (ast sc).

(** A scope is stored after the scope that encloses it; its variable scope
    is itself or one of the enclosing scopes; the scope of a class static
    block or of a class field initializer has an enclosing scope, and the
    block of a field initializer scope has a parent (the
    [PropertyDefinition]). *)
Definition wf_scope (sc : SourceCode) (i : nat) (s : Scope.t) : bool :=
  (Scope.variableScope s <=? i)
  && match Scope.upper s with
     | Some u => u <? i
     | None => negb (String.eqb (Scope.type s) "class-static-block"
                     || String.eqb (Scope.type s) "class-field-initializer")
     end
  && (if String.eqb (Scope.type s) "class-field-initializer"
      then match nth_error (ast sc) (Scope.block s) with
           | Some b => match Node.parent b with
                       | Some p => p <? List.length (ast sc)
                       | None => false
                       end
           | None => false
           end
      else true).

Fixpoint wf_scopes_from (sc : SourceCode) (i : nat) (l : list Scope.t) : bool :=
  match l with
  | [] => true
  | s :: rest => wf_scope sc i s && wf_scopes_from sc (S i) rest
  end.

Definition wf_scopes (sc : SourceCode) : bool :=
  wf_scopes_from sc 0 (scopes sc).

(** The scopes a reference names are scopes of the program. *)
Definition wf_reference (sc : SourceCode) (r : Reference.t) : bool :=
  (Reference.from r <? List.length (scopes sc))
  && match Reference.resolved r with
     | Some v => Var.scope v <? List.length (scopes sc)
     | None => true
     end.

End WellFormed.

(** ** What the claims speak about, read off the data *)

Module Reading.

Import NoUseBeforeDefine.

(** [location] lies in the range of node [id]. *)
Definition inRangeOf (sc : SourceCode) (id : NodeId) (location : nat) : Prop :=
  exists n, nth_error (ast sc) id = Some n
            /\ fst (Node.range n) <= location <= snd (Node.range n).

(** Node [r] is the static initializer that class member [mid] holds: the
    member itself when it is a static block, its value when it is a static
    field with a value. *)
Definition staticInitializer (m : Node.t) (mid r : NodeId) : Prop :=
  (Node.type m = "StaticBlock" /\ r = mid)
  \/ (Node.type m = "PropertyDefinition"
      /\ truthy (prop m "static") = true
      /\ prop m "value" = VNode r).

(** [location] lies inside a static initializer of the class whose
    [ClassBody] is [classBody]. *)
Definition inStaticInitializer (sc : SourceCode) (classBody : NodeId) (location : nat)
  : Prop :=
  exists cb members mid m r,
    nth_error (ast sc) classBody = Some cb
    /\ prop cb "body" = VArr members
    /\ In mid members
    /\ nth_error (ast sc) mid = Some m
    /\ staticInitializer m mid r
    /\ inRangeOf sc r location.

(** The range of node [inner] lies within the range of node [outer]. *)
Definition rangeWithin (inner outer : Node.t) : Prop :=
  fst (Node.range outer) <= fst (Node.range inner)
  /\ snd (Node.range inner) <= snd (Node.range outer).

(** The field whose initializer owns scope [vs] is static: [vs.block] is
    the value of a [PropertyDefinition] with a true [static]. *)
Definition staticField (sc : SourceCode) (vs : Scope.t) : Prop :=
  exists b p pd,
    nth_error (ast sc) (Scope.block vs) = Some b
    /\ Node.parent b = Some p
    /\ nth_error (ast sc) p = Some pd
    /\ truthy (prop pd "static") = true.

(** Transparency as C2 states it: every class static block scope and every
    class field initializer scope. *)
Definition transparentAsStated (vs : Scope.t) : Prop :=
  Scope.type vs = "class-static-block"
  \/ Scope.type vs = "class-field-initializer".

(** Transparency restricted to static members: class static block scopes
    and the initializer scopes of static fields. *)
Definition transparentStatic (sc : SourceCode) (vs : Scope.t) : Prop :=
  Scope.type vs = "class-static-block"
  \/ (Scope.type vs = "class-field-initializer" /\ staticField sc vs).

(** The ascent of C2, following the words of the specification: from scope
    [sid], go to its variable scope; stop when that is [target]; otherwise,
    if it is transparent, continue from its [upper]. *)
Inductive Reaches (sc : SourceCode) (transparent : Scope.t -> Prop)
  (target : ScopeId) : ScopeId -> Prop :=
| reach_same sid s :
    nth_error (scopes sc) sid = Some s ->
    Scope.variableScope s = target ->
    Reaches sc transparent target sid
| reach_through sid s vs u :
    nth_error (scopes sc) sid = Some s ->
    Scope.variableScope s <> target ->
    nth_error (scopes sc) (Scope.variableScope s) = Some vs ->
    transparent vs ->
    Scope.upper vs = Some u ->
    Reaches sc transparent target u ->
    Reaches sc transparent target sid.

(** Walking up from [node], a node of a sentinel type is met after [steps]
    other nodes, none of which settles the answer before: none is a
    [VariableDeclarator], and the right operand of each
    [AssignmentPattern] among them does not contain [location]. *)
Inductive CrossesSentinel (sc : SourceCode) (location : nat)
  : option NodeId -> nat -> Prop :=
| crosses_here id n :
    nth_error (ast sc) id = Some n ->
    SENTINEL_TYPE (Node.type n) = true ->
    CrossesSentinel sc location (Some id) 0
| crosses_later id n steps :
    nth_error (ast sc) id = Some n ->
    Node.type n <> "VariableDeclarator" ->
    (Node.type n = "AssignmentPattern" ->
     exists r rn, prop n "right" = VNode r
                  /\ nth_error (ast sc) r = Some rn
                  /\ ~ inRangeOf sc r location) ->
    CrossesSentinel sc location (Node.parent n) steps ->
    CrossesSentinel sc location (Some id) (S steps).



End Reading.

(** ** Further readings of the data, and further programs *)

Module Coverage.

Import NoUseBeforeDefine.

(** Scope [inner] is [outer] or lies below it in the tree of
    [childScopes]. *)
Inductive Descends (sc : SourceCode) : ScopeId -> ScopeId -> Prop :=
| descends_self outer : Descends sc outer outer
| descends_child outer s child inner :
    nth_error (scopes sc) outer = Some s ->
    In child (Scope.childScopes s) ->
    Descends sc child inner ->
    Descends sc outer inner.


(** [location] lies in the range of the node that the property value [v]
    holds. *)
Definition inValue (sc : SourceCode) (v : Value) (location : nat) : Prop :=
  exists id, v = VNode id /\ Reading.inRangeOf sc id location.

(** Node [id] is a type query, or sits below one through [steps]
    identifiers and qualified names. *)
Inductive InTypeQuery (sc : SourceCode) : NodeId -> nat -> Prop :=
| query_here id n :
    nth_error (ast sc) id = Some n ->
    Node.type n = "TSTypeQuery" ->
    InTypeQuery sc id 0
| query_above id n p steps :
    nth_error (ast sc) id = Some n ->
    Node.type n = "TSQualifiedName" \/ Node.type n = "Identifier" ->
    Node.parent n = Some p ->
    InTypeQuery sc p steps ->
    InTypeQuery sc id (S steps).

(** The range of node [outer] encloses the range of node [inner]. *)
Definition encloses (outer inner : Node.t) : Prop :=
  fst (Node.range outer) <= fst (Node.range inner)
  /\ snd (Node.range inner) <= snd (Node.range outer).

(** *** [for (var a in a) {}] *)

Definition forin_a : Var.t := Var.mk "a" 0 [Def.mk "Variable" 4 3].

Definition forin_ast : list Node.t :=
  [ Node.mk "Program" (0, 19) None [("body", VArr [1])];
    Node.mk "ForInStatement" (0, 19) (Some 0)
            [("left", VNode 2); ("right", VNode 5); ("body", VNode 6)];
    Node.mk "VariableDeclaration" (5, 10) (Some 1)
            [("declarations", VArr [3]); ("kind", VStr "var")];
    Node.mk "VariableDeclarator" (9, 10) (Some 2)
            [("id", VNode 4); ("init", VNull)];
    Node.mk "Identifier" (9, 10) (Some 3) [("name", VStr "a")];
    Node.mk "Identifier" (14, 15) (Some 1) [("name", VStr "a")];
    Node.mk "BlockStatement" (17, 19) (Some 1) [("body", VArr [])] ].

Definition forin_write : Reference.t := Reference.mk 4 0 (Some forin_a) true.
Definition forin_read : Reference.t := Reference.mk 5 0 (Some forin_a) false.

Definition forin_program : SourceCode :=
  {| ast := forin_ast;
     scopes :=
       [ Scope.mk "global" 0 None 0 [forin_a] [forin_write; forin_read] [] ] |}.

(** *** [var [a = a] = list;] *)

Definition pattern_a : Var.t := Var.mk "a" 0 [Def.mk "Variable" 5 2].

Definition pattern_ast : list Node.t :=
  [ Node.mk "Program" (0, 19) None [("body", VArr [1])];
    Node.mk "VariableDeclaration" (0, 19) (Some 0)
            [("declarations", VArr [2]); ("kind", VStr "var")];
    Node.mk "VariableDeclarator" (4, 18) (Some 1)
            [("id", VNode 3); ("init", VNode 7)];
    Node.mk "ArrayPattern" (4, 11) (Some 2) [("elements", VArr [4])];
    Node.mk "AssignmentPattern" (5, 10) (Some 3)
            [("left", VNode 5); ("right", VNode 6)];
    Node.mk "Identifier" (5, 6) (Some 4) [("name", VStr "a")];
    Node.mk "Identifier" (9, 10) (Some 4) [("name", VStr "a")];
    Node.mk "Identifier" (14, 18) (Some 2) [("name", VStr "list")] ].

Definition pattern_read : Reference.t := Reference.mk 6 0 (Some pattern_a) false.

Definition pattern_program : SourceCode :=
  {| ast := pattern_ast;
     scopes :=
       [ Scope.mk "global" 0 None 0 [pattern_a]
                  [ pattern_read;
                    Reference.mk 5 0 (Some pattern_a) true;
                    Reference.mk 7 0 None false ] [] ] |}.

(** *** [@d(C) class C {}] *)

Definition decorated_C : Var.t := Var.mk "C" 0 [Def.mk "ClassName" 6 1].

Definition decorated_ast : list Node.t :=
  [ Node.mk "Program" (0, 16) None [("body", VArr [1])];
    Node.mk "ClassDeclaration" (0, 16) (Some 0)
            [("decorators", VArr [2]); ("id", VNode 6); ("superClass", VNull);
             ("body", VNode 7)];
    Node.mk "Decorator" (0, 5) (Some 1) [("expression", VNode 3)];
    Node.mk "CallExpression" (1, 5) (Some 2)
            [("callee", VNode 4); ("arguments", VArr [5])];
    Node.mk "Identifier" (1, 2) (Some 3) [("name", VStr "d")];
    Node.mk "Identifier" (3, 4) (Some 3) [("name", VStr "C")];
    Node.mk "Identifier" (12, 13) (Some 1) [("name", VStr "C")];
    Node.mk "ClassBody" (14, 16) (Some 1) [("body", VArr [])] ].

Definition decorated_ref : Reference.t := Reference.mk 5 0 (Some decorated_C) false.

Definition decorated_program : SourceCode :=
  {| ast := decorated_ast;
     scopes :=
       [ Scope.mk "global" 0 None 0 [decorated_C]
                  [Reference.mk 4 0 None false; decorated_ref] [1];
         Scope.mk "class" 1 (Some 0) 0 [Var.mk "C" 1 [Def.mk "ClassName" 6 1]] [] [] ] |}.

(** *** [f(); function f(){}] *)





(** *** [function g() { return b; } var b = 1;] *)

Definition later_b : Var.t := Var.mk "b" 0 [Def.mk "Variable" 8 7].
Definition later_g : Var.t := Var.mk "g" 0 [Def.mk "FunctionName" 2 1].

Definition later_ast : list Node.t :=
  [ Node.mk "Program" (0, 37) None [("body", VArr [1; 6])];
    Node.mk "FunctionDeclaration" (0, 26) (Some 0)
            [("id", VNode 2); ("params", VArr []); ("body", VNode 3)];
    Node.mk "Identifier" (9, 10) (Some 1) [("name", VStr "g")];
    Node.mk "BlockStatement" (13, 26) (Some 1) [("body", VArr [4])];
    Node.mk "ReturnStatement" (15, 24) (Some 3) [("argument", VNode 5)];
    Node.mk "Identifier" (22, 23) (Some 4) [("name", VStr "b")];
    Node.mk "VariableDeclaration" (27, 37) (Some 0)
            [("declarations", VArr [7]); ("kind", VStr "var")];
    Node.mk "VariableDeclarator" (31, 36) (Some 6)
            [("id", VNode 8); ("init", VNode 9)];
    Node.mk "Identifier" (31, 32) (Some 7) [("name", VStr "b")];
    Node.mk "Literal" (35, 36) (Some 7) [("value", VNum 1); ("raw", VStr "1")] ].

Definition later_read : Reference.t := Reference.mk 5 1 (Some later_b) false.

Definition later_program : SourceCode :=
  {| ast := later_ast;
     scopes :=
       [ Scope.mk "global" 0 None 0 [later_g; later_b]
                  [Reference.mk 8 0 (Some later_b) true] [1];
         Scope.mk "function" 1 (Some 0) 1 [Var.mk "arguments" 1 []] [later_read] [] ] |}.

(** *** [var b = 1; function g() { return b; }] *)

Definition closure_b : Var.t := Var.mk "b" 0 [Def.mk "Variable" 3 2].
Definition closure_g : Var.t := Var.mk "g" 0 [Def.mk "FunctionName" 6 5].

Definition closure_ast : list Node.t :=
  [ Node.mk "Program" (0, 37) None [("body", VArr [1; 5])];
    Node.mk "VariableDeclaration" (0, 10) (Some 0)
            [("declarations", VArr [2]); ("kind", VStr "var")];
    Node.mk "VariableDeclarator" (4, 9) (Some 1)
            [("id", VNode 3); ("init", VNode 4)];
    Node.mk "Identifier" (4, 5) (Some 2) [("name", VStr "b")];
    Node.mk "Literal" (8, 9) (Some 2) [("value", VNum 1); ("raw", VStr "1")];
    Node.mk "FunctionDeclaration" (11, 37) (Some 0)
            [("id", VNode 6); ("params", VArr []); ("body", VNode 7)];
    Node.mk "Identifier" (20, 21) (Some 5) [("name", VStr "g")];
    Node.mk "BlockStatement" (24, 37) (Some 5) [("body", VArr [8])];
    Node.mk "ReturnStatement" (26, 35) (Some 7) [("argument", VNode 9)];
    Node.mk "Identifier" (33, 34) (Some 8) [("name", VStr "b")] ].

Definition closure_read : Reference.t := Reference.mk 9 1 (Some closure_b) false.

Definition closure_program : SourceCode :=
  {| ast := closure_ast;
     scopes :=
       [ Scope.mk "global" 0 None 0 [closure_b; closure_g]
                  [Reference.mk 3 0 (Some closure_b) true] [1];
         Scope.mk "function" 5 (Some 0) 1 [Var.mk "arguments" 1 []] [closure_read] [] ] |}.

End Coverage.

Module CoverageOptions.

Import NoUseBeforeDefine.

(** The options with the checks of variables and classes switched on. *)
Definition withVariablesAndClasses (options : Options) : Options :=
  {| functions := functions options;
     classes := true;
     variables := true;
     allowNamedExports := allowNamedExports options;
     enums := enums options;
     typedefs := typedefs options;
     ignoreTypeReferences := ignoreTypeReferences options |}.

(** The object option [{ variables: false }], completed by the defaults. *)
Definition variablesOff : Options :=
  {| functions := true;
     classes := true;
     variables := false;
     allowNamedExports := false;
     enums := true;
     typedefs := true;
     ignoreTypeReferences := true |}.

End CoverageOptions.

Module CoverageTypes.

Import NoUseBeforeDefine.

(** *** [type T = typeof a; const a = 1;] *)

Definition query_a : Var.t := Var.mk "a" 0 [Def.mk "Variable" 7 6].

Definition query_ast : list Node.t :=
  [ Node.mk "Program" (0, 31) None [("body", VArr [1; 5])];
    Node.mk "TSTypeAliasDeclaration" (0, 18) (Some 0)
            [("id", VNode 2); ("typeAnnotation", VNode 3)];
    Node.mk "Identifier" (5, 6) (Some 1) [("name", VStr "T")];
    Node.mk "TSTypeQuery" (9, 17) (Some 1) [("exprName", VNode 4)];
    Node.mk "Identifier" (16, 17) (Some 3) [("name", VStr "a")];
    Node.mk "VariableDeclaration" (19, 31) (Some 0)
            [("declarations", VArr [6]); ("kind", VStr "const")];
    Node.mk "VariableDeclarator" (25, 30) (Some 5)
            [("id", VNode 7); ("init", VNode 8)];
    Node.mk "Identifier" (25, 26) (Some 6) [("name", VStr "a")];
    Node.mk "Literal" (29, 30) (Some 6) [("value", VNum 1); ("raw", VStr "1")] ].

Definition query_read : Reference.t := Reference.mk 4 0 (Some query_a) false.

Definition query_program : SourceCode :=
  {| ast := query_ast;
     scopes :=
       [ Scope.mk "global" 0 None 0
                  [Var.mk "T" 0 [Def.mk "Type" 2 1]; query_a]
                  [query_read; Reference.mk 7 0 (Some query_a) true] [] ] |}.

(** The object option [{ ignoreTypeReferences: false }], completed by the
    defaults. *)
Definition typeReferencesOn : Options :=
  {| functions := true;
     classes := true;
     variables := true;
     allowNamedExports := false;
     enums := true;
     typedefs := true;
     ignoreTypeReferences := false |}.

End CoverageTypes.

(** ** Readings of quoted text *)

Module QuotesReading.

Import Quotes.

Local Open Scope string_scope.

(** The text [s] is a sequence of escapes, each a backslash with the
    character after it (a carriage return taking a line feed with it), and
    of other characters, none of which [forbidden] rules out.  A backslash
    with nothing after it does not fit. *)
Inductive Escaped (forbidden : ascii -> bool) : string -> Prop :=
| escaped_nil : Escaped forbidden EmptyString
| escaped_plain c s :
    Ascii.eqb c BACKSLASH = false ->
    forbidden c = false ->
    Escaped forbidden s ->
    Escaped forbidden (String c s)
| escaped_pair c s :
    Escaped forbidden s ->
    Escaped forbidden (String BACKSLASH (String c s))
| escaped_crlf s :
    Escaped forbidden s ->
    Escaped forbidden (String BACKSLASH (String CR (String LF s))).

(** No character is ruled out: the only demand is that no backslash
    dangles at the end. *)
Definition anyCharacter (c : ascii) : bool := false.

(** What may not stand outside an escape after a conversion from
    [oldQuote] to [newQuote]: the new quote and, when the text was a
    template literal, a line break. *)
Definition forbiddenAfter (oldQuote newQuote c : ascii) : bool :=
  Ascii.eqb c newQuote
  || (Ascii.eqb oldQuote BACKTICK && (Ascii.eqb c CR || Ascii.eqb c LF)).

(** The text [s] opens no interpolation: outside escapes, no dollar sign
    stands right before an opening brace.  [afterDollar] tells that the
    character before [s] is such a dollar sign. *)
Inductive NoInterpolation : bool -> string -> Prop :=
| closed_nil afterDollar : NoInterpolation afterDollar EmptyString
| closed_plain afterDollar c s :
    Ascii.eqb c BACKSLASH = false ->
    (afterDollar = true -> Ascii.eqb c LBRACE = false) ->
    NoInterpolation (Ascii.eqb c DOLLAR) s ->
    NoInterpolation afterDollar (String c s)
| closed_pair afterDollar c s :
    NoInterpolation false s ->
    NoInterpolation afterDollar (String BACKSLASH (String c s)).

(** [s] without its backslashes. *)
Fixpoint unslashed (s : string) : string :=
  match s with
  | EmptyString => EmptyString
  | String c rest =>
      if Ascii.eqb c BACKSLASH then unslashed rest else String c (unslashed rest)
  end.

(** [s] begins with an opening brace. *)
Definition startsWithBrace (s : string) : bool :=
  match s with
  | String c _ => Ascii.eqb c LBRACE
  | EmptyString => false
  end.

(** A run of [n] backslashes. *)
Fixpoint backslashes (n : nat) : string :=
  match n with
  | 0 => EmptyString
  | S k => String BACKSLASH (backslashes k)
  end.

(** The regular expression of [UNESCAPED_LINEBREAK_PATTERN], read as it is
    written: the start of the text or a character other than a backslash,
    then pairs of backslashes, then a line break. *)
Definition hasUnescapedLinebreak (LINEBREAKS : list ascii) (s : string) : Prop :=
  exists k lb after,
    In lb LINEBREAKS
    /\ (s = backslashes (2 * k) ++ String lb after
        \/ exists before c,
             c <> BACKSLASH
             /\ s = before ++ String c (backslashes (2 * k) ++ String lb after)).

(** The same reading for a text that follows a run of backslashes whose
    length is even or odd as [even] tells: either the text goes on with
    backslashes up to a line break, the whole run being even, or the match
    starts further on. *)
Definition linebreakAhead (LINEBREAKS : list ascii) (even : bool) (s : string) : Prop :=
  (exists k lb after,
      In lb LINEBREAKS /\ Nat.even k = even /\ s = backslashes k ++ String lb after)
  \/ (exists before c k lb after,
         In lb LINEBREAKS /\ c <> BACKSLASH
         /\ s = before ++ String c (backslashes (2 * k) ++ String lb after)).

End QuotesReading.

(** ** Further programs for the quotes rule *)

Module QuotesPrograms.

Import Quotes.

Local Open Scope string_scope.

(** *** A declaration [var s =], followed by the template literal [a] in
    backticks and a semicolon *)

Definition template_ast : list Node.t :=
  [ Node.mk "Program" (0, 12) None [("body", VArr [1])];
    Node.mk "VariableDeclaration" (0, 12) (Some 0)
            [("declarations", VArr [2]); ("kind", VStr "var")];
    Node.mk "VariableDeclarator" (4, 11) (Some 1) [("id", VNode 3); ("init", VNode 4)];
    Node.mk "Identifier" (4, 5) (Some 2) [("name", VStr "s")];
    Node.mk "TemplateLiteral" (8, 11) (Some 2)
            [("expressions", VArr []); ("quasis", VArr [5])];
    Node.mk "TemplateElement" (8, 11) (Some 4)
            [("value.raw", VStr "a"); ("tail", VBool true)] ].

Definition template_program : SourceCode :=
  {| ast := template_ast; scopes := [] |}.

Definition template_getText (n : NodeId) : string :=
  if (n =? 4)%nat then String BACKTICK ("a" ++ str1 BACKTICK) else EmptyString.

End QuotesPrograms.

(** ** Readings of a tree with labels *)

Module NoLabelsReading.

Import NoLabels.

(** What carries a label in a tree, as the problem the rule has for it:
    the jumps with a label where the walk enters them, a labeled statement
    where the walk leaves it. *)
Fixpoint labelled (node : ASTNode) : list Problem :=
  match node with
  | LabeledStatement _ body => labelled body ++ [mkProblem node "unexpectedLabel"]
  | BreakStatement (Some _) => [mkProblem node "unexpectedLabelInBreak"]
  | ContinueStatement (Some _) => [mkProblem node "unexpectedLabelInContinue"]
  | BreakStatement None | ContinueStatement None => []
  | OtherNode _ children =>
      (fix each (l : list ASTNode) : list Problem :=
         match l with
         | [] => []
         | child :: rest => labelled child ++ each rest
         end) children
  end.

Section Options.

Variable isLoop : ASTNode -> bool.
Variables allowLoop allowSwitch : bool.

(** The problems of a tree whose walk starts with [info] in [scopeInfo],
    read off the tree: each label is judged by the kind of the body of the
    labeled statement, each jump by the kind of the innermost enclosing
    statement with its label. *)
Fixpoint expected (info : option ScopeInfo) (node : ASTNode) : list Problem :=
  match node with
  | LabeledStatement label body =>
      let kind := getBodyKind isLoop body in
      expected (Some (mkScopeInfo label kind info)) body
      ++ (if isAllowed allowLoop allowSwitch kind then []
          else [mkProblem node "unexpectedLabel"])
  | BreakStatement (Some name) =>
      if isAllowed allowLoop allowSwitch (getKindFrom info name) then []
      else [mkProblem node "unexpectedLabelInBreak"]
  | ContinueStatement (Some name) =>
      if isAllowed allowLoop allowSwitch (getKindFrom info name) then []
      else [mkProblem node "unexpectedLabelInContinue"]
  | BreakStatement None | ContinueStatement None => []
  | OtherNode _ children =>
      (fix each (l : list ASTNode) : list Problem :=
         match l with
         | [] => []
         | child :: rest => expected info child ++ each rest
         end) children
  end.

(** Every label of the tree sits on a statement of an allowed kind, and
    every jump with a label names a label that encloses it. *)
Fixpoint tame (enclosing : list string) (node : ASTNode) : bool :=
  match node with
  | LabeledStatement label body =>
      isAllowed allowLoop allowSwitch (getBodyKind isLoop body)
      && tame (label :: enclosing) body
  | BreakStatement (Some name) | ContinueStatement (Some name) =>
      existsb (String.eqb name) enclosing
  | BreakStatement None | ContinueStatement None => true
  | OtherNode _ children =>
      (fix each (l : list ASTNode) : bool :=
         match l with
         | [] => true
         | child :: rest => tame enclosing child && each rest
         end) children
  end.

(** Every entry of the list in [scopeInfo] is of an allowed kind. *)
Fixpoint allowedIn (info : ScopeInfo) : bool :=
  match info with
  | mkScopeInfo _ kind upper =>
      isAllowed allowLoop allowSwitch kind
      && match upper with
         | None => true
         | Some info' => allowedIn info'
         end
  end.

Definition allowedFrom (info : option ScopeInfo) : bool :=
  match info with
  | None => true
  | Some i => allowedIn i
  end.

End Options.

(** [a: while (x) { continue a; } switch (x) { default: break; }] *)
Definition loop_label : ASTNode :=
  OtherNode "Program"
    [ LabeledStatement "a"
        (OtherNode "WhileStatement"
           [ OtherNode "Identifier" [];
             OtherNode "BlockStatement" [ContinueStatement (Some "a")] ]);
      OtherNode "SwitchStatement"
        [ OtherNode "Identifier" [];
          OtherNode "SwitchCase" [BreakStatement None] ] ].

End NoLabelsReading.

(** ** no-lonely-if

    The rule reads the source text through slices and [trim], whose notion
    of white space reaches beyond ASCII; a text is therefore a list of code
    units here.  Tokens come from the token store of the [SourceCode] object,
    which is not part of the sources at hand: its queries are parameters of
    the rule, and a query that finds no token returns [null]. *)

Module NoLonelyIf.

Definition Text : Type := list N.

(** The code units of a text of ASCII characters. *)
Definition codes (s : string) : Text := map N_of_ascii (list_ascii_of_string s).

(** [text.slice(a, b)] for indices that are not negative. *)
Definition slice (text : Text) (a b : nat) : Text := firstn (b - a) (skipn a text).

(** White space and line terminators of the language, which [trim]
    removes. *)
Definition isWhiteSpace (c : N) : bool :=
  existsb (N.eqb c)
    [9; 10; 11; 12; 13; 32; 160; 5760; 8232; 8233; 8239; 8287; 12288; 65279]%N
  || (N.leb 8192 c && N.leb c 8202).

Fixpoint trimStart (text : Text) : Text :=
  match text with
  | c :: rest => if isWhiteSpace c then trimStart rest else text
  | [] => []
  end.

Definition trimEnd (text : Text) : Text := rev (trimStart (rev text)).

Definition trim (text : Text) : Text := trimEnd (trimStart text).

(** A text as a condition: the empty text is falsy. *)
Definition nonEmpty (text : Text) : bool :=
  match text with
  | [] => false
  | _ :: _ => true
  end.

(** A token: its text, its range and the line it starts on
    ([loc.start.line]). *)
Record Token : Type := mkToken {
  value : Text;
  range : nat * nat;
  start_line : nat
}.

Definition Text_eqb (a b : Text) : bool :=
  if list_eq_dec N.eq_dec a b then true else false.

(** The regular expression that looks at the first character of the token
    after the block: an opening parenthesis or bracket, a slash, a plus
    sign, a backtick or a minus sign. *)
Definition startsContinuation (v : Text) : bool :=
  match v with
  | c :: _ => existsb (N.eqb c) (codes "([/+`-")
  | [] => false
  end.

(** [fixer.replaceTextRange(range, text)]. *)
Record Edit : Type := mkEdit {
  edit_range : nat * nat;
  edit_text : Text
}.

(** A problem as handed to [context.report]; [fix_] is the value the [fix]
    callback of the descriptor returns ([None] for [null]). *)
Record Problem : Type := mkProblem {
  node : NodeId;
  messageId : string;
  fix_ : option Edit
}.

Section Rule.

Variable sc : SourceCode.

(** [astUtils.areBracesNecessary(node, sourceCode)], from a module that is
    not part of the sources at hand. *)
Variable areBracesNecessary : NodeId -> bool.

(** The token store, and the text of the program and of a node. *)
Variable getFirstToken : NodeId -> option Token.
Variable getLastToken : NodeId -> option Token.
Variable getTokenBefore : Token -> option Token.
Variable getTokenAfter : Token -> option Token.
Variable sourceText : Text.
Variable getText : NodeId -> Text.

(** An object whose properties are read: [null] makes the read throw. *)
Definition required {A : Type} (o : option A) : result A :=
  match o with
  | Some a => Ok a
  | None => Err TypeError
  end.

(** The [fix] callback of the report for [node], whose parent is the block
    [parent].  The token store reads the range of the token it is asked
    about, so asking about [null] throws. *)
Definition fix' (node parent : NodeId) (n : Node.t) : result (option Edit) :=
  let openingElseCurly := getFirstToken parent in
  let closingElseCurly := getLastToken parent in
  opening <- required openingElseCurly ;;
  let elseKeyword := getTokenBefore opening in
  closing <- required closingElseCurly ;;
  let tokenAfterElseBlock := getTokenAfter closing in
  match prop n "consequent" with
  | VNode consequent =>
      let lastIfToken := getLastToken consequent in
      if nonEmpty (trim (slice sourceText (snd (range opening)) (fst (Node.range n))))
         || nonEmpty (trim (slice sourceText (snd (Node.range n)) (fst (range closing))))
      then Ok None
      else
        c <- getNode sc consequent ;;
        unsafe <-
          (if negb (String.eqb (Node.type c) "BlockStatement") then
             last <- required lastIfToken ;;
             if negb (Text_eqb (value last) (codes ";")) then
               match tokenAfterElseBlock with
               | Some after =>
                   match prop c "loc.end.line" with
                   | VNum line =>
                       Ok ((line =? start_line after)
                           || startsContinuation (value after)
                           || Text_eqb (value last) (codes "++")
                           || Text_eqb (value last) (codes "--"))
                   | _ => Err TypeError
                   end
               | None => Ok false
               end
             else Ok false
           else Ok false) ;;
        if unsafe then Ok None
        else
          keyword <- required elseKeyword ;;
          Ok (Some {| edit_range := (fst (range opening), snd (range closing));
                      edit_text :=
                        (if snd (range keyword) =? fst (range opening)
                         then codes " " else [])
                        ++ getText node |})
  | _ => Err TypeError
  end.

(** [parent.body.length === 1]. *)
Definition hasOneElement (v : Value) : result bool :=
  match v with
  | VArr body => Ok (List.length body =? 1)
  | VStr s => Ok (String.length s =? 1)
  | VUndefined | VNull => Err TypeError
  | _ => Ok false
  end.

(** Handler [IfStatement]: the problem it reports, if any. *)
Definition IfStatement (node : NodeId) : result (option Problem) :=
  n <- getNode sc node ;;
  parent <- required (Node.parent n) ;;
  p <- getNode sc parent ;;
  let grandparent := Node.parent p in
  if String.eqb (Node.type p) "BlockStatement" then
    one <- hasOneElement (prop p "body") ;;
    if one && negb (areBracesNecessary parent) then
      match grandparent with
      | Some g =>
          gn <- getNode sc g ;;
          if String.eqb (Node.type gn) "IfStatement"
             && NoUseBeforeDefine.isNode (prop gn "alternate") parent
          then
            f <- fix' node parent n ;;
            Ok (Some {| node := node; messageId := "unexpectedLonelyIf"; fix_ := f |})
          else Ok None
      | None => Ok None
      end
    else Ok None
  else Ok None.

End Rule.

(** *** [if (a) {} else { if (b) {} }] *)

Definition lonely_text : Text := codes "if (a) {} else { if (b) {} }".

Definition lonely_ast : list Node.t :=
  [ Node.mk "Program" (0, 28) None [("body", VArr [1])];
    Node.mk "IfStatement" (0, 28) (Some 0)
            [("test", VNode 2); ("consequent", VNode 3); ("alternate", VNode 4)];
    Node.mk "Identifier" (4, 5) (Some 1) [("name", VStr "a")];
    Node.mk "BlockStatement" (7, 9) (Some 1) [("body", VArr []); ("loc.end.line", VNum 1)];
    Node.mk "BlockStatement" (15, 28) (Some 1) [("body", VArr [5]); ("loc.end.line", VNum 1)];
    Node.mk "IfStatement" (17, 26) (Some 4)
            [("test", VNode 6); ("consequent", VNode 7); ("alternate", VNull)];
    Node.mk "Identifier" (21, 22) (Some 5) [("name", VStr "b")];
    Node.mk "BlockStatement" (24, 26) (Some 5) [("body", VArr []); ("loc.end.line", VNum 1)] ].

Definition lonely_program : SourceCode :=
  {| ast := lonely_ast; scopes := [] |}.

(** The token that covers a range of [lonely_text]. *)
Definition lonely_token (a b : nat) : Token :=
  {| value := slice lonely_text a b; range := (a, b); start_line := 1 |}.

(** The tokens of the program, by range, in order. *)
Definition lonely_tokens : list Token :=
  map (fun r => lonely_token (fst r) (snd r))
    [(0, 2); (3, 4); (4, 5); (5, 6); (7, 8); (8, 9); (10, 14); (15, 16); (17, 19);
     (20, 21); (21, 22); (22, 23); (24, 25); (25, 26); (27, 28)].

Definition lonely_getFirstToken (n : NodeId) : option Token :=
  match nth_error lonely_ast n with
  | Some node =>
      find (fun t => fst (range t) =? fst (Node.range node)) lonely_tokens
  | None => None
  end.

Definition lonely_getLastToken (n : NodeId) : option Token :=
  match nth_error lonely_ast n with
  | Some node =>
      find (fun t => snd (range t) =? snd (Node.range node)) lonely_tokens
  | None => None
  end.

Definition lonely_getTokenBefore (t : Token) : option Token :=
  find (fun u => snd (range u) <=? fst (range t)) (rev lonely_tokens).

Definition lonely_getTokenAfter (t : Token) : option Token :=
  find (fun u => snd (range t) <=? fst (range u)) lonely_tokens.

Definition lonely_getText (n : NodeId) : Text :=
  match nth_error lonely_ast n with
  | Some node => slice lonely_text (fst (Node.range node)) (snd (Node.range node))
  | None => []
  end.

End NoLonelyIf.

(** ** Qualified names, and a program with one *)

Module CoverageNames.

Import NoUseBeforeDefine.

(** Following [left] from node [q] through [steps] qualified names ends at
    node [id], which is no qualified name. *)
Inductive LeftEnd (sc : SourceCode) : NodeId -> nat -> NodeId -> Prop :=
| left_end id n :
    nth_error (ast sc) id = Some n ->
    Node.type n <> "TSQualifiedName" ->
    LeftEnd sc id 0 id
| left_step q n q' steps id :
    nth_error (ast sc) q = Some n ->
    Node.type n = "TSQualifiedName" ->
    prop n "left" = VNode q' ->
    LeftEnd sc q' steps id ->
    LeftEnd sc q (S steps) id.

(** *** [type T = A.B; namespace A {}] *)

Definition names_A : Var.t := Var.mk "A" 0 [Def.mk "TSModuleName" 8 7].

Definition names_ast : list Node.t :=
  [ Node.mk "Program" (0, 28) None [("body", VArr [1; 7])];
    Node.mk "TSTypeAliasDeclaration" (0, 13) (Some 0)
            [("id", VNode 2); ("typeAnnotation", VNode 3)];
    Node.mk "Identifier" (5, 6) (Some 1) [("name", VStr "T")];
    Node.mk "TSTypeReference" (9, 12) (Some 1) [("typeName", VNode 4)];
    Node.mk "TSQualifiedName" (9, 12) (Some 3) [("left", VNode 5); ("right", VNode 6)];
    Node.mk "Identifier" (9, 10) (Some 4) [("name", VStr "A")];
    Node.mk "Identifier" (11, 12) (Some 4) [("name", VStr "B")];
    Node.mk "TSModuleDeclaration" (14, 28) (Some 0) [("id", VNode 8); ("body", VNode 9)];
    Node.mk "Identifier" (24, 25) (Some 7) [("name", VStr "A")];
    Node.mk "TSModuleBlock" (26, 28) (Some 7) [("body", VArr [])] ].

(** The reference the scope analysis makes for [A], and a reference at
    [B], which it does not make. *)
Definition names_left : Reference.t := Reference.mk 5 0 (Some names_A) false.
Definition names_right : Reference.t := Reference.mk 6 0 (Some names_A) false.

Definition names_program : SourceCode :=
  {| ast := names_ast;
     scopes :=
       [ Scope.mk "global" 0 None 0
                  [Var.mk "T" 0 [Def.mk "Type" 2 1]; names_A]
                  [names_left] [] ] |}.

End CoverageNames.

(** ** A program with a quoted property name *)

Module QuotesNames.

Import Quotes.

Local Open Scope string_scope.

(** *** An object in parentheses with the property [a], its name in
    double quotes, and the value [1] *)

Definition key_ast : list Node.t :=
  [ Node.mk "Program" (0, 11) None [("body", VArr [1])];
    Node.mk "ExpressionStatement" (0, 11) (Some 0) [("expression", VNode 2)];
    Node.mk "ObjectExpression" (1, 9) (Some 1) [("properties", VArr [3])];
    Node.mk "Property" (2, 8) (Some 2)
            [("key", VNode 4); ("value", VNode 5); ("computed", VBool false);
             ("kind", VStr "init")];
    Node.mk "Literal" (2, 5) (Some 3)
            [("value", VStr "a");
             ("raw", VStr (String DQUOTE ("a" ++ str1 DQUOTE)))];
    Node.mk "Literal" (7, 8) (Some 3) [("value", VNum 1); ("raw", VStr "1")] ].

Definition key_program : SourceCode :=
  {| ast := key_ast; scopes := [] |}.

End QuotesNames.

(** ** Facts about the embedding *)

Import NoUseBeforeDefine WellFormed Reading.

(** Feeds the hypotheses of [H] one by one, each proved by evaluation. *)
Ltac discharge H :=
  repeat match type of H with
         | ?A -> _ =>
             let h := fresh "h" in
             assert (h : A)
               by first [ reflexivity
                        | simpl; lia
                        | split; simpl; lia
                        | discriminate ];
             specialize (H h); clear h
         end.

Lemma bind_ok {A B : Type} (m : result A) (k : A -> result B) (b : B) :
  bind m k = Ok b -> exists a, m = Ok a /\ k a = Ok b.
Proof.
  destruct m as [a|e]; simpl; intros H; [eauto | discriminate].
Qed.

Lemma getNode_Some sc id n :
  nth_error (ast sc) id = Some n -> getNode sc id = Ok n.
Proof. unfold getNode; intros ->; reflexivity. Qed.

Lemma getNode_Ok sc id n :
  getNode sc id = Ok n -> nth_error (ast sc) id = Some n.
Proof.
  unfold getNode; destruct (nth_error (ast sc) id); intros H;
    [injection H as -> | discriminate]; reflexivity.
Qed.

Lemma getNode_valid sc id :
  id < List.length (ast sc) -> exists n, getNode sc id = Ok n.
Proof.
  intros H. unfold getNode.
  destruct (nth_error (ast sc) id) eqn:E; [eauto|].
  apply nth_error_None in E; lia.
Qed.

Lemma getScope_Some sc id s :
  nth_error (scopes sc) id = Some s -> getScope sc id = Ok s.
Proof. unfold getScope; intros ->; reflexivity. Qed.

Lemma assoc_valid size k l :
  forallb (fun kv => validValue size (snd kv)) l = true ->
  validValue size (assoc k l) = true.
Proof.
  induction l as [|[k' v] l IH]; simpl; intros H; [reflexivity|].
  apply andb_true_iff in H as [Hv Hl].
  destruct (String.eqb k k'); auto.
Qed.

Lemma wf_ast_node sc id n :
  wf_ast sc = true -> nth_error (ast sc) id = Some n ->
  closedNode (List.length (ast sc)) n = true /\ typedNode n = true.
Proof.
  unfold wf_ast; intros H E.
  rewrite forallb_forall in H.
  apply andb_true_iff, H. eapply nth_error_In; eauto.
Qed.

Lemma wf_ast_prop sc id n k :
  wf_ast sc = true -> nth_error (ast sc) id = Some n ->
  validValue (List.length (ast sc)) (prop n k) = true.
Proof.
  intros H E. destruct (wf_ast_node _ _ _ H E) as [Hc _].
  apply andb_true_iff in Hc as [_ Hp]. now apply assoc_valid.
Qed.

Lemma isInRange_node sc id n location :
  nth_error (ast sc) id = Some n ->
  isInRange sc (VNode id) location
  = Ok ((fst (Node.range n) <=? location) && (location <=? snd (Node.range n))).
Proof. intros E; simpl. rewrite (getNode_Some _ _ _ E). reflexivity. Qed.

Lemma isInRange_true sc id location :
  isInRange sc (VNode id) location = Ok true <-> inRangeOf sc id location.
Proof.
  unfold inRangeOf; simpl; unfold getNode.
  destruct (nth_error (ast sc) id) as [n|]; simpl; split.
  - intros H; injection H as H. apply andb_true_iff in H as [H1 H2].
    apply Nat.leb_le in H1, H2. eauto.
  - intros (n' & E & H1 & H2); injection E as <-.
    f_equal. apply andb_true_iff; split; apply Nat.leb_le; assumption.
  - discriminate.
  - intros (n' & E & _); discriminate.
Qed.

(** The callback of [some] in [isInClassStaticInitializerRange] returns, and
    answers whether the member holds a static initializer around
    [location]. *)
Lemma classMember_decides sc location mid m :
  wf_ast sc = true -> nth_error (ast sc) mid = Some m ->
  exists b,
    (inBlock <-
       (if String.eqb (Node.type m) "StaticBlock"
        then isInRange sc (VNode mid) location
        else Ok false) ;;
     if inBlock then Ok true
     else if String.eqb (Node.type m) "PropertyDefinition"
             && truthy (prop m "static")
             && truthy (prop m "value")
          then isInRange sc (prop m "value") location
          else Ok false) = Ok b
    /\ (b = true <-> exists r, staticInitializer m mid r /\ inRangeOf sc r location).
Proof.
  intros Hwf E.
  destruct (wf_ast_node _ _ _ Hwf E) as [_ Htyped].
  pose proof (wf_ast_prop _ _ _ "value" Hwf E) as Hvalue.
  unfold typedNode in Htyped.
  destruct (String.eqb_spec (Node.type m) "StaticBlock") as [Hsb|Hsb].
  - (* static block *)
    rewrite (isInRange_node _ _ _ _ E). simpl.
    destruct ((fst (Node.range m) <=? location) && (location <=? snd (Node.range m))) eqn:R.
    + exists true; split; [reflexivity|]. split; [intros _|reflexivity].
      exists mid; split; [left; auto|].
      apply isInRange_true. rewrite (isInRange_node _ _ _ _ E), R; reflexivity.
    + rewrite Hsb; simpl. exists false; split; [reflexivity|].
      split; [discriminate|]. intros (r & [[_ ->]|[Ht _]] & Hr).
      * apply isInRange_true in Hr. rewrite (isInRange_node _ _ _ _ E), R in Hr.
        discriminate.
      * rewrite Hsb in Ht; discriminate.
  - simpl.
    destruct (String.eqb_spec (Node.type m) "PropertyDefinition") as [Hpd|Hpd]; simpl.
    + destruct (truthy (prop m "static")) eqn:Hst; simpl.
      * destruct (prop m "value") as [| | | | |v|] eqn:Hv; simpl in *;
          try discriminate;
          try (exists false; split; [reflexivity|]; split; [discriminate|];
               intros (r & [[Ht _]|(_ & _ & Hr)] & _); congruence).
        apply Nat.ltb_lt in Hvalue.
        destruct (getNode_valid _ _ Hvalue) as [vn Hvn].
        apply getNode_Ok in Hvn.
        pose proof (isInRange_node sc v vn location Hvn) as Hin. simpl in Hin.
        rewrite Hin.
        destruct ((fst (Node.range vn) <=? location) && (location <=? snd (Node.range vn))) eqn:R.
        -- exists true; split; [reflexivity|]. split; [intros _|reflexivity].
           exists v; split; [right; auto|].
           apply isInRange_true. rewrite (isInRange_node _ _ _ _ Hvn), R; reflexivity.
        -- exists false; split; [reflexivity|]. split; [discriminate|].
           intros (r & [[Ht _]|(_ & _ & Hr)] & Hin'); [congruence|].
           rewrite Hv in Hr; injection Hr as <-.
           apply isInRange_true in Hin'.
           rewrite (isInRange_node _ _ _ _ Hvn), R in Hin'. discriminate.
      * exists false; split; [reflexivity|]. split; [discriminate|].
        intros (r & [[Ht _]|(_ & Hs & _)] & _); congruence.
    + exists false; split; [reflexivity|]. split; [discriminate|].
      intros (r & [[Ht _]|(Ht & _)] & _); congruence.
Qed.

Lemma some_decides {A : Type} (f : A -> result bool) (P : A -> Prop) (l : list A) :
  (forall x, In x l -> exists b, f x = Ok b /\ (b = true <-> P x)) ->
  exists b, some f l = Ok b /\ (b = true <-> exists x, In x l /\ P x).
Proof.
  induction l as [|x l IH]; intros H; simpl.
  - exists false; split; [reflexivity|]. split; [discriminate|].
    intros (x & [] & _).
  - destruct (H x (or_introl eq_refl)) as (b & -> & Hb); simpl.
    destruct b.
    + exists true; split; [reflexivity|]. split; [intros _|reflexivity].
      exists x; split; [now left | now apply Hb].
    + destruct IH as (b' & -> & Hb'); [intros y Hy; apply H; now right|].
      exists b'; split; [reflexivity|]. rewrite Hb'. split.
      * intros (y & Hy & Py); exists y; split; [now right | assumption].
      * intros (y & [<-|Hy] & Py); [|eauto].
        apply Hb in Py; discriminate.
Qed.

Lemma isInClassStaticInitializerRange_decides sc body cb members location :
  wf_ast sc = true ->
  nth_error (ast sc) body = Some cb ->
  prop cb "body" = VArr members ->
  exists b, isInClassStaticInitializerRange sc (VNode body) location = Ok b
            /\ (b = true <-> inStaticInitializer sc body location).
Proof.
  intros Hwf Ecb Hmembers.
  unfold isInClassStaticInitializerRange.
  rewrite (getNode_Some _ _ _ Ecb); cbn [bind]. rewrite Hmembers.
  pose proof (wf_ast_prop _ _ _ "body" Hwf Ecb) as Hvalid.
  rewrite Hmembers in Hvalid; simpl in Hvalid. rewrite forallb_forall in Hvalid.
  match goal with
  | |- exists b, some ?f _ = _ /\ _ =>
      destruct (some_decides f
                  (fun mid => exists m r, nth_error (ast sc) mid = Some m
                                          /\ staticInitializer m mid r
                                          /\ inRangeOf sc r location)
                  members) as (b & Hb & Hiff)
  end.
  - intros mid Hmid. apply Hvalid, Nat.ltb_lt in Hmid.
    destruct (getNode_valid _ _ Hmid) as [m Hm]. rewrite Hm; cbn [bind].
    apply getNode_Ok in Hm.
    destruct (classMember_decides sc location mid m Hwf Hm) as (b & Hb & Hiff).
    exists b; split; [exact Hb|]. rewrite Hiff. split.
    + intros (r & Hs & Hr); eauto.
    + intros (m' & r & Em & Hs & Hr). rewrite Hm in Em; injection Em as <-. eauto.
  - exists b; split; [exact Hb|]. rewrite Hiff. unfold inStaticInitializer. split.
    + intros (mid & Hmid & m & r & Em & Hs & Hr).
      exists cb, members, mid, m, r; auto 10.
    + intros (cb' & members' & mid & m & r & Ecb' & Hm' & Hmid & Em & Hs & Hr).
      rewrite Ecb in Ecb'; injection Ecb' as <-.
      rewrite Hmembers in Hm'; injection Hm' as <-. eauto 10.
Qed.

(** *** The scope ascent returns on well-formed scopes *)

Lemma wf_scopes_from_nth sc i l k s :
  wf_scopes_from sc i l = true -> nth_error l k = Some s ->
  wf_scope sc (i + k) s = true.
Proof.
  revert i k; induction l as [|x l IH]; intros i k H E.
  - destruct k; discriminate.
  - simpl in H. apply andb_true_iff in H as [Hx Hl].
    destruct k as [|k]; simpl in E.
    + injection E as <-. now rewrite Nat.add_0_r.
    + rewrite <- Nat.add_succ_comm. now apply IH.
Qed.

Lemma wf_scopes_nth sc k s :
  wf_scopes sc = true -> nth_error (scopes sc) k = Some s -> wf_scope sc k s = true.
Proof. intros H E. exact (wf_scopes_from_nth sc 0 _ k s H E). Qed.

Lemma getScope_valid sc id :
  id < List.length (scopes sc) -> exists s, nth_error (scopes sc) id = Some s.
Proof.
  intros H. destruct (nth_error (scopes sc) id) eqn:E; [eauto|].
  apply nth_error_None in E; lia.
Qed.

Lemma isClassStaticInitializerScope_total sc k vs :
  wf_scopes sc = true -> nth_error (scopes sc) k = Some vs ->
  exists b, isClassStaticInitializerScope sc vs = Ok b.
Proof.
  intros Hwf E. pose proof (wf_scopes_nth _ _ _ Hwf E) as H.
  unfold wf_scope in H. apply andb_true_iff in H as [_ H].
  unfold isClassStaticInitializerScope.
  destruct (String.eqb (Scope.type vs) "class-static-block"); [eauto|].
  destruct (String.eqb (Scope.type vs) "class-field-initializer"); [|eauto].
  unfold parentOf, getNode.
  destruct (nth_error (ast sc) (Scope.block vs)) as [b|]; [|discriminate]; simpl.
  destruct (Node.parent b) as [p|]; [|discriminate].
  apply Nat.ltb_lt in H. destruct (getNode_valid _ _ H) as [pd Hpd].
  unfold getNode in Hpd. destruct (nth_error (ast sc) p); [|discriminate].
  simpl; eauto.
Qed.

Lemma ascend_total sc target :
  wf_scopes sc = true ->
  forall sid fuel, sid < List.length (scopes sc) -> sid < fuel ->
  exists b, ascend sc fuel target (Some sid) = Ok b.
Proof.
  intros Hwf sid. induction sid as [sid IH] using lt_wf_ind.
  intros fuel Hsid Hfuel.
  destruct fuel as [|fuel]; [lia|]. simpl.
  destruct (getScope_valid _ _ Hsid) as [s Es].
  rewrite (getScope_Some _ _ _ Es); simpl.
  destruct (target =? Scope.variableScope s); [eauto|].
  pose proof (wf_scopes_nth _ _ _ Hwf Es) as Hs.
  unfold wf_scope in Hs. apply andb_true_iff in Hs as [Hs _].
  apply andb_true_iff in Hs as [Hvs _]. apply Nat.leb_le in Hvs.
  destruct (getScope_valid sc (Scope.variableScope s)) as [vs Evs]; [lia|].
  rewrite (getScope_Some _ _ _ Evs); simpl.
  destruct (isClassStaticInitializerScope_total _ _ _ Hwf Evs) as [b Hb].
  rewrite Hb; simpl. destruct b; [|eauto].
  pose proof (wf_scopes_nth _ _ _ Hwf Evs) as Hv.
  unfold wf_scope in Hv. apply andb_true_iff in Hv as [Hv _].
  apply andb_true_iff in Hv as [_ Hup].
  unfold isClassStaticInitializerScope in Hb.
  destruct (Scope.upper vs) as [u|].
  - apply Nat.ltb_lt in Hup. apply IH; lia.
  - exfalso.
    destruct (String.eqb (Scope.type vs) "class-static-block"); [discriminate|].
    destruct (String.eqb (Scope.type vs) "class-field-initializer"); discriminate.
Qed.

Lemma isFromSeparateExecutionContext_total sc fuel reference variable :
  wf_scopes sc = true -> wf_reference sc reference = true ->
  Reference.resolved reference = Some variable ->
  Reference.from reference < fuel ->
  exists b, isFromSeparateExecutionContext sc fuel reference = Ok b.
Proof.
  intros Hwf Hr Hv Hfuel. unfold isFromSeparateExecutionContext.
  unfold wf_reference in Hr. rewrite Hv in *.
  apply andb_true_iff in Hr as [Hfrom Hscope].
  apply Nat.ltb_lt in Hfrom, Hscope.
  destruct (getScope_valid _ _ Hscope) as [vs Evs].
  rewrite (getScope_Some _ _ _ Evs); simpl.
  now apply ascend_total.
Qed.

(** ** no-use-before-define: the claims *)

(** C1, as stated, fails for a reference that sits in a method of the class:
    in [class C { m() { C; } }] the end of the identifier [C] of the method
    body lies inside the class body and the class has no static initializer
    at all, yet [isEvaluatedDuringInitialization] answers [false], because
    the method body is a separate execution context. *)
Lemma C1_counterexample_method_body :
  Reference.resolved Programs.method_C_ref = Some Programs.class_C_inner
  /\ Var.defs Programs.class_C_inner = [Def.mk "ClassName" 2 1]
  /\ inRangeOf Programs.method_C_program 3 17
  /\ ~ inStaticInitializer Programs.method_C_program 3 17
  /\ isFromSeparateExecutionContext Programs.method_C_program 3 Programs.method_C_ref
     = Ok true
  /\ isEvaluatedDuringInitialization Programs.method_C_program 3 Programs.method_C_ref
     = Ok false.
Proof.
  split; [reflexivity|]. split; [reflexivity|]. split; [|split; [|split; reflexivity]].
  - eexists; split; [reflexivity|]. simpl; lia.
  - intros (cb & members & mid & m & r & Ecb & Hm & Hmid & Em & Hs & _).
    injection Ecb as <-. injection Hm as <-.
    destruct Hmid as [<-|[]]. injection Em as <-.
    destruct Hs as [[Ht _]|[Ht _]]; discriminate.
Qed.

(** C1 (amended).  Let a reference resolve to a variable whose first
    definition is a [ClassName], and let the end of its identifier be the
    location.  If the location lies inside a static initializer of that
    class, [isEvaluatedDuringInitialization] returns [false].  If the
    reference is not from a separate execution context and the location
    lies inside the class body but outside every static initializer, it
    returns [true].  For [class C { static foo = 1; static { bar = C; } }]
    the reference to [C] in the static block is not evaluated during
    initialization and the rule reports nothing. *)
Theorem C1_class_static_initializers
  sc fuel reference variable definition rest ident classNode bodyId bodyNode members :
  wf_ast sc = true ->
  wf_scopes sc = true ->
  wf_reference sc reference = true ->
  Reference.from reference < fuel ->
  Reference.resolved reference = Some variable ->
  Var.defs variable = definition :: rest ->
  Def.type definition = "ClassName" ->
  nth_error (ast sc) (Reference.identifier reference) = Some ident ->
  nth_error (ast sc) (Def.node definition) = Some classNode ->
  prop classNode "body" = VNode bodyId ->
  nth_error (ast sc) bodyId = Some bodyNode ->
  prop bodyNode "body" = VArr members ->
  rangeWithin bodyNode classNode ->
  (inStaticInitializer sc bodyId (snd (Node.range ident)) ->
   isEvaluatedDuringInitialization sc fuel reference = Ok false)
  /\ (isFromSeparateExecutionContext sc fuel reference = Ok false ->
      inRangeOf sc bodyId (snd (Node.range ident)) ->
      ~ inStaticInitializer sc bodyId (snd (Node.range ident)) ->
      isEvaluatedDuringInitialization sc fuel reference = Ok true)
  /\ (forall fuel' depth, 4 <= fuel' -> 3 <= depth ->
      isEvaluatedDuringInitialization Programs.static_C_program fuel' Programs.static_C_ref
      = Ok false
      /\ usedBeforeDefined Programs.static_C_program fuel' Programs.static_C_ref
         = Ok false
      /\ Program Programs.static_C_program Programs.defaults fuel' depth 0 = Ok []).
Proof.
  intros Hast Hscopes Href Hfuel Hres Hdefs Htype Eident Eclass Hbody Ebody
         Hmembers Hwithin.
  destruct (isInClassStaticInitializerRange_decides
              sc bodyId bodyNode members (snd (Node.range ident)) Hast Ebody Hmembers)
    as (inStatic & HinStatic & Hiff).
  assert (Hunfold : forall separate,
             isFromSeparateExecutionContext sc fuel reference = Ok separate ->
             isEvaluatedDuringInitialization sc fuel reference
             = if separate then Ok false
               else if (fst (Node.range classNode) <=? snd (Node.range ident))
                       && (snd (Node.range ident) <=? snd (Node.range classNode))
                    then Ok (negb inStatic) else Ok false).
  { intros separate Hsep. unfold isEvaluatedDuringInitialization.
    rewrite Hsep; cbn [bind]. destruct separate; [reflexivity|].
    rewrite (getNode_Some _ _ _ Eident); cbn [bind].
    rewrite Hres, Hdefs, Htype. cbn [String.eqb Ascii.eqb Bool.eqb].
    rewrite (isInRange_node _ _ _ _ Eclass); cbn [bind].
    destruct (_ && _); [|reflexivity].
    rewrite (getNode_Some _ _ _ Eclass); cbn [bind].
    rewrite Hbody, HinStatic. reflexivity. }
  split; [|split].
  - intros Hin.
    destruct (isFromSeparateExecutionContext_total
                sc fuel reference variable Hscopes Href Hres Hfuel) as [separate Hsep].
    rewrite (Hunfold _ Hsep). destruct separate; [reflexivity|].
    apply Hiff in Hin; subst inStatic. now destruct (_ && _).
  - intros Hsep (bn & Ebn & Hlo & Hhi) Hout.
    rewrite Ebody in Ebn; injection Ebn as <-.
    rewrite (Hunfold _ Hsep). destruct Hwithin as [Hw1 Hw2].
    replace (_ && _) with true
      by (symmetry; apply andb_true_iff; split; apply Nat.leb_le; lia).
    destruct inStatic; [|reflexivity].
    exfalso; apply Hout, Hiff; reflexivity.
  - intros fuel' depth Hf Hd.
    do 4 (destruct fuel' as [|fuel']; [lia|]).
    do 3 (destruct depth as [|depth]; [lia|]).
    repeat split; reflexivity.
Qed.

(** C1 at work: the reference in the static block of
    [class C { static foo = 1; static { bar = C; } }], and the reference in
    the computed key of [class C { [C]; }]. *)
Lemma C1_witness_static_block_and_computed_key :
  isEvaluatedDuringInitialization Programs.static_C_program 4 Programs.static_C_ref
  = Ok false
  /\ isEvaluatedDuringInitialization Programs.computed_C_program 2 Programs.computed_C_ref
     = Ok true.
Proof.
  split.
  - pose proof (C1_class_static_initializers
                  Programs.static_C_program 4 Programs.static_C_ref
                  Programs.class_C_inner (Def.mk "ClassName" 2 1) []
                  (Programs.nodeAt Programs.static_C_program 11)
                  (Programs.nodeAt Programs.static_C_program 1) 3
                  (Programs.nodeAt Programs.static_C_program 3) [4; 7]) as H.
    discharge H. destruct H as (H & _ & _). apply H.
    exists (Programs.nodeAt Programs.static_C_program 3), [4; 7], 7,
      (Programs.nodeAt Programs.static_C_program 7), 7.
    repeat (split; [first [reflexivity | simpl; tauto | left; split; reflexivity]|]).
    eexists; split; [reflexivity|]. simpl; lia.
  - pose proof (C1_class_static_initializers
                  Programs.computed_C_program 2 Programs.computed_C_ref
                  Programs.class_C_inner (Def.mk "ClassName" 2 1) []
                  (Programs.nodeAt Programs.computed_C_program 5)
                  (Programs.nodeAt Programs.computed_C_program 1) 3
                  (Programs.nodeAt Programs.computed_C_program 3) [4]) as H.
    discharge H. destruct H as (_ & H & _). apply H.
    + reflexivity.
    + eexists; split; [reflexivity|]. simpl; lia.
    + intros (cb & members & mid & m & r & Ecb & Hm & Hmid & Em & Hs & _).
      injection Ecb as <-. injection Hm as <-.
      destruct Hmid as [<-|[]]. injection Em as <-.
      destruct Hs as [[Ht _]|(_ & Hst & _)]; discriminate.
Defined.

Lemma isClassStaticInitializerScope_true sc vs :
  isClassStaticInitializerScope sc vs = Ok true <-> transparentStatic sc vs.
Proof.
  unfold isClassStaticInitializerScope, transparentStatic, staticField.
  destruct (String.eqb_spec (Scope.type vs) "class-static-block") as [Hb|Hb].
  - split; auto.
  - destruct (String.eqb_spec (Scope.type vs) "class-field-initializer") as [Hf|Hf].
    + unfold parentOf, getNode. split.
      * intros H. right; split; [assumption|].
        destruct (nth_error (ast sc) (Scope.block vs)) as [b|]; [|discriminate].
        cbn [bind] in H. destruct (Node.parent b) as [p|] eqn:Ep; [|discriminate].
        destruct (nth_error (ast sc) p) as [pd|] eqn:Epd; [|discriminate].
        cbn [bind] in H. injection H as H. exists b, p, pd; auto.
      * intros [H|(_ & b & p & pd & -> & Hp & Epd & Hs)]; [contradiction|].
        cbn [bind]. rewrite Hp, Epd. cbn [bind]. now rewrite Hs.
    + split; [discriminate|]. intros [H|[H _]]; contradiction.
Qed.

Lemma ascend_reaches sc target :
  wf_scopes sc = true ->
  forall sid fuel, sid < List.length (scopes sc) -> sid < fuel ->
  (ascend sc fuel target (Some sid) = Ok false
   <-> Reaches sc (transparentStatic sc) target sid).
Proof.
  intros Hwf sid. induction sid as [sid IH] using lt_wf_ind.
  intros fuel Hsid Hfuel.
  destruct fuel as [|fuel]; [lia|]. cbn [ascend].
  destruct (getScope_valid _ _ Hsid) as [s Es].
  rewrite (getScope_Some _ _ _ Es); cbn [bind].
  destruct (Nat.eqb_spec target (Scope.variableScope s)) as [Heq|Hne].
  - split; [intros _|reflexivity]. eapply reach_same; eauto.
  - pose proof (wf_scopes_nth _ _ _ Hwf Es) as Hs.
    unfold wf_scope in Hs. apply andb_true_iff in Hs as [Hs _].
    apply andb_true_iff in Hs as [Hvs _]. apply Nat.leb_le in Hvs.
    destruct (getScope_valid sc (Scope.variableScope s)) as [vs Evs]; [lia|].
    rewrite (getScope_Some _ _ _ Evs); cbn [bind].
    destruct (isClassStaticInitializerScope_total _ _ _ Hwf Evs) as [b Hb].
    rewrite Hb; cbn [bind].
    assert (Hinv : Reaches sc (transparentStatic sc) target sid ->
                   transparentStatic sc vs
                   /\ exists u, Scope.upper vs = Some u
                                /\ Reaches sc (transparentStatic sc) target u).
    { intros HR. inversion HR as [sid' s' Es' Ht|sid' s' vs' u Es' Hn Evs' Htr Hup HR'];
        subst; rewrite Es in Es'; injection Es' as <-.
      - congruence.
      - rewrite Evs in Evs'; injection Evs' as <-. eauto. }
    destruct b.
    + pose proof (proj1 (isClassStaticInitializerScope_true sc vs) Hb) as Htr.
      pose proof (wf_scopes_nth _ _ _ Hwf Evs) as Hv.
      unfold wf_scope in Hv. apply andb_true_iff in Hv as [Hv _].
      apply andb_true_iff in Hv as [_ Hup].
      destruct (Scope.upper vs) as [u|] eqn:Eu.
      * apply Nat.ltb_lt in Hup.
        rewrite (IH u) by lia. split.
        -- intros HR. eapply reach_through; eauto.
        -- intros HR. destruct (Hinv HR) as (_ & u' & Eu' & HR').
           now injection Eu' as <-.
      * split.
        -- destruct fuel; discriminate.
        -- intros HR. destruct (Hinv HR) as (_ & u' & Eu' & _). discriminate.
    + split; [discriminate|].
      intros HR. destruct (Hinv HR) as (Htr & _).
      apply isClassStaticInitializerScope_true in Htr. congruence.
Qed.

(** C2, as stated, fails for the initializer of a field that is not static:
    in [const C = class { x = C; };] the reference to [C] sits in a class
    field initializer scope whose [upper], the class scope, has the variable
    scope of the binding; the ascent of the claim reaches it, yet
    [isFromSeparateExecutionContext] answers [true]. *)
Lemma C2_counterexample_instance_field :
  Reference.resolved Programs.field_C_ref = Some Programs.const_C
  /\ Reaches Programs.field_C_program transparentAsStated 0 2
  /\ isFromSeparateExecutionContext Programs.field_C_program 3 Programs.field_C_ref
     = Ok true.
Proof.
  split; [reflexivity|]. split; [|reflexivity].
  eapply reach_through with (u := 1); try reflexivity.
  - discriminate.
  - right; reflexivity.
  - eapply reach_same; reflexivity.
Qed.

(** C2 (amended).  For a reference with a resolved variable,
    [isFromSeparateExecutionContext] returns, and it returns [false] if and
    only if ascending from the scope of the reference through enclosing
    variable scopes, treating every class static block scope and every
    initializer scope of a static class field as transparent, reaches the
    variable scope of the binding; otherwise it returns [true]. *)
Theorem C2_separate_execution_context sc fuel reference variable binding :
  wf_scopes sc = true ->
  wf_reference sc reference = true ->
  Reference.from reference < fuel ->
  Reference.resolved reference = Some variable ->
  nth_error (scopes sc) (Var.scope variable) = Some binding ->
  (isFromSeparateExecutionContext sc fuel reference = Ok false
   <-> Reaches sc (transparentStatic sc)
         (Scope.variableScope binding) (Reference.from reference))
  /\ (isFromSeparateExecutionContext sc fuel reference = Ok true
      <-> ~ Reaches sc (transparentStatic sc)
            (Scope.variableScope binding) (Reference.from reference)).
Proof.
  intros Hwf Href Hfuel Hres Ebinding.
  destruct (isFromSeparateExecutionContext_total
              sc fuel reference variable Hwf Href Hres Hfuel) as [b Hb].
  assert (Hiff : isFromSeparateExecutionContext sc fuel reference = Ok false
                 <-> Reaches sc (transparentStatic sc)
                       (Scope.variableScope binding) (Reference.from reference)).
  { unfold isFromSeparateExecutionContext. rewrite Hres.
    rewrite (getScope_Some _ _ _ Ebinding); cbn [bind].
    apply ascend_reaches; [assumption| |assumption].
    unfold wf_reference in Href. apply andb_true_iff in Href as [Hfrom _].
    now apply Nat.ltb_lt in Hfrom. }
  split; [exact Hiff|].
  rewrite <- Hiff, Hb. destruct b; split; congruence.
Qed.

(** C2 at work on [class C { static foo = 1; static { bar = C; } }]: the
    static block is transparent, the reference to [C] is in the context of
    its binding. *)
Lemma C2_witness_static_block :
  isFromSeparateExecutionContext Programs.static_C_program 4 Programs.static_C_ref
  = Ok false.
Proof.
  pose proof (C2_separate_execution_context
                Programs.static_C_program 4 Programs.static_C_ref
                Programs.class_C_inner
                (Programs.scopeAt Programs.static_C_program 1)) as H.
  discharge H. destruct H as [H _]. apply H.
  eapply reach_through with (u := 1); try reflexivity.
  - discriminate.
  - left; reflexivity.
  - eapply reach_same; reflexivity.
Defined.

Lemma filterM_In {A : Type} (f : A -> result bool) (l kept : list A) (x : A) :
  filterM f l = Ok kept -> In x kept -> In x l /\ f x = Ok true.
Proof.
  revert kept; induction l as [|y l IH]; simpl; intros kept H Hx.
  - injection H as <-. destruct Hx.
  - apply bind_ok in H as (b & Hb & H).
    apply bind_ok in H as (rest & Hrest & H). injection H as <-.
    destruct b.
    + destruct Hx as [<-|Hx]; [auto|].
      destruct (IH _ Hrest Hx); auto.
    + destruct (IH _ Hrest Hx); auto.
Qed.

Lemma forEachM_In {A B : Type} (f : A -> result (list B)) (l : list A)
  (out : list B) (x : B) :
  forEachM f l = Ok out -> In x out ->
  exists a r, In a l /\ f a = Ok r /\ In x r.
Proof.
  revert out; induction l as [|y l IH]; simpl; intros out H Hx.
  - injection H as <-. destruct Hx.
  - apply bind_ok in H as (r & Hr & H).
    apply bind_ok in H as (rs & Hrs & H). injection H as <-.
    apply in_app_or in Hx as [Hx|Hx].
    + exists y, r; auto.
    + destruct (IH _ Hrs Hx) as (a & r' & Ha & Hfa & Hxr). exists a, r'; auto.
Qed.

(** Every reference that [checkReferencesInScope] reports passed
    [shouldCheck]. *)
Lemma reported_passed_shouldCheck sc options fuel depth :
  forall scope out reference,
    checkReferencesInScope sc options fuel depth scope = Ok out ->
    In reference out ->
    shouldCheck sc options fuel reference = Ok true.
Proof.
  induction depth as [|depth IH]; intros scope out reference H Hin; [discriminate|].
  cbn [checkReferencesInScope] in H.
  apply bind_ok in H as (s & _ & H).
  apply bind_ok in H as (checked & Hchecked & H).
  apply bind_ok in H as (reported & Hreported & H).
  apply bind_ok in H as (nested & Hnested & H). injection H as <-.
  apply in_app_or in Hin as [Hin|Hin].
  - apply (filterM_In _ _ _ _ Hreported) in Hin as [Hin _].
    now apply (filterM_In _ _ _ _ Hchecked) in Hin as [_ Hin].
  - destruct (forEachM_In _ _ _ _ Hnested Hin) as (child & r & _ & Hchild & Hr).
    eapply IH; eauto.
Qed.

(** C3.  A reference whose [init] flag is true is never reported:
    [shouldCheck] rejects it at once, whatever the source, the options and
    the fuel are, so it is not among the references that
    [checkReferencesInScope] reports, and no problem of the [Program]
    handler stems from it. *)
Theorem C3_init_references_never_reported sc options reference :
  Reference.init reference = true ->
  (forall fuel, shouldCheck sc options fuel reference = Ok false)
  /\ (forall fuel depth scope out,
        checkReferencesInScope sc options fuel depth scope = Ok out ->
        ~ In reference out)
  /\ (forall fuel depth globalScope problems,
        Program sc options fuel depth globalScope = Ok problems ->
        exists out,
          checkReferencesInScope sc options fuel depth globalScope = Ok out
          /\ problems = map report out /\ ~ In reference out).
Proof.
  intros Hinit.
  assert (Hcheck : forall fuel, shouldCheck sc options fuel reference = Ok false).
  { intros fuel. unfold shouldCheck. now rewrite Hinit. }
  assert (Hout : forall fuel depth scope out,
             checkReferencesInScope sc options fuel depth scope = Ok out ->
             ~ In reference out).
  { intros fuel depth scope out H Hin.
    pose proof (reported_passed_shouldCheck _ _ _ _ _ _ _ H Hin) as Hpass.
    rewrite Hcheck in Hpass. discriminate. }
  split; [exact Hcheck|]. split; [exact Hout|].
  intros fuel depth globalScope problems H. unfold Program in H.
  apply bind_ok in H as (out & Hrun & H). injection H as <-.
  exists out. eauto.
Qed.

(** C3 at work on [var a = a;]: the declared [a], whose [init] flag is
    true, is not reported. *)
Lemma C3_witness_var_a_write :
  Reference.init Programs.var_a_write = true
  /\ shouldCheck Programs.var_a_program Programs.defaults 1 Programs.var_a_write
     = Ok false.
Proof.
  split; [reflexivity|].
  apply (C3_init_references_never_reported
           Programs.var_a_program Programs.defaults Programs.var_a_write).
  reflexivity.
Defined.

(** The pattern [SENTINEL_TYPE] accepts exactly these eight node types. *)
Lemma SENTINEL_TYPE_types t :
  SENTINEL_TYPE t = true
  <-> In t ["FunctionDeclaration"; "FunctionExpression"; "ClassDeclaration";
            "ClassExpression"; "ArrowFunctionExpression"; "CatchClause";
            "ImportDeclaration"; "ExportNamedDeclaration"].
Proof.
  unfold SENTINEL_TYPE. rewrite existsb_exists. split.
  - intros (x & Hx & Heq). apply String.eqb_eq in Heq. subst x. exact Hx.
  - intros H. exists t. split; [exact H | apply String.eqb_refl].
Qed.

Lemma SENTINEL_TYPE_other t :
  SENTINEL_TYPE t = true -> t <> "VariableDeclarator" /\ t <> "AssignmentPattern".
Proof. intros H; split; intros ->; discriminate. Qed.

Lemma isInRange_false sc id n location :
  nth_error (ast sc) id = Some n -> ~ inRangeOf sc id location ->
  isInRange sc (VNode id) location = Ok false.
Proof.
  intros E H. rewrite (isInRange_node _ _ _ _ E).
  destruct (_ && _) eqn:R; [|reflexivity].
  exfalso; apply H, isInRange_true. now rewrite (isInRange_node _ _ _ _ E), R.
Qed.

Lemma walkUp_stops_at_sentinel sc location start steps :
  CrossesSentinel sc location start steps ->
  forall fuel, steps < fuel -> walkUp sc fuel start location = Ok false.
Proof.
  induction 1 as [id n E Hs|id n steps E Hvd Hap _ IH]; intros fuel Hfuel;
    (destruct fuel as [|fuel]; [lia|]); cbn [walkUp];
    rewrite (getNode_Some _ _ _ E); cbn [bind].
  - destruct (SENTINEL_TYPE_other _ Hs) as [Hvd Hap].
    apply String.eqb_neq in Hvd, Hap. now rewrite Hvd, Hap, Hs.
  - apply String.eqb_neq in Hvd. rewrite Hvd.
    destruct (String.eqb_spec (Node.type n) "AssignmentPattern") as [Ht|Ht].
    + destruct (Hap Ht) as (r & rn & -> & Er & Hout).
      rewrite (isInRange_false _ _ _ _ Er Hout); cbn [bind].
      apply IH; lia.
    + destruct (SENTINEL_TYPE (Node.type n)); [reflexivity|]. apply IH; lia.
Qed.

(** C4.  Let the first definition of the variable of a reference not be a
    [ClassName].  If the walk up from the parent of the defined name meets a
    node of a sentinel type before any [VariableDeclarator] and before any
    [AssignmentPattern] whose right operand contains the reference, the
    walk stops there with [false], as soon as it has enough fuel to get to
    that node: what encloses the sentinel is never looked at.
    [isEvaluatedDuringInitialization] then returns [false]. *)
Theorem C4_walk_stops_at_sentinel
  sc fuel reference variable definition rest ident nameNode steps :
  wf_scopes sc = true ->
  wf_reference sc reference = true ->
  Reference.from reference < fuel ->
  steps < fuel ->
  Reference.resolved reference = Some variable ->
  Var.defs variable = definition :: rest ->
  Def.type definition <> "ClassName" ->
  nth_error (ast sc) (Reference.identifier reference) = Some ident ->
  nth_error (ast sc) (Def.name definition) = Some nameNode ->
  CrossesSentinel sc (snd (Node.range ident)) (Node.parent nameNode) steps ->
  walkUp sc (S steps) (Node.parent nameNode) (snd (Node.range ident)) = Ok false
  /\ isEvaluatedDuringInitialization sc fuel reference = Ok false.
Proof.
  intros Hscopes Href Hfrom Hsteps Hres Hdefs Htype Eident Ename Hcross.
  split; [apply (walkUp_stops_at_sentinel _ _ _ _ Hcross); lia|].
  destruct (isFromSeparateExecutionContext_total
              sc fuel reference variable Hscopes Href Hres Hfrom) as [separate Hsep].
  unfold isEvaluatedDuringInitialization. rewrite Hsep; cbn [bind].
  destruct separate; [reflexivity|].
  rewrite (getNode_Some _ _ _ Eident); cbn [bind]. rewrite Hres, Hdefs.
  apply String.eqb_neq in Htype. rewrite Htype.
  unfold parentOf. rewrite (getNode_Some _ _ _ Ename); cbn [bind].
  now apply (walkUp_stops_at_sentinel _ _ _ _ Hcross).
Qed.

(** C4 at work on [var a = function (p) { p; };]: the walk from the
    parameter [p] stops at the function expression.  Started one node
    higher, at the declarator of [a], whose initializer contains the
    reference, the walk would answer [true]. *)
Lemma C4_witness_parameter_in_initializer :
  isEvaluatedDuringInitialization Programs.param_p_program 2 Programs.param_p_ref
  = Ok false
  /\ Node.parent (Programs.nodeAt Programs.param_p_program 4) = Some 2
  /\ walkUp Programs.param_p_program 1 (Some 2) 24 = Ok true.
Proof.
  split; [|split; reflexivity].
  pose proof (C4_walk_stops_at_sentinel
                Programs.param_p_program 2 Programs.param_p_ref
                Programs.param_p (Def.mk "Parameter" 5 4) []
                (Programs.nodeAt Programs.param_p_program 8)
                (Programs.nodeAt Programs.param_p_program 5) 0) as H.
  discharge H. apply H.
  eapply crosses_here; reflexivity.
Defined.



(** C6, as stated, fails for [arguments]: in [function f() { arguments; }]
    the reference resolves to the variable [arguments] of the function
    scope, which no definition declares.  [shouldCheck] rejects the
    reference, so the rule never reads its [defs[0]]. *)
Lemma C6_counterexample_arguments :
  In Programs.arguments_ref
     (Scope.references (Programs.scopeAt Programs.arguments_program 1))
  /\ Reference.resolved Programs.arguments_ref = Some Programs.arguments_var
  /\ Var.defs Programs.arguments_var = []
  /\ shouldCheck Programs.arguments_program Programs.defaults 2 Programs.arguments_ref
     = Ok false
  /\ usedBeforeDefined Programs.arguments_program 2 Programs.arguments_ref
     = Err TypeError.
Proof.
  split; [left; reflexivity|]. repeat split; reflexivity.
Qed.

Lemma shouldCheck_true_defs sc options fuel reference :
  shouldCheck sc options fuel reference = Ok true ->
  exists variable definition rest,
    Reference.resolved reference = Some variable
    /\ Var.defs variable = definition :: rest.
Proof.
  unfold shouldCheck. intros H.
  destruct (Reference.init reference); [discriminate|].
  apply bind_ok in H as (namedExport & _ & H).
  destruct namedExport; [discriminate|].
  destruct (Reference.resolved reference) as [variable|]; [|discriminate].
  destruct (Var.defs variable) as [|definition rest] eqn:Hdefs; [discriminate|].
  eauto.
Qed.

(** C6 (amended).  Every reference that passes [shouldCheck] has a resolved
    variable with a non-empty [defs]: [shouldCheck] rejects unresolved
    references and references to variables without definitions.  So
    [defs[0]] exists for every reference that the reporting comparison of
    [checkReferencesInScope] examines, and the comparison reads
    [defs[0].name] without a guard of its own: it goes on to compare the
    ends of the two identifiers. *)
Theorem C6_checked_references_have_definitions sc options fuel reference :
  shouldCheck sc options fuel reference = Ok true ->
  exists variable definition rest,
    Reference.resolved reference = Some variable
    /\ Var.defs variable = definition :: rest
    /\ (forall scope s checked,
          getScope sc scope = Ok s ->
          filterM (shouldCheck sc options fuel) (Scope.references s) = Ok checked ->
          forall r, In r checked ->
                    exists v d ds, Reference.resolved r = Some v
                                   /\ Var.defs v = d :: ds)
    /\ usedBeforeDefined sc fuel reference
       = (ident <- getNode sc (Reference.identifier reference) ;;
          definitionIdentifier <- getNode sc (Def.name definition) ;;
          if snd (Node.range ident) <? snd (Node.range definitionIdentifier)
          then Ok true
          else
            during <- isEvaluatedDuringInitialization sc fuel reference ;;
            if during then
              pt <- parentType sc (Reference.identifier reference) ;;
              Ok (negb (String.eqb pt "TSTypeReference"))
            else Ok false).
Proof.
  intros H.
  destruct (shouldCheck_true_defs _ _ _ _ H) as (variable & definition & rest & Hres & Hdefs).
  exists variable, definition, rest. repeat split; try assumption.
  - intros scope s checked _ Hchecked r Hr.
    apply (filterM_In _ _ _ _ Hchecked) in Hr as [_ Hr].
    exact (shouldCheck_true_defs _ _ _ _ Hr).
  - unfold usedBeforeDefined. now rewrite Hres, Hdefs.
Qed.

Lemma C6_witness_var_a_read :
  exists variable definition rest,
    Reference.resolved Programs.var_a_read = Some variable
    /\ Var.defs variable = definition :: rest.
Proof.
  destruct (C6_checked_references_have_definitions
              Programs.var_a_program Programs.defaults 2 Programs.var_a_read eq_refl)
    as (variable & definition & rest & Hres & Hdefs & _).
  exists variable, definition, rest. split; assumption.
Defined.

(** C7.  When the [functions] option is false and the first definition of
    the resolved variable of a reference is a [FunctionName], [shouldCheck]
    returns [false] for every fuel, also for none: neither the execution
    context nor the positions are looked at.  The string option [nofunc]
    switches [functions] off, and with it the rule reports nothing for
    [function f(){} f();]. *)
Theorem C7_functions_option_off sc options reference variable definition rest parent :
  functions options = false ->
  Reference.resolved reference = Some variable ->
  Var.defs variable = definition :: rest ->
  Def.type definition = "FunctionName" ->
  parentType sc (Reference.identifier reference) = Ok parent ->
  (forall fuel, shouldCheck sc options fuel reference = Ok false)
  /\ functions (parseOptions (OptString "nofunc")) = false
  /\ (forall fuel depth, 2 <= depth ->
      Program Programs.fun_f_program (parseOptions (OptString "nofunc")) fuel depth 0
      = Ok []).
Proof.
  intros Hfun Hres Hdefs Htype Hparent.
  split; [|split; [reflexivity|]].
  - intros fuel. unfold shouldCheck.
    destruct (Reference.init reference); [reflexivity|].
    assert (Hexport : exists b,
               (if allowNamedExports options
                then p <- parentOf sc (Reference.identifier reference) ;;
                     match p with
                     | None => Err TypeError
                     | Some pid =>
                         pn <- getNode sc pid ;;
                         Ok (String.eqb (Node.type pn) "ExportSpecifier"
                             && isNode (prop pn "local") (Reference.identifier reference))
                     end
                else Ok false) = Ok b).
    { destruct (allowNamedExports options); [|eauto].
      unfold parentType in Hparent.
      apply bind_ok in Hparent as (p & -> & Hparent); cbn [bind].
      destruct p as [pid|]; [|discriminate].
      apply bind_ok in Hparent as (pn & -> & _); cbn [bind]. eauto. }
    destruct Hexport as [b ->]; cbn [bind].
    destruct b; [reflexivity|].
    now rewrite Hres, Hdefs, Hfun, Htype.
  - intros fuel depth Hdepth.
    destruct depth as [|[|depth]]; [lia|lia|reflexivity].
Qed.

Lemma C7_witness_call_of_f :
  shouldCheck Programs.fun_f_program (parseOptions (OptString "nofunc")) 0
    Programs.fun_f_call = Ok false.
Proof.
  pose proof (C7_functions_option_off
                Programs.fun_f_program (parseOptions (OptString "nofunc"))
                Programs.fun_f_call Programs.fun_f (Def.mk "FunctionName" 2 1) []
                "CallExpression") as H.
  discharge H. apply H.
Defined.

(** ** no-labels: the claim *)

Import NoLabels.

Lemma labelsOf_push label kind upper :
  labelsOf (Some (mkScopeInfo label kind upper)) = label :: labelsOf upper.
Proof. destruct upper; reflexivity. Qed.

Section NoLabelsFacts.

Variable isLoop : ASTNode -> bool.
Variables allowLoop allowSwitch : bool.

Lemma traverse_balanced node : balanced isLoop allowLoop allowSwitch node.
Proof.
  induction node as [label body IH|label|label|type children IH]
    using ASTNode_induction; intros st.
  - (* labeled statement *)
    cbn [traverse enter onLabeledStatement observe bind app].
    destruct (IH {| scopeInfo := Some (mkScopeInfo label
                                         (getBodyKind isLoop body) (scopeInfo st));
                    reports := reports st |}) as (st2 & Hrun & Hinfo).
    rewrite Hrun. cbn [bind snd fst leave].
    unfold onLabeledStatementExit. rewrite Hinfo. cbn [scopeInfo info_upper bind].
    eexists; split; [cbn [jumps]; rewrite labelsOf_push; reflexivity|].
    reflexivity.
  - cbn [traverse enter observe]. unfold onBreakStatement.
    destruct label as [name|]; cbn [bind leave].
    + destruct (negb _); cbn [bind]; eexists; split; reflexivity.
    + eexists; split; reflexivity.
  - cbn [traverse enter observe]. unfold onContinueStatement.
    destruct label as [name|]; cbn [bind leave].
    + destruct (negb _); cbn [bind]; eexists; split; reflexivity.
    + eexists; split; reflexivity.
  - cbn [traverse enter observe bind app leave].
    cbn [jumps].
    revert st. induction IH as [|child rest Hchild _ IHrest]; intros st.
    + cbn [bind snd fst]. eexists; split; reflexivity.
    + destruct (Hchild st) as (st1 & Hrun1 & Hinfo1).
      rewrite Hrun1; cbn [bind snd fst].
      destruct (IHrest st1) as (st2 & Hrun2 & Hinfo2).
      apply bind_ok in Hrun2 as ([obs s2] & Heach & Hrest).
      cbn [bind snd fst] in Hrest. injection Hrest as Hobs <-.
      rewrite Heach; cbn [bind snd fst].
      eexists; split; [|rewrite Hinfo2; exact Hinfo1].
      rewrite Hinfo1 in Hobs. now rewrite <- Hobs.
Qed.

End NoLabelsFacts.

Example nested_labels_traversal :
  summary (traverse loopTypes false false nested_labels (mkState None []))
  = Some ([ (["b"; "a"], BreakStatement (Some "a"));
            (["a"], ContinueStatement (Some "a")) ],
          None,
          ["unexpectedLabelInBreak"; "unexpectedLabel";
           "unexpectedLabelInContinue"; "unexpectedLabel"]).
Proof. vm_compute. reflexivity. Qed.

(** C8.  Under the depth-first traversal, whatever [scopeInfo] holds when
    the walk of a subtree starts, the walk returns, [scopeInfo] holds the
    same list when it ends, and at each [BreakStatement] and
    [ContinueStatement] handler call inside it [scopeInfo] lists the labels
    of the enclosing labeled statements of the subtree, innermost first, in
    front of what it held at the start.  In particular the exit handler of
    a labeled statement restores what [scopeInfo] held before its entry
    handler ran, and for a whole program, where [scopeInfo] starts as
    [null], it lists exactly the labels of the enclosing labeled
    statements. *)
Theorem C8_label_stack_follows_nesting isLoop allowLoop allowSwitch node st :
  (exists st',
     traverse isLoop allowLoop allowSwitch node st
     = Ok (jumps (labelsOf (scopeInfo st)) node, st')
     /\ scopeInfo st' = scopeInfo st)
  /\ (forall label body st1 seen st2,
        enter isLoop allowLoop allowSwitch (LabeledStatement label body) st = Ok st1 ->
        traverse isLoop allowLoop allowSwitch body st1 = Ok (seen, st2) ->
        exists st3,
          leave allowLoop allowSwitch (LabeledStatement label body) st2 = Ok st3
          /\ scopeInfo st3 = scopeInfo st)
  /\ (exists final,
        traverse isLoop allowLoop allowSwitch node (mkState None [])
        = Ok (jumps [] node, final)
        /\ scopeInfo final = None).
Proof.
  split; [apply traverse_balanced|]. split.
  - intros label body st1 seen st2 Henter Hbody.
    cbn [enter onLabeledStatement] in Henter. injection Henter as <-.
    destruct (traverse_balanced isLoop allowLoop allowSwitch body
                {| scopeInfo := Some (mkScopeInfo label (getBodyKind isLoop body)
                                        (scopeInfo st));
                   reports := reports st |}) as (st2' & Hrun & Hinfo).
    rewrite Hbody in Hrun. injection Hrun as _ <-.
    cbn [leave]. unfold onLabeledStatementExit. rewrite Hinfo. cbn [scopeInfo].
    eexists; split; reflexivity.
  - apply (traverse_balanced isLoop allowLoop allowSwitch node (mkState None [])).
Qed.

(** ** quotes: the claims *)

Import Quotes.

Lemma convert_begins_with_quote settings str :
  exists rest, convert settings str = String (quote settings) rest.
Proof.
  unfold convert. destruct str as [|oldQuote rest]; [eexists; reflexivity|].
  destruct (Ascii.eqb_spec (quote settings) oldQuote) as [->|_];
    eexists; reflexivity.
Qed.

(** C10.  [convert] is idempotent, for every quote setting and every
    string, those of at least two characters among them.  A string that
    begins with the quote of the setting is returned as it is; the result of
    [convert] always begins with that quote; so converting twice gives what
    converting once gives. *)
Theorem C10_convert_idempotent settings str :
  (String.get 0 str = Some (quote settings) -> convert settings str = str)
  /\ String.get 0 (convert settings str) = Some (quote settings)
  /\ convert settings (convert settings str) = convert settings str.
Proof.
  split; [|split].
  - destruct str as [|oldQuote rest]; [discriminate|].
    cbn [String.get]. intros H; injection H as ->.
    unfold convert. now rewrite Ascii.eqb_refl.
  - destruct (convert_begins_with_quote settings str) as [rest ->]. reflexivity.
  - destruct (convert_begins_with_quote settings str) as [rest ->].
    unfold convert. now rewrite Ascii.eqb_refl.
Qed.

(** C10 at work: a double-quoted text with an apostrophe and an escaped
    double quote, converted to single quotes once and twice. *)
Lemma C10_witness_double_to_single :
  convert (QUOTE_SETTINGS single)
    (String DQUOTE ("it's" ++ String BACKSLASH (String DQUOTE "x") ++ str1 DQUOTE))
  = String SQUOTE ("it" ++ String BACKSLASH "'s" ++ String DQUOTE "x" ++ str1 SQUOTE)
  /\ convert (QUOTE_SETTINGS single)
       (convert (QUOTE_SETTINGS single)
          (String DQUOTE ("it's" ++ String BACKSLASH (String DQUOTE "x")
                          ++ str1 DQUOTE)))
     = String SQUOTE ("it" ++ String BACKSLASH "'s" ++ String DQUOTE "x"
                      ++ str1 SQUOTE).
Proof.
  assert (H : convert (QUOTE_SETTINGS single)
                (String DQUOTE ("it's" ++ String BACKSLASH (String DQUOTE "x")
                                ++ str1 DQUOTE))
              = String SQUOTE ("it" ++ String BACKSLASH "'s" ++ String DQUOTE "x"
                               ++ str1 SQUOTE)) by reflexivity.
  split; [exact H|].
  transitivity
    (convert (QUOTE_SETTINGS single)
       (String DQUOTE ("it's" ++ String BACKSLASH (String DQUOTE "x")
                       ++ str1 DQUOTE))); [|exact H].
  apply (C10_convert_idempotent (QUOTE_SETTINGS single)).
Defined.


Section QuotesFacts.

Variable sc : SourceCode.
Variable isParenthesised : NodeId -> bool.
Variable isTopLevelExpressionStatement : NodeId -> bool.
Variable isSurroundedBy : string -> ascii -> bool.
Variable hasOctalOrNonOctalDecimalEscapeSequence : string -> bool.
Variable LINEBREAKS : list ascii.
Variable getText : NodeId -> string.
Variable options : SecondOption.







End QuotesFacts.



(** ** no-use-before-define: what the rule reports *)

Import NoUseBeforeDefine WellFormed Reading Coverage CoverageOptions.

Lemma filterM_complete {A : Type} (f : A -> result bool) (l kept : list A) (x : A) :
  filterM f l = Ok kept -> In x l -> f x = Ok true -> In x kept.
Proof.
  revert kept; induction l as [|y l IH]; simpl; intros kept H Hx Hfx; [destruct Hx|].
  apply bind_ok in H as (b & Hb & H).
  apply bind_ok in H as (rest & Hrest & H). injection H as <-.
  destruct Hx as [->|Hx].
  - rewrite Hfx in Hb. injection Hb as <-. now left.
  - destruct b; [right|]; eapply IH; eauto.
Qed.

Lemma forEachM_complete {A B : Type} (f : A -> result (list B)) (l : list A)
  (out : list B) (a : A) :
  forEachM f l = Ok out -> In a l -> exists r, f a = Ok r /\ incl r out.
Proof.
  revert out; induction l as [|y l IH]; simpl; intros out H Ha; [destruct Ha|].
  apply bind_ok in H as (r & Hr & H).
  apply bind_ok in H as (rs & Hrs & H). injection H as <-.
  destruct Ha as [->|Ha].
  - exists r. split; [assumption|]. now apply incl_appl.
  - destruct (IH _ Hrs Ha) as (r' & Hr' & Hincl).
    exists r'. split; [assumption|]. now apply incl_appr.
Qed.

(** A scope held by the outcome of [checkReferencesInScope] and its
    position in the tree of scopes. *)
Lemma reported_sound sc options fuel depth :
  forall scope out reference,
    checkReferencesInScope sc options fuel depth scope = Ok out ->
    In reference out ->
    exists inner s,
      Descends sc scope inner
      /\ nth_error (scopes sc) inner = Some s
      /\ In reference (Scope.references s)
      /\ shouldCheck sc options fuel reference = Ok true
      /\ usedBeforeDefined sc fuel reference = Ok true.
Proof.
  induction depth as [|depth IH]; intros scope out reference H Hin; [discriminate|].
  cbn [checkReferencesInScope] in H.
  apply bind_ok in H as (s & Hs & H).
  apply bind_ok in H as (checked & Hchecked & H).
  apply bind_ok in H as (reported & Hreported & H).
  apply bind_ok in H as (nested & Hnested & H). injection H as <-.
  unfold getScope in Hs.
  destruct (nth_error (scopes sc) scope) as [s'|] eqn:Es; [|discriminate].
  injection Hs as ->.
  apply in_app_or in Hin as [Hin|Hin].
  - apply (filterM_In _ _ _ _ Hreported) in Hin as [Hin Hused].
    apply (filterM_In _ _ _ _ Hchecked) in Hin as [Hin Hcheck].
    exists scope, s. repeat split; auto. constructor.
  - destruct (forEachM_In _ _ _ _ Hnested Hin) as (child & r & Hchild & Hrun & Hr).
    destruct (IH _ _ _ Hrun Hr) as (inner & s' & Hd & Es' & Hrest).
    exists inner, s'. split; [|split; assumption].
    eapply descends_child; eauto.
Qed.

Lemma reported_complete sc options fuel scope inner :
  Descends sc scope inner ->
  forall depth out s reference,
    checkReferencesInScope sc options fuel depth scope = Ok out ->
    nth_error (scopes sc) inner = Some s ->
    In reference (Scope.references s) ->
    shouldCheck sc options fuel reference = Ok true ->
    usedBeforeDefined sc fuel reference = Ok true ->
    In reference out.
Proof.
  induction 1 as [outer|outer so child inner Eo Hchild _ IH];
    intros depth out s reference H Es Hin Hcheck Hused;
    (destruct depth as [|depth]; [discriminate|]);
    cbn [checkReferencesInScope] in H;
    apply bind_ok in H as (s0 & Hs0 & H);
    apply bind_ok in H as (checked & Hchecked & H);
    apply bind_ok in H as (reported & Hreported & H);
    apply bind_ok in H as (nested & Hnested & H); injection H as <-;
    apply in_or_app.
  - left. rewrite (getScope_Some _ _ _ Es) in Hs0. injection Hs0 as <-.
    eapply filterM_complete; eauto. eapply filterM_complete; eauto.
  - right. rewrite (getScope_Some _ _ _ Eo) in Hs0. injection Hs0 as <-.
    destruct (forEachM_complete _ _ _ _ Hnested Hchild) as (r & Hrun & Hincl).
    apply Hincl. eapply IH; eauto.
Qed.

(** X1.  The rule reports exactly the references of the scope it starts from
    and of the scopes below it that pass [shouldCheck] and meet the
    condition of the report. *)
Theorem checkReferencesInScope_reports_exactly
  sc options fuel depth scope out reference :
  checkReferencesInScope sc options fuel depth scope = Ok out ->
  (In reference out
   <-> exists inner s,
         Descends sc scope inner
         /\ nth_error (scopes sc) inner = Some s
         /\ In reference (Scope.references s)
         /\ shouldCheck sc options fuel reference = Ok true
         /\ usedBeforeDefined sc fuel reference = Ok true).
Proof.
  intros H. split.
  - now apply reported_sound with (depth := depth).
  - intros (inner & s & Hd & Es & Hin & Hcheck & Hused).
    eapply reported_complete; eauto.
Qed.

(** In [function g() { return b; } var b = 1;] the reference in the scope
    of [g], one level below the global scope, is reported. *)
Lemma checkReferencesInScope_reports_exactly_witness :
  In later_read [later_read]
  <-> exists inner s,
        Descends later_program 0 inner
        /\ nth_error (scopes later_program) inner = Some s
        /\ In later_read (Scope.references s)
        /\ shouldCheck later_program Programs.defaults 3 later_read = Ok true
        /\ usedBeforeDefined later_program 3 later_read = Ok true.
Proof.
  apply (checkReferencesInScope_reports_exactly
           later_program Programs.defaults 3 2 0 [later_read] later_read).
  reflexivity.
Defined.



(** X3.  A reference from a separate execution context whose identifier does
    not end before the defined name ends is never reported. *)
Theorem reference_from_closure_after_definition_not_reported
  sc options fuel depth scope out reference variable definition rest ident name :
  checkReferencesInScope sc options fuel depth scope = Ok out ->
  isFromSeparateExecutionContext sc fuel reference = Ok true ->
  Reference.resolved reference = Some variable ->
  Var.defs variable = definition :: rest ->
  nth_error (ast sc) (Reference.identifier reference) = Some ident ->
  nth_error (ast sc) (Def.name definition) = Some name ->
  snd (Node.range name) <= snd (Node.range ident) ->
  usedBeforeDefined sc fuel reference = Ok false /\ ~ In reference out.
Proof.
  intros H Hsep Hres Hdefs Eident Ename Hafter.
  assert (Hused : usedBeforeDefined sc fuel reference = Ok false).
  { unfold usedBeforeDefined. rewrite Hres, Hdefs.
    rewrite (getNode_Some _ _ _ Eident), (getNode_Some _ _ _ Ename); cbn [bind].
    replace (snd (Node.range ident) <? snd (Node.range name)) with false
      by (symmetry; apply Nat.ltb_ge; assumption).
    unfold isEvaluatedDuringInitialization. rewrite Hsep. reflexivity. }
  split; [exact Hused|].
  intros Hin.
  destruct (reported_sound _ _ _ _ _ _ _ H Hin) as (_ & _ & _ & _ & _ & _ & Hyes).
  rewrite Hused in Hyes. discriminate.
Qed.

Lemma reference_from_closure_after_definition_not_reported_witness :
  usedBeforeDefined closure_program 3 closure_read = Ok false
  /\ ~ In closure_read [].
Proof.
  pose proof (reference_from_closure_after_definition_not_reported
                closure_program Programs.defaults 3 2 0 [] closure_read closure_b
                (Def.mk "Variable" 3 2) []
                (Programs.nodeAt closure_program 9)
                (Programs.nodeAt closure_program 3)) as H.
  discharge H. exact H.
Defined.




(** X5.  The options [variables] and [classes] exempt nothing in the
    execution context of the binding: for a reference that is not from a
    separate execution context, [shouldCheck] answers as if both were on. *)
Theorem same_context_ignores_variables_and_classes sc options fuel reference :
  isFromSeparateExecutionContext sc fuel reference = Ok false ->
  shouldCheck sc options fuel reference
  = shouldCheck sc (withVariablesAndClasses options) fuel reference.
Proof.
  intros Hsame. unfold shouldCheck.
  destruct (Reference.init reference); [reflexivity|].
  cbn [allowNamedExports withVariablesAndClasses].
  match goal with
  | |- bind ?g _ = _ => destruct g as [[|]|e]; cbn [bind]; try reflexivity
  end.
  destruct (Reference.resolved reference) as [variable|]; [|reflexivity].
  destruct (Var.defs variable) as [|definition rest]; [reflexivity|].
  cbv zeta. cbn [functions classes variables enums typedefs ignoreTypeReferences
                   withVariablesAndClasses negb andb orb].
  destruct (negb (functions options) && _); [reflexivity|].
  rewrite Hsame.
  destruct ((negb (variables options) && _) || _); reflexivity.
Qed.

(** With [{ variables: false }] the right-hand [a] of [var a = a;] is still
    checked, and reported. *)
Lemma same_context_ignores_variables_and_classes_witness :
  shouldCheck Programs.var_a_program variablesOff 2 Programs.var_a_read = Ok true
  /\ Program Programs.var_a_program variablesOff 2 1 0
     = Ok [report Programs.var_a_read].
Proof.
  split; [|reflexivity].
  rewrite (same_context_ignores_variables_and_classes
             Programs.var_a_program variablesOff 2 Programs.var_a_read eq_refl).
  reflexivity.
Defined.

(** ** no-use-before-define: evaluation during initialization *)

Lemma isInRange_value sc id n k location :
  wf_ast sc = true ->
  nth_error (ast sc) id = Some n ->
  nodeOrAbsent (prop n k) = true ->
  exists b, isInRange sc (prop n k) location = Ok b
            /\ (b = true <-> inValue sc (prop n k) location).
Proof.
  intros Hwf En Hshape.
  pose proof (wf_ast_prop _ _ _ k Hwf En) as Hvalid.
  destruct (prop n k) as [| | | | |v|] eqn:Hv; try discriminate.
  - exists false. split; [reflexivity|]. split; [discriminate|].
    intros (v & Heq & _); discriminate.
  - exists false. split; [reflexivity|]. split; [discriminate|].
    intros (v & Heq & _); discriminate.
  - simpl in Hvalid. apply Nat.ltb_lt in Hvalid.
    destruct (getNode_valid _ _ Hvalid) as [vn Hvn]. apply getNode_Ok in Hvn.
    pose proof (isInRange_true sc v location) as Htrue.
    rewrite (isInRange_node _ _ _ _ Hvn) in *.
    eexists; split; [reflexivity|]. split.
    + intros Hb. exists v. split; [reflexivity|]. apply Htrue. now rewrite Hb.
    + intros (v' & Heq & Hin). injection Heq as <-.
      apply Htrue in Hin. now injection Hin.
Qed.

(** X6.  For a variable declared by a declarator, a reference in the
    execution context of the binding is evaluated during the initialization
    exactly when it lies in the initializer of the declarator, or the
    declaration is the left side of a [for]-[in] or [for]-[of] statement and
    the reference lies in the right side. *)
Theorem declarator_initialization
  sc fuel reference variable definition rest ident name
  declaratorId declarator declarationId declaration statementId statement :
  wf_ast sc = true ->
  0 < fuel ->
  isFromSeparateExecutionContext sc fuel reference = Ok false ->
  Reference.resolved reference = Some variable ->
  Var.defs variable = definition :: rest ->
  Def.type definition <> "ClassName" ->
  nth_error (ast sc) (Reference.identifier reference) = Some ident ->
  nth_error (ast sc) (Def.name definition) = Some name ->
  Node.parent name = Some declaratorId ->
  nth_error (ast sc) declaratorId = Some declarator ->
  Node.type declarator = "VariableDeclarator" ->
  nodeOrAbsent (prop declarator "init") = true ->
  Node.parent declarator = Some declarationId ->
  nth_error (ast sc) declarationId = Some declaration ->
  Node.parent declaration = Some statementId ->
  nth_error (ast sc) statementId = Some statement ->
  nodeOrAbsent (prop statement "right") = true ->
  exists b,
    isEvaluatedDuringInitialization sc fuel reference = Ok b
    /\ (b = true
        <-> inValue sc (prop declarator "init") (snd (Node.range ident))
            \/ (FOR_IN_OF_TYPE (Node.type statement) = true
                /\ inValue sc (prop statement "right") (snd (Node.range ident)))).
Proof.
  intros Hwf Hfuel Hsame Hres Hdefs Htype Eident Ename Hparent Edecl Hdecl Hinit
         Hdparent Edeclaration Hsparent Est Hright.
  destruct fuel as [|fuel]; [lia|].
  unfold isEvaluatedDuringInitialization. rewrite Hsame; cbn [bind].
  rewrite (getNode_Some _ _ _ Eident); cbn [bind]. rewrite Hres, Hdefs.
  apply String.eqb_neq in Htype. rewrite Htype.
  unfold parentOf at 1. rewrite (getNode_Some _ _ _ Ename); cbn [bind].
  rewrite Hparent. cbn [walkUp].
  rewrite (getNode_Some _ _ _ Edecl); cbn [bind]. rewrite Hdecl.
  cbn [String.eqb Ascii.eqb Bool.eqb].
  destruct (isInRange_value sc declaratorId declarator "init" (snd (Node.range ident))
              Hwf Edecl Hinit) as (inInit & -> & HinInit); cbn [bind].
  destruct inInit.
  - exists true. split; [reflexivity|]. split; [intros _|reflexivity].
    left. now apply HinInit.
  - unfold parentOf. rewrite (getNode_Some _ _ _ Edecl); cbn [bind]. rewrite Hdparent.
    rewrite (getNode_Some _ _ _ Edeclaration); cbn [bind]. rewrite Hsparent.
    rewrite (getNode_Some _ _ _ Est); cbn [bind].
    destruct (FOR_IN_OF_TYPE (Node.type statement)).
    + destruct (isInRange_value sc statementId statement "right"
                  (snd (Node.range ident)) Hwf Est Hright) as (inRight & -> & HinRight).
      exists inRight. split; [reflexivity|]. rewrite HinRight. split.
      * intros H; right; split; [reflexivity|exact H].
      * intros [H|[_ H]]; [|exact H].
        apply HinInit in H. discriminate.
    + exists false. split; [reflexivity|]. split; [discriminate|].
      intros [H|[H _]]; [|discriminate].
      apply HinInit in H. discriminate.
Qed.

(** On [for (var a in a) {}] the right-hand [a] is evaluated during the
    initialization. *)
Lemma declarator_initialization_witness :
  isEvaluatedDuringInitialization forin_program 1 forin_read = Ok true.
Proof.
  pose proof (declarator_initialization
                forin_program 1 forin_read forin_a (Def.mk "Variable" 4 3) []
                (Programs.nodeAt forin_program 5) (Programs.nodeAt forin_program 4)
                3 (Programs.nodeAt forin_program 3)
                2 (Programs.nodeAt forin_program 2)
                1 (Programs.nodeAt forin_program 1)) as H.
  discharge H. destruct H as (b & Hb & Hiff).
  rewrite Hb. f_equal. apply Hiff. right. split; [reflexivity|].
  exists 5. split; [reflexivity|].
  eexists; split; [reflexivity|]. simpl; lia.
Defined.

(** X7.  For a name bound with a default value, a reference in the execution
    context of the binding that lies in the default value is evaluated
    during the initialization. *)
Theorem default_value_initialization
  sc fuel reference variable definition rest ident name patternId pattern :
  wf_ast sc = true ->
  0 < fuel ->
  isFromSeparateExecutionContext sc fuel reference = Ok false ->
  Reference.resolved reference = Some variable ->
  Var.defs variable = definition :: rest ->
  Def.type definition <> "ClassName" ->
  nth_error (ast sc) (Reference.identifier reference) = Some ident ->
  nth_error (ast sc) (Def.name definition) = Some name ->
  Node.parent name = Some patternId ->
  nth_error (ast sc) patternId = Some pattern ->
  Node.type pattern = "AssignmentPattern" ->
  inValue sc (prop pattern "right") (snd (Node.range ident)) ->
  isEvaluatedDuringInitialization sc fuel reference = Ok true.
Proof.
  intros Hwf Hfuel Hsame Hres Hdefs Htype Eident Ename Hparent Epat Hpat Hin.
  destruct fuel as [|fuel]; [lia|].
  unfold isEvaluatedDuringInitialization. rewrite Hsame; cbn [bind].
  rewrite (getNode_Some _ _ _ Eident); cbn [bind]. rewrite Hres, Hdefs.
  apply String.eqb_neq in Htype. rewrite Htype.
  unfold parentOf. rewrite (getNode_Some _ _ _ Ename); cbn [bind].
  rewrite Hparent. cbn [walkUp].
  rewrite (getNode_Some _ _ _ Epat); cbn [bind]. rewrite Hpat.
  cbn [String.eqb Ascii.eqb Bool.eqb].
  destruct Hin as (r & Hr & Hin). rewrite Hr.
  apply isInRange_true in Hin. rewrite Hin. reflexivity.
Qed.

(** On [var [a = a] = list;] the default value [a] is evaluated during the
    initialization. *)
Lemma default_value_initialization_witness :
  isEvaluatedDuringInitialization pattern_program 1 pattern_read = Ok true.
Proof.
  pose proof (default_value_initialization
                pattern_program 1 pattern_read pattern_a (Def.mk "Variable" 5 2) []
                (Programs.nodeAt pattern_program 6) (Programs.nodeAt pattern_program 5)
                4 (Programs.nodeAt pattern_program 4)) as H.
  discharge H. apply H.
  exists 6. split; [reflexivity|].
  eexists; split; [reflexivity|]. simpl; lia.
Defined.

(** ** no-use-before-define: exemptions of [shouldCheck] *)

Import CoverageTypes.

(** X8.  [isClassRefInClassDecorator] answers whether the first definition
    is a class and the identifier of the reference lies within one of the
    decorators of that class; a reference for which it answers [true] is not
    checked, unless it is the left end of a qualified name. *)
Theorem class_reference_in_own_decorator
  sc variable reference definition rest ident classNode :
  wf_ast sc = true ->
  Reference.resolved reference = Some variable ->
  Var.defs variable = definition :: rest ->
  nth_error (ast sc) (Reference.identifier reference) = Some ident ->
  nth_error (ast sc) (Def.node definition) = Some classNode ->
  match prop classNode "decorators" with
  | VArr _ | VUndefined | VNull => True
  | _ => False
  end ->
  exists b,
    isClassRefInClassDecorator sc variable reference = Ok b
    /\ (b = true
        <-> Def.type definition = "ClassName"
            /\ exists decorators deco dn,
                 prop classNode "decorators" = VArr decorators
                 /\ In deco decorators
                 /\ nth_error (ast sc) deco = Some dn
                 /\ encloses dn ident)
    /\ (forall options fuel pt,
          b = true ->
          parentType sc (Reference.identifier reference) = Ok pt ->
          pt <> "TSQualifiedName" ->
          shouldCheck sc options fuel reference <> Ok true).
Proof.
  intros Hwf Hres Hdefs Eident Eclass Hshape.
  assert (Hmain : exists b,
             isClassRefInClassDecorator sc variable reference = Ok b
             /\ (b = true
                 <-> Def.type definition = "ClassName"
                     /\ exists decorators deco dn,
                          prop classNode "decorators" = VArr decorators
                          /\ In deco decorators
                          /\ nth_error (ast sc) deco = Some dn
                          /\ encloses dn ident)).
  { unfold isClassRefInClassDecorator. rewrite Hdefs.
    destruct (String.eqb_spec (Def.type definition) "ClassName") as [Ht|Ht];
      cbn [negb].
    2:{ exists false. split; [reflexivity|]. split; [discriminate|].
        intros [H _]; contradiction. }
    rewrite (getNode_Some _ _ _ Eclass); cbn [bind].
    pose proof (wf_ast_prop _ _ _ "decorators" Hwf Eclass) as Hvalid.
    destruct (prop classNode "decorators") as [| | | | | |decorators] eqn:Hdeco;
      try contradiction;
      try (exists false; split; [reflexivity|]; split; [discriminate|];
           intros (_ & ds & deco & dn & Heq & _); discriminate).
    rewrite (getNode_Some _ _ _ Eident); cbn [bind].
    simpl in Hvalid. rewrite forallb_forall in Hvalid.
    match goal with
    | |- exists b, some ?f _ = _ /\ _ =>
        destruct (some_decides f
                    (fun deco => exists dn, nth_error (ast sc) deco = Some dn
                                            /\ encloses dn ident)
                    decorators) as (b & Hb & Hiff)
    end.
    - intros deco Hin. apply Hvalid, Nat.ltb_lt in Hin.
      destruct (getNode_valid _ _ Hin) as [dn Hdn]. rewrite Hdn; cbn [bind].
      apply getNode_Ok in Hdn.
      eexists; split; [reflexivity|]. unfold encloses. split.
      + intros H. apply andb_true_iff in H as [H1 H2].
        apply Nat.leb_le in H1, H2. eauto.
      + intros (dn' & Edn & H1 & H2). rewrite Hdn in Edn; injection Edn as <-.
        apply andb_true_iff; split; apply Nat.leb_le; assumption.
    - exists b. split; [exact Hb|]. rewrite Hiff. split.
      + intros (deco & Hin & dn & Edn & Henc). split; [assumption|].
        exists decorators, deco, dn. auto.
      + intros (_ & ds & deco & dn & Heq & Hin & Edn & Henc).
        injection Heq as <-. eauto. }
  destruct Hmain as (b & Hb & Hiff). exists b. split; [exact Hb|]. split; [exact Hiff|].
  intros options fuel pt -> Hpt Hnot H.
  unfold shouldCheck in H.
  destruct (Reference.init reference); [discriminate|].
  apply bind_ok in H as (namedExport & _ & H).
  destruct namedExport; [discriminate|].
  rewrite Hres, Hdefs in H. cbv zeta in H.
  destruct (negb (functions options) && _); [discriminate|].
  apply bind_ok in H as (upperScope & _ & H).
  destruct upperScope; [discriminate|].
  destruct (negb (enums options) && _); [discriminate|].
  destruct (negb (typedefs options) && _); [discriminate|].
  apply bind_ok in H as (typeReference & _ & H).
  destruct typeReference; [discriminate|].
  rewrite Hpt in H; cbn [bind] in H.
  apply String.eqb_neq in Hnot. rewrite Hnot in H.
  rewrite Hb in H. discriminate.
Qed.

(** On [@d(C) class C {}] the [C] in the decorator ends before the class
    name ends, and yet is not checked. *)
Lemma class_reference_in_own_decorator_witness :
  isClassRefInClassDecorator decorated_program decorated_C decorated_ref = Ok true
  /\ shouldCheck decorated_program Programs.defaults 3 decorated_ref <> Ok true.
Proof.
  pose proof (class_reference_in_own_decorator
                decorated_program decorated_C decorated_ref
                (Def.mk "ClassName" 6 1) []
                (Programs.nodeAt decorated_program 5)
                (Programs.nodeAt decorated_program 1)) as H.
  discharge H.
  destruct H as (b & Hb & Hiff & Hnot).
  assert (Hyes : b = true).
  { apply Hiff. split; [reflexivity|].
    exists [2], 2, (Programs.nodeAt decorated_program 2).
    repeat split; try reflexivity; simpl; auto; lia. }
  subst b. split; [exact Hb|].
  apply (Hnot Programs.defaults 3 "CallExpression" eq_refl eq_refl). discriminate.
Defined.

Lemma referenceContainsTypeQuery_reading sc fuel id :
  referenceContainsTypeQuery sc fuel (Some id) = Ok true
  <-> exists steps, steps < fuel /\ InTypeQuery sc id steps.
Proof.
  split.
  - revert id. induction fuel as [|fuel IH]; intros id H; [discriminate|].
    cbn [referenceContainsTypeQuery] in H.
    apply bind_ok in H as (n & Hn & H). apply getNode_Ok in Hn.
    destruct (String.eqb_spec (Node.type n) "TSTypeQuery") as [Hq|Hq].
    + exists 0. split; [lia|]. eapply query_here; eauto.
    + destruct (String.eqb_spec (Node.type n) "TSQualifiedName") as [Hn1|Hn1];
        [|destruct (String.eqb_spec (Node.type n) "Identifier") as [Hn2|Hn2]];
        cbn [orb] in H; try discriminate;
        (destruct (Node.parent n) as [p|] eqn:Hp;
         [|destruct fuel; discriminate]);
        destruct (IH _ H) as (steps & Hlt & Hq');
        exists (S steps); (split; [lia|]);
        eapply query_above; eauto.
  - intros (steps & Hlt & Hq). revert fuel Hlt.
    induction Hq as [id n En Ht|id n p steps En Ht Hp _ IH]; intros fuel Hlt;
      (destruct fuel as [|fuel]; [lia|]);
      cbn [referenceContainsTypeQuery];
      rewrite (getNode_Some _ _ _ En); cbn [bind].
    + now rewrite Ht.
    + replace (String.eqb (Node.type n) "TSTypeQuery") with false
        by (destruct Ht as [-> | ->]; reflexivity).
      replace (String.eqb (Node.type n) "TSQualifiedName"
               || String.eqb (Node.type n) "Identifier") with true
        by (destruct Ht as [-> | ->]; reflexivity).
      rewrite Hp. apply IH. lia.
Qed.

(** X9.  [referenceContainsTypeQuery] finds the type query above an
    identifier through identifiers and qualified names, and only through
    them; with [ignoreTypeReferences] such a reference is not checked. *)
Theorem reference_in_type_query sc options fuel reference :
  (referenceContainsTypeQuery sc fuel (Some (Reference.identifier reference)) = Ok true
   <-> exists steps,
         steps < fuel /\ InTypeQuery sc (Reference.identifier reference) steps)
  /\ (ignoreTypeReferences options = true ->
      referenceContainsTypeQuery sc fuel (Some (Reference.identifier reference))
      = Ok true ->
      shouldCheck sc options fuel reference <> Ok true).
Proof.
  split; [apply referenceContainsTypeQuery_reading|].
  intros Hignore Hquery H.
  unfold shouldCheck in H.
  destruct (Reference.init reference); [discriminate|].
  apply bind_ok in H as (namedExport & _ & H).
  destruct namedExport; [discriminate|].
  destruct (Reference.resolved reference) as [variable|]; [|discriminate].
  destruct (Var.defs variable) as [|definition rest]; [discriminate|].
  cbv zeta in H.
  destruct (negb (functions options) && _); [discriminate|].
  apply bind_ok in H as (upperScope & _ & H).
  destruct upperScope; [discriminate|].
  destruct (negb (enums options) && _); [discriminate|].
  destruct (negb (typedefs options) && _); [discriminate|].
  rewrite Hignore, Hquery in H. discriminate.
Qed.

(** On [type T = typeof a; const a = 1;] the [a] of the type query is not
    checked under the defaults, and is checked and reported with
    [{ ignoreTypeReferences: false }]. *)
Lemma reference_in_type_query_witness :
  shouldCheck query_program Programs.defaults 2 query_read <> Ok true
  /\ Program query_program Programs.defaults 2 1 0 = Ok []
  /\ Program query_program typeReferencesOn 2 1 0 = Ok [report query_read].
Proof.
  split; [|split; reflexivity].
  apply (reference_in_type_query query_program Programs.defaults 2 query_read);
    reflexivity.
Defined.

Import CoverageNames.

(** ** no-use-before-define: qualified names *)

Lemma leftmost_reading sc fuel q id :
  leftmost sc fuel (VNode q) = Ok (VNode id)
  <-> exists steps, steps < fuel /\ LeftEnd sc q steps id.
Proof.
  split.
  - revert q. induction fuel as [|fuel IH]; intros q H; [discriminate|].
    cbn [leftmost] in H.
    apply bind_ok in H as (n & Hn & H). apply getNode_Ok in Hn.
    destruct (String.eqb_spec (Node.type n) "TSQualifiedName") as [Ht|Ht].
    + destruct (prop n "left") as [| | | | |q'|] eqn:Hleft;
        try (destruct fuel; discriminate).
      destruct (IH _ H) as (steps & Hlt & Hend).
      exists (S steps). split; [lia|]. eapply left_step; eauto.
    + injection H as <-. exists 0. split; [lia|]. eapply left_end; eauto.
  - intros (steps & Hlt & Hend). revert fuel Hlt.
    induction Hend as [id n En Ht|q n q' steps id En Ht Hleft _ IH]; intros fuel Hlt;
      (destruct fuel as [|fuel]; [lia|]);
      cbn [leftmost]; rewrite (getNode_Some _ _ _ En); cbn [bind].
    + apply String.eqb_neq in Ht. now rewrite Ht.
    + rewrite Ht, Hleft. cbn [String.eqb Ascii.eqb Bool.eqb]. apply IH. lia.
Qed.

(** X22.  The loop of [shouldCheck] over qualified names follows [left]
    down to the first node that is no qualified name; an identifier whose
    parent is a qualified name is checked only when it is that node, the
    left end of the whole name. *)
Theorem qualified_name_checks_left_end_only sc options fuel reference pid :
  (forall q id,
     leftmost sc fuel (VNode q) = Ok (VNode id)
     <-> exists steps, steps < fuel /\ LeftEnd sc q steps id)
  /\ (parentOf sc (Reference.identifier reference) = Ok (Some pid) ->
      parentType sc (Reference.identifier reference) = Ok "TSQualifiedName" ->
      shouldCheck sc options fuel reference = Ok true ->
      exists steps,
        steps < fuel /\ LeftEnd sc pid steps (Reference.identifier reference)).
Proof.
  split; [intros q id; apply leftmost_reading|].
  intros Hparent Hpt H.
  unfold shouldCheck in H.
  destruct (Reference.init reference); [discriminate|].
  apply bind_ok in H as (namedExport & _ & H).
  destruct namedExport; [discriminate|].
  destruct (Reference.resolved reference) as [variable|]; [|discriminate].
  destruct (Var.defs variable) as [|definition rest]; [discriminate|].
  cbv zeta in H.
  destruct (negb (functions options) && _); [discriminate|].
  apply bind_ok in H as (upperScope & _ & H).
  destruct upperScope; [discriminate|].
  destruct (negb (enums options) && _); [discriminate|].
  destruct (negb (typedefs options) && _); [discriminate|].
  apply bind_ok in H as (typeReference & _ & H).
  destruct typeReference; [discriminate|].
  rewrite Hpt in H; cbn [bind String.eqb Ascii.eqb Bool.eqb] in H.
  rewrite Hparent in H; cbn [bind] in H.
  apply bind_ok in H as (currentNode & Hleft & H).
  injection H as H. unfold isNode in H.
  destruct currentNode as [| | | | |id|]; try discriminate.
  apply Nat.eqb_eq in H. subst id.
  now apply leftmost_reading.
Qed.

(** In [type T = A.B; namespace A {}] the reference to [A] is checked, and
    [A] is the left end of the name; a reference at [B] would not be. *)
Lemma qualified_name_checks_left_end_only_witness :
  (exists steps, steps < 3 /\ LeftEnd names_program 4 steps 5)
  /\ shouldCheck names_program Programs.defaults 3 names_right = Ok false.
Proof.
  split; [|reflexivity].
  apply (qualified_name_checks_left_end_only
           names_program Programs.defaults 3 names_left 4); reflexivity.
Defined.

(** ** quotes: what [convert] does to the text *)

Import Quotes QuotesReading QuotesPrograms.

Section QuotesConversion.

Local Open Scope string_scope.

Lemma isQuote_cases q :
  isQuote q = true -> q = DQUOTE \/ q = SQUOTE \/ q = BACKTICK.
Proof.
  unfold isQuote. intros H.
  destruct (Ascii.eqb_spec q DQUOTE); [auto|].
  destruct (Ascii.eqb_spec q SQUOTE); [auto|].
  destruct (Ascii.eqb_spec q BACKTICK); [auto|discriminate].
Qed.

Ltac escaped :=
  repeat first [ assumption
               | apply escaped_nil
               | apply escaped_crlf
               | apply escaped_pair
               | apply escaped_plain; [reflexivity | reflexivity | ] ].

Ltac quotes Hold Hnew Hne :=
  destruct (isQuote_cases _ Hold) as [ -> | [ -> | -> ] ];
  destruct (isQuote_cases _ Hnew) as [ -> | [ -> | -> ] ];
  try discriminate Hne.

Ltac cases :=
  repeat (cbn;
          match goal with
          | |- context [Ascii.eqb ?a ?b] =>
              match a with
              | _ => is_var a; destruct (Ascii.eqb_spec a b); subst
              end
          end);
  cbn.

Section Callback.
Variables oldQuote newQuote : ascii.
Hypothesis Hold : isQuote oldQuote = true.
Hypothesis Hnew : isQuote newQuote = true.
Hypothesis Hne : Ascii.eqb newQuote oldQuote = false.

Lemma cb_pair d R :
  Escaped (forbiddenAfter oldQuote newQuote) R ->
  Escaped (forbiddenAfter oldQuote newQuote)
    (replacer oldQuote newQuote (str2 BACKSLASH d) (Some (str1 d)) None ++ R).
Proof.
  intros HR. unfold replacer, option_eqb, str1, str2 in *.
  quotes Hold Hnew Hne; cases; escaped.
Qed.

Lemma cb_triple d e R :
  (d = DOLLAR /\ e = LBRACE) \/ (d = CR /\ e = LF) ->
  Escaped (forbiddenAfter oldQuote newQuote) R ->
  Escaped (forbiddenAfter oldQuote newQuote)
    (replacer oldQuote newQuote (String BACKSLASH (str2 d e)) (Some (str2 d e)) None
     ++ R).
Proof.
  intros Hde HR. unfold replacer, option_eqb, str1, str2 in *.
  destruct Hde as [[-> ->]|[-> ->]]; quotes Hold Hnew Hne; cbn; escaped.
Qed.

Lemma cb_quote c R :
  isQuote c = true ->
  Escaped (forbiddenAfter oldQuote newQuote) R ->
  Escaped (forbiddenAfter oldQuote newQuote)
    (replacer oldQuote newQuote (str1 c) None None ++ R).
Proof.
  intros Hc HR. unfold replacer, option_eqb, str1, str2 in *.
  destruct (isQuote_cases _ Hc) as [ -> | [ -> | -> ] ];
    quotes Hold Hnew Hne; cbn; escaped.
Qed.

Lemma cb_dollar_brace R :
  Escaped (forbiddenAfter oldQuote newQuote) R ->
  Escaped (forbiddenAfter oldQuote newQuote)
    (replacer oldQuote newQuote (str2 DOLLAR LBRACE) None None ++ R).
Proof.
  intros HR. unfold replacer, option_eqb, str1, str2 in *.
  quotes Hold Hnew Hne; cbn; escaped.
Qed.

Lemma cb_newline m R :
  m = str2 CR LF \/ m = str1 CR \/ m = str1 LF ->
  Escaped (forbiddenAfter oldQuote newQuote) R ->
  Escaped (forbiddenAfter oldQuote newQuote)
    (replacer oldQuote newQuote m None (Some m) ++ R).
Proof.
  intros Hm HR. unfold replacer, option_eqb, str1, str2 in *.
  destruct Hm as [ -> | [ -> | -> ] ]; quotes Hold Hnew Hne; cbn; escaped.
Qed.

Lemma plain_allowed c :
  Ascii.eqb c BACKSLASH = false -> isQuote c = false ->
  Ascii.eqb c CR = false -> Ascii.eqb c LF = false ->
  forbiddenAfter oldQuote newQuote c = false.
Proof.
  intros _ Hq Hcr Hlf. unfold forbiddenAfter. rewrite Hcr, Hlf.
  rewrite andb_false_r, orb_false_r.
  destruct (Ascii.eqb_spec c newQuote) as [->|]; [congruence|reflexivity].
Qed.

End Callback.

Lemma Escaped_after_backslash rest :
  Escaped anyCharacter (String BACKSLASH rest) ->
  exists d rest1, rest = String d rest1 /\ Escaped anyCharacter rest1.
Proof.
  intros H. inversion H as [|c s Hc _ _|c s Hs|s Hs]; subst.
  - discriminate.
  - eauto.
  - exists CR, (String LF s). split; [reflexivity|].
    apply escaped_plain; [reflexivity|reflexivity|assumption].
Qed.

Lemma Escaped_after_plain c rest :
  Ascii.eqb c BACKSLASH = false ->
  Escaped anyCharacter (String c rest) -> Escaped anyCharacter rest.
Proof.
  intros Hc H. inversion H; subst; try assumption; discriminate.
Qed.

Lemma replaceAll_escaped oldQuote newQuote :
  isQuote oldQuote = true -> isQuote newQuote = true ->
  Ascii.eqb newQuote oldQuote = false ->
  forall n s, String.length s <= n -> Escaped anyCharacter s ->
  Escaped (forbiddenAfter oldQuote newQuote) (replaceAll oldQuote newQuote s).
Proof.
  intros Hold Hnew Hne n.
  induction n as [|n IH]; intros s Hlen Hs.
  - destruct s; [constructor|simpl in Hlen; lia].
  - destruct s as [|c rest]; [constructor|].
    simpl in Hlen. cbn [replaceAll].
    destruct (Ascii.eqb_spec c BACKSLASH) as [->|Hc].
    + destruct (Escaped_after_backslash _ Hs) as (d & rest1 & -> & Hrest1).
      simpl in Hlen.
      assert (Hone : Escaped (forbiddenAfter oldQuote newQuote)
                       (replacer oldQuote newQuote (str2 BACKSLASH d) (Some (str1 d)) None
                        ++ replaceAll oldQuote newQuote rest1)).
      { apply cb_pair; try assumption. apply IH; [lia|assumption]. }
      destruct rest1 as [|e rest2]; [exact Hone|].
      destruct ((Ascii.eqb d DOLLAR && Ascii.eqb e LBRACE)
                || (Ascii.eqb d CR && Ascii.eqb e LF)) eqn:E; [|exact Hone].
      assert (Hde : (d = DOLLAR /\ e = LBRACE) \/ (d = CR /\ e = LF)).
      { apply orb_true_iff in E as [E|E]; apply andb_true_iff in E as [E1 E2];
          apply Ascii.eqb_eq in E1, E2; auto. }
      apply cb_triple; try assumption.
      apply IH; [simpl in Hlen; lia|].
      apply (Escaped_after_plain e); [|assumption].
      destruct Hde as [[_ ->]|[_ ->]]; reflexivity.
    + apply Ascii.eqb_neq in Hc.
      pose proof (Escaped_after_plain _ _ Hc Hs) as Hrest.
      assert (IHrest : Escaped (forbiddenAfter oldQuote newQuote)
                         (replaceAll oldQuote newQuote rest))
        by (apply IH; [lia|assumption]).
      destruct (isQuote c) eqn:Hq; [apply cb_quote; assumption|].
      destruct (Ascii.eqb_spec c DOLLAR) as [->|Hdollar].
      * assert (Hcopy : Escaped (forbiddenAfter oldQuote newQuote)
                          (String DOLLAR (replaceAll oldQuote newQuote rest))).
        { apply escaped_plain; [reflexivity| |assumption].
          apply plain_allowed; auto. }
        destruct rest as [|d rest1]; [exact Hcopy|].
        destruct (Ascii.eqb_spec d LBRACE) as [->|_]; [|exact Hcopy].
        apply cb_dollar_brace; try assumption.
        apply IH; [simpl in Hlen; lia|].
        apply (Escaped_after_plain LBRACE); [reflexivity|assumption].
      * destruct (Ascii.eqb_spec c CR) as [->|Hcr].
        -- destruct rest as [|d rest1];
             [apply (cb_newline _ _ Hold Hnew Hne (str1 CR)); auto|].
           destruct (Ascii.eqb_spec d LF) as [->|_].
           ++ apply (cb_newline _ _ Hold Hnew Hne (str2 CR LF)); auto.
              apply IH; [simpl in Hlen; lia|].
              apply (Escaped_after_plain LF); [reflexivity|assumption].
           ++ apply (cb_newline _ _ Hold Hnew Hne (str1 CR)); auto.
        -- destruct (Ascii.eqb_spec c LF) as [->|Hlf].
           ++ apply (cb_newline _ _ Hold Hnew Hne (str1 LF)); auto.
           ++ apply escaped_plain; [assumption| |assumption].
              apply plain_allowed; auto; now apply Ascii.eqb_neq.
Qed.

Lemma dropLast_app s c : dropLast (s ++ str1 c) = s.
Proof.
  induction s as [|a s IH]; [reflexivity|].
  cbn [append dropLast]. rewrite IH.
  destruct s; reflexivity.
Qed.

Lemma slice_body oldQuote body last :
  slice_1_m1 (String oldQuote (body ++ str1 last)) = body.
Proof. apply dropLast_app. Qed.

(** X10.  A conversion leaves the new quote nowhere bare.  When the text
    between the old quotes is made of escapes and other characters, with no
    backslash dangling at its end, the text between the new quotes is again
    made of escapes and other characters, and none of the other characters
    is the new quote or, when the old quote is the backtick, a line
    break. *)
Theorem convert_escapes key oldQuote body last :
  isQuote oldQuote = true ->
  Ascii.eqb (quote (QUOTE_SETTINGS key)) oldQuote = false ->
  Escaped anyCharacter body ->
  exists out,
    convert (QUOTE_SETTINGS key) (String oldQuote (body ++ str1 last))
    = String (quote (QUOTE_SETTINGS key)) (out ++ str1 (quote (QUOTE_SETTINGS key)))
    /\ Escaped (forbiddenAfter oldQuote (quote (QUOTE_SETTINGS key))) out.
Proof.
  intros Hold Hne Hbody.
  exists (replaceAll oldQuote (quote (QUOTE_SETTINGS key)) body). split.
  - unfold convert. rewrite Hne, slice_body. reflexivity.
  - apply replaceAll_escaped with (n := String.length body); auto.
    destruct key; reflexivity.
Qed.


Ltac closed :=
  repeat first [ assumption
               | apply closed_nil
               | apply closed_pair
               | apply closed_plain; [reflexivity | (intros _; reflexivity) || (intros; discriminate) | ] ].

Section Closed.
Variable oldQuote : ascii.
Hypothesis Hold : isQuote oldQuote = true.
Hypothesis Hne : Ascii.eqb BACKTICK oldQuote = false.

Ltac old := destruct (isQuote_cases _ Hold) as [ -> | [ -> | -> ] ]; try discriminate Hne.

Lemma closed_pair_cb b d R :
  NoInterpolation false R ->
  NoInterpolation b
    (replacer oldQuote BACKTICK (str2 BACKSLASH d) (Some (str1 d)) None ++ R).
Proof.
  intros HR. unfold replacer, option_eqb, str1, str2 in *.
  old; cases; closed.
Qed.

Lemma closed_triple_cb b d e R :
  (d = DOLLAR /\ e = LBRACE) \/ (d = CR /\ e = LF) ->
  NoInterpolation false R ->
  NoInterpolation b
    (replacer oldQuote BACKTICK (String BACKSLASH (str2 d e)) (Some (str2 d e)) None
     ++ R).
Proof.
  intros Hde HR. unfold replacer, option_eqb, str1, str2 in *.
  destruct Hde as [[-> ->]|[-> ->]]; old; cbn; closed.
Qed.

Lemma closed_quote_cb b c R :
  isQuote c = true ->
  NoInterpolation false R ->
  NoInterpolation b (replacer oldQuote BACKTICK (str1 c) None None ++ R).
Proof.
  intros Hc HR. unfold replacer, option_eqb, str1, str2 in *.
  destruct (isQuote_cases _ Hc) as [ -> | [ -> | -> ] ]; old; cbn; closed.
Qed.

Lemma closed_dollar_brace_cb b R :
  NoInterpolation false R ->
  NoInterpolation b (replacer oldQuote BACKTICK (str2 DOLLAR LBRACE) None None ++ R).
Proof.
  intros HR. unfold replacer, option_eqb, str1, str2 in *.
  old; cbn; closed.
Qed.

Lemma closed_newline_cb b m R :
  m = str2 CR LF \/ m = str1 CR \/ m = str1 LF ->
  NoInterpolation false R ->
  NoInterpolation b (replacer oldQuote BACKTICK m None (Some m) ++ R).
Proof.
  intros Hm HR. unfold replacer, option_eqb, str1, str2 in *.
  destruct Hm as [ -> | [ -> | -> ] ]; old; cbn; closed.
Qed.

Lemma replaceAll_closed :
  forall n s b, String.length s <= n -> Escaped anyCharacter s ->
  (b = true -> startsWithBrace s = false) ->
  NoInterpolation b (replaceAll oldQuote BACKTICK s).
Proof.
  induction n as [|n IH]; intros s b Hlen Hs Hb.
  - destruct s; [constructor|simpl in Hlen; lia].
  - destruct s as [|c rest]; [constructor|].
    simpl in Hlen. cbn [replaceAll].
    destruct (Ascii.eqb_spec c BACKSLASH) as [->|Hc].
    + destruct (Escaped_after_backslash _ Hs) as (d & rest1 & -> & Hrest1).
      simpl in Hlen.
      assert (Hone : NoInterpolation b
                       (replacer oldQuote BACKTICK (str2 BACKSLASH d) (Some (str1 d)) None
                        ++ replaceAll oldQuote BACKTICK rest1)).
      { apply closed_pair_cb. apply IH; [lia|assumption|discriminate]. }
      destruct rest1 as [|e rest2]; [exact Hone|].
      destruct ((Ascii.eqb d DOLLAR && Ascii.eqb e LBRACE)
                || (Ascii.eqb d CR && Ascii.eqb e LF)) eqn:E; [|exact Hone].
      assert (Hde : (d = DOLLAR /\ e = LBRACE) \/ (d = CR /\ e = LF)).
      { apply orb_true_iff in E as [E|E]; apply andb_true_iff in E as [E1 E2];
          apply Ascii.eqb_eq in E1, E2; auto. }
      apply closed_triple_cb; [assumption|].
      apply IH; [simpl in Hlen; lia| |discriminate].
      apply (Escaped_after_plain e); [|assumption].
      destruct Hde as [[_ ->]|[_ ->]]; reflexivity.
    + apply Ascii.eqb_neq in Hc.
      pose proof (Escaped_after_plain _ _ Hc Hs) as Hrest.
      assert (IHrest : NoInterpolation false (replaceAll oldQuote BACKTICK rest))
        by (apply IH; [lia|assumption|discriminate]).
      destruct (isQuote c) eqn:Hq; [apply closed_quote_cb; assumption|].
      destruct (Ascii.eqb_spec c DOLLAR) as [->|Hdollar].
      * assert (Hcopy : startsWithBrace rest = false ->
                        NoInterpolation b
                          (String DOLLAR (replaceAll oldQuote BACKTICK rest))).
        { intros Hnb. apply closed_plain; [reflexivity|intros _; reflexivity|].
          apply IH; [lia|assumption|intros _; exact Hnb]. }
        destruct rest as [|d rest1]; [apply Hcopy; reflexivity|].
        destruct (Ascii.eqb_spec d LBRACE) as [->|Hd].
        -- apply closed_dollar_brace_cb.
           apply IH; [simpl in Hlen; lia| |discriminate].
           apply (Escaped_after_plain LBRACE); [reflexivity|assumption].
        -- apply Hcopy. now apply Ascii.eqb_neq.
      * destruct (Ascii.eqb_spec c CR) as [->|Hcr].
        -- destruct rest as [|d rest1];
             [apply (closed_newline_cb b (str1 CR)); auto|].
           destruct (Ascii.eqb_spec d LF) as [->|_].
           ++ apply (closed_newline_cb b (str2 CR LF)); auto.
              apply IH; [simpl in Hlen; lia| |discriminate].
              apply (Escaped_after_plain LF); [reflexivity|assumption].
           ++ apply (closed_newline_cb b (str1 CR)); auto.
        -- destruct (Ascii.eqb_spec c LF) as [->|Hlf].
           ++ apply (closed_newline_cb b (str1 LF)); auto.
           ++ apply closed_plain; [assumption| |].
              ** intros ->. exact (Hb eq_refl).
              ** apply Ascii.eqb_neq in Hdollar. rewrite Hdollar. exact IHrest.
Qed.

End Closed.

Lemma unslashed_app a b : unslashed (a ++ b) = unslashed a ++ unslashed b.
Proof.
  induction a as [|c a IH]; [reflexivity|].
  cbn [append unslashed]. rewrite IH. now destruct (Ascii.eqb c BACKSLASH).
Qed.

Lemma replacer_unslashed oldQuote newQuote matched escaped newline :
  Ascii.eqb oldQuote BACKTICK = false ->
  (escaped = None \/ matched = String BACKSLASH
                                 (match escaped with Some e => e | None => "" end)) ->
  unslashed (replacer oldQuote newQuote matched escaped newline) = unslashed matched.
Proof.
  intros Hold Hshape. unfold replacer. rewrite Hold.
  rewrite andb_false_l, andb_false_r, orb_false_r.
  destruct (option_eqb escaped (str1 oldQuote)) eqn:E.
  - destruct escaped as [e|]; [|discriminate].
    destruct Hshape as [H | ->]; [discriminate|]. reflexivity.
  - destruct (_ || _); reflexivity.
Qed.

Lemma replaceAll_unslashed oldQuote newQuote :
  Ascii.eqb oldQuote BACKTICK = false ->
  forall n s, String.length s <= n ->
  unslashed (replaceAll oldQuote newQuote s) = unslashed s.
Proof.
  intros Hold n.
  induction n as [|n IH]; intros s Hlen.
  - destruct s; [reflexivity|simpl in Hlen; lia].
  - destruct s as [|c rest]; [reflexivity|].
    simpl in Hlen. cbn [replaceAll].
    destruct (Ascii.eqb_spec c BACKSLASH) as [->|Hc].
    + destruct rest as [|d rest1]; [reflexivity|]. simpl in Hlen.
      assert (Hone : unslashed
                       (replacer oldQuote newQuote (str2 BACKSLASH d) (Some (str1 d)) None
                        ++ replaceAll oldQuote newQuote rest1)
                     = unslashed (String BACKSLASH (String d rest1))).
      { rewrite unslashed_app, replacer_unslashed, IH by (auto; lia).
        rewrite <- unslashed_app. reflexivity. }
      destruct rest1 as [|e rest2]; [exact Hone|].
      destruct (_ || _); [|exact Hone].
      rewrite unslashed_app, replacer_unslashed, IH by (auto; simpl in Hlen; lia).
      rewrite <- unslashed_app. reflexivity.
    + assert (Hcopy : unslashed (String c (replaceAll oldQuote newQuote rest))
                      = unslashed (String c rest)).
      { cbn [unslashed]. rewrite IH by lia. reflexivity. }
      assert (Hcb : forall nl,
                 unslashed (replacer oldQuote newQuote (str1 c) None nl
                            ++ replaceAll oldQuote newQuote rest)
                 = unslashed (String c rest)).
      { intros nl. rewrite unslashed_app, replacer_unslashed, IH by (auto; lia).
        rewrite <- unslashed_app. reflexivity. }
      assert (Hcb2 : forall d rest1 nl,
                 rest = String d rest1 ->
                 unslashed (replacer oldQuote newQuote (str2 c d) None nl
                            ++ replaceAll oldQuote newQuote rest1)
                 = unslashed (String c rest)).
      { intros d rest1 nl ->. simpl in Hlen.
        rewrite unslashed_app, replacer_unslashed, IH by (auto; lia).
        rewrite <- unslashed_app. reflexivity. }
      destruct (isQuote c); [apply Hcb|].
      destruct (Ascii.eqb c DOLLAR).
      * destruct rest as [|d rest1]; [exact Hcopy|].
        destruct (Ascii.eqb d LBRACE); [now apply Hcb2|exact Hcopy].
      * destruct (Ascii.eqb c CR).
        -- destruct rest as [|d rest1]; [apply Hcb|].
           destruct (Ascii.eqb d LF); [now apply Hcb2|apply Hcb].
        -- destruct (Ascii.eqb c LF); [apply Hcb|exact Hcopy].
Qed.

(** X12.  A conversion of a text that is not in backticks changes
    backslashes only: with the backslashes left out on both sides, the
    result is the text between the old quotes, put between the new
    quotes. *)
Theorem convert_keeps_characters key oldQuote body last :
  Ascii.eqb oldQuote BACKTICK = false ->
  Ascii.eqb (quote (QUOTE_SETTINGS key)) oldQuote = false ->
  unslashed (convert (QUOTE_SETTINGS key) (String oldQuote (body ++ str1 last)))
  = String (quote (QUOTE_SETTINGS key))
      (unslashed body ++ str1 (quote (QUOTE_SETTINGS key))).
Proof.
  intros Hold Hne. unfold convert. rewrite Hne, slice_body.
  assert (Hq : Ascii.eqb (quote (QUOTE_SETTINGS key)) BACKSLASH = false)
    by (destruct key; reflexivity).
  cbn [unslashed]. rewrite Hq, unslashed_app.
  rewrite (replaceAll_unslashed _ _ Hold (String.length body)) by lia.
  unfold str1. cbn [unslashed]. now rewrite Hq.
Qed.

Section Linebreaks.
Variable LINEBREAKS : list ascii.
Hypothesis no_backslash : existsb (Ascii.eqb BACKSLASH) LINEBREAKS = false.

Lemma linebreak_In c :
  existsb (Ascii.eqb c) LINEBREAKS = true <-> In c LINEBREAKS.
Proof.
  rewrite existsb_exists. split.
  - intros (x & Hx & E). apply Ascii.eqb_eq in E. now subst.
  - intros H. exists c. split; [assumption|apply Ascii.eqb_refl].
Qed.

Lemma linebreak_not_backslash lb : In lb LINEBREAKS -> lb <> BACKSLASH.
Proof.
  intros H ->. apply linebreak_In in H. congruence.
Qed.

Lemma even_double k : Nat.even k = true -> exists h, k = 2 * h.
Proof.
  intros H. apply Nat.even_spec in H. destruct H as [h ->]. eauto.
Qed.

Lemma unescapedLinebreak_reading s :
  forall even, unescapedLinebreak LINEBREAKS even s = true <-> linebreakAhead LINEBREAKS even s.
Proof.
  induction s as [|c rest IH]; intros even.
  - simpl. split; [discriminate|].
    intros [(k & lb & after & _ & _ & H)|(before & c & k & lb & after & _ & _ & H)].
    + destruct k; discriminate.
    + destruct before; discriminate.
  - cbn [unescapedLinebreak].
    destruct (existsb (Ascii.eqb c) LINEBREAKS) eqn:Hlb.
    + (* a line break *)
      apply linebreak_In in Hlb.
      pose proof (linebreak_not_backslash _ Hlb) as Hnb.
      rewrite orb_true_iff, IH. split.
      * intros [->|[(k & lb & after & Hin & Hev & ->)|(before & c' & k & lb & after & Hin & Hc' & ->)]].
        -- left. exists 0, c, rest. auto.
        -- right. destruct (even_double _ Hev) as [h ->].
           exists EmptyString, c, h, lb, after. auto.
        -- right. exists (String c before), c', k, lb, after. auto.
      * intros [(k & lb & after & Hin & Hev & H)|(before & c' & k & lb & after & Hin & Hc' & H)].
        -- destruct k as [|k]; cbn [backslashes append] in H.
           ++ left. now rewrite <- Hev.
           ++ injection H; intros; subst. contradiction.
        -- destruct before as [|b before]; cbn [append] in H;
             injection H; intros; subst.
           ++ right. left. exists (2 * k), lb, after.
              repeat split; auto. apply Nat.even_spec. now exists k.
           ++ right. right. exists before, c', k, lb, after. auto.
    + destruct (Ascii.eqb_spec c BACKSLASH) as [->|Hc].
      * rewrite IH. split.
        -- intros [(k & lb & after & Hin & Hev & ->)|(before & c' & k & lb & after & Hin & Hc' & ->)].
           ++ left. exists (S k), lb, after. repeat split; auto.
              rewrite Nat.even_succ, <- Nat.negb_even, Hev. apply negb_involutive.
           ++ right. exists (String BACKSLASH before), c', k, lb, after. auto.
        -- intros [(k & lb & after & Hin & Hev & H)|(before & c' & k & lb & after & Hin & Hc' & H)].
           ++ destruct k as [|k]; cbn [backslashes append] in H;
                injection H; intros; subst.
              ** apply linebreak_In in Hin. congruence.
              ** left. exists k, lb, after. repeat split; auto.
                 rewrite Nat.even_succ, <- Nat.negb_even.
                 now rewrite negb_involutive.
           ++ destruct before as [|b before]; cbn [append] in H;
                injection H; intros; subst.
              ** congruence.
              ** right. exists before, c', k, lb, after. auto.
      * rewrite IH. split.
        -- intros [(k & lb & after & Hin & Hev & ->)|(before & c' & k & lb & after & Hin & Hc' & ->)].
           ++ right. destruct (even_double _ Hev) as [h ->].
              exists EmptyString, c, h, lb, after. auto.
           ++ right. exists (String c before), c', k, lb, after. auto.
        -- intros [(k & lb & after & Hin & Hev & H)|(before & c' & k & lb & after & Hin & Hc' & H)].
           ++ destruct k as [|k]; cbn [backslashes append] in H;
                injection H; intros; subst.
              ** apply linebreak_In in Hin. congruence.
              ** congruence.
           ++ destruct before as [|b before]; cbn [append] in H;
                injection H; intros; subst.
              ** left. exists (2 * k), lb, after.
                 repeat split; auto. apply Nat.even_spec. now exists k.
              ** right. exists before, c', k, lb, after. auto.
Qed.

End Linebreaks.

(** The scan of [UNESCAPED_LINEBREAK_PATTERN] finds every match of the
    regular expression as it is written. *)
Lemma linebreak_pattern_found LINEBREAKS s :
  existsb (Ascii.eqb BACKSLASH) LINEBREAKS = false ->
  hasUnescapedLinebreak LINEBREAKS s ->
  UNESCAPED_LINEBREAK_PATTERN LINEBREAKS s = true.
Proof.
  intros no_backslash (k & lb & after & Hin & H).
  unfold UNESCAPED_LINEBREAK_PATTERN.
  apply (unescapedLinebreak_reading LINEBREAKS no_backslash).
  destruct H as [->|(before & c & Hc & ->)].
  - left. exists (2 * k), lb, after. repeat split; auto.
    apply Nat.even_spec. now exists k.
  - right. exists before, c, k, lb, after. auto.
Qed.

(** X13.  The test of [UNESCAPED_LINEBREAK_PATTERN] succeeds exactly on the
    texts the regular expression describes: a line break that comes after an
    even number of backslashes, the run of backslashes starting the text or
    following a character that is no backslash. *)
Theorem unescaped_linebreak_pattern LINEBREAKS s :
  existsb (Ascii.eqb BACKSLASH) LINEBREAKS = false ->
  UNESCAPED_LINEBREAK_PATTERN LINEBREAKS s = true
  <-> hasUnescapedLinebreak LINEBREAKS s.
Proof.
  intros no_backslash. split; [|now apply linebreak_pattern_found].
  unfold UNESCAPED_LINEBREAK_PATTERN. intros H.
  apply (unescapedLinebreak_reading LINEBREAKS no_backslash) in H.
  destruct H as [(k & lb & after & Hin & Hev & ->)
                |(before & c & k & lb & after & Hin & Hc & ->)].
  - destruct (even_double _ Hev) as [h ->].
    exists h, lb, after. split; [assumption|now left].
  - exists k, lb, after. split; [assumption|].
    right. exists before, c. split; [assumption|reflexivity].
Qed.

(** On a template text of two lines, the second one reached through an
    escaped backslash. *)
Lemma unescaped_linebreak_pattern_witness :
  UNESCAPED_LINEBREAK_PATTERN [CR; LF]
    (String "a" (String BACKSLASH (String BACKSLASH (String LF "b")))) = true.
Proof.
  apply (unescaped_linebreak_pattern [CR; LF]); [reflexivity|].
  exists 1, LF, "b". split; [right; left; reflexivity|].
  right. exists EmptyString, "a"%char. split; [discriminate|reflexivity].
Defined.

(** ** quotes: the ends of a converted text *)

Lemma lastChar_app s c : lastChar (s ++ str1 c) = Some c.
Proof.
  induction s as [|a s IH]; [reflexivity|].
  cbn [append lastChar]. rewrite IH.
  destruct s; reflexivity.
Qed.

Lemma surroundedBy_wrap q s : surroundedBy (String q (s ++ str1 q)) q = true.
Proof.
  unfold surroundedBy.
  change (String q (s ++ str1 q)) with (String q s ++ str1 q) at 1.
  rewrite lastChar_app, Ascii.eqb_refl. reflexivity.
Qed.

Lemma convert_wraps settings str :
  String.get 0 str <> Some (quote settings) ->
  exists out, convert settings str
              = String (quote settings) (out ++ str1 (quote settings)).
Proof.
  intros H. unfold convert. destruct str as [|oldQuote rest].
  - exists EmptyString. reflexivity.
  - destruct (Ascii.eqb_spec (quote settings) oldQuote) as [E|_].
    + exfalso. apply H. cbn. now rewrite E.
    + eexists. reflexivity.
Qed.

(** A text that does not begin with the preferred quote comes out of
    [convert] with that quote at both ends. *)
Lemma convert_surrounds settings str :
  String.get 0 str <> Some (quote settings) ->
  surroundedBy (convert settings str) (quote settings) = true.
Proof.
  intros H. destruct (convert_wraps settings str H) as [out ->].
  apply surroundedBy_wrap.
Qed.

Lemma convert_surrounds_witness :
  surroundedBy (convert (QUOTE_SETTINGS single) (String DQUOTE ("a" ++ str1 DQUOTE)))
    SQUOTE = true.
Proof.
  apply (convert_surrounds (QUOTE_SETTINGS single)). discriminate.
Defined.

(** ** quotes: what the handlers report *)

(** X14.  The fix of a reported string literal settles it. For a literal
    whose raw text has the same character at both ends, the fix replaces the
    whole literal by a text with the preferred quote at both ends, and a
    literal with that raw text is not reported any more, whatever surrounds
    it. *)
Theorem literal_fix_is_final
  sc isParenthesised isTopLevelExpressionStatement isSurroundedBy
  hasOctalOrNonOctalDecimalEscapeSequence quoteOption options
  node n q0 body problem edit :
  (forall s c, isSurroundedBy s c = surroundedBy s c) ->
  getNode sc node = Ok n ->
  prop n "raw" = VStr (String q0 (body ++ str1 q0)) ->
  Literal sc isParenthesised isTopLevelExpressionStatement isSurroundedBy
    hasOctalOrNonOctalDecimalEscapeSequence quoteOption options node
  = Ok (Some problem) ->
  fix_ problem = Some edit ->
  range edit = Node.range n
  /\ surroundedBy (text edit) (quote (settings quoteOption)) = true
  /\ forall sc' isParenthesised' isTopLevelExpressionStatement' options' node' n' problem',
       getNode sc' node' = Ok n' ->
       prop n' "raw" = VStr (text edit) ->
       Literal sc' isParenthesised' isTopLevelExpressionStatement' isSurroundedBy
         hasOctalOrNonOctalDecimalEscapeSequence quoteOption options' node'
       <> Ok (Some problem').
Proof.
  intros Hsur Hn Hraw H Hfix.
  unfold Literal in H. rewrite Hn in H; cbn [bind] in H.
  destruct (isString (prop n "value")); [|discriminate].
  rewrite Hraw in H.
  apply bind_ok in H as (allowed & _ & H).
  apply bind_ok in H as (jsx & _ & H).
  destruct (jsx || isSurroundedBy _ _) eqn:Hvalid;
    [cbn [negb andb] in H; discriminate|].
  apply orb_false_iff in Hvalid as [_ Hvalid]. rewrite Hsur in Hvalid.
  assert (Hq0 : String.get 0 (String q0 (body ++ str1 q0))
                <> Some (quote (settings quoteOption))).
  { cbn [String.get]. intros E. injection E as ->.
    rewrite surroundedBy_wrap in Hvalid. discriminate. }
  pose proof (convert_surrounds (settings quoteOption) _ Hq0) as Hfixed.
  remember (convert (settings quoteOption) (String q0 (body ++ str1 q0)))
    as fixed eqn:Efixed.
  clear Efixed.
  destruct (negb _); [|discriminate]. injection H as <-.
  cbn [fix_] in Hfix. destruct (_ && _); [discriminate|]. injection Hfix as <-.
  cbn [range text].
  split; [reflexivity|]. split; [exact Hfixed|].
  intros sc' isParenthesised' isTop' options' node' n' problem' Hn' Hraw' H'.
  unfold Literal in H'. rewrite Hn' in H'; cbn [bind] in H'.
  destruct (isString (prop n' "value")); [|discriminate].
  rewrite Hraw' in H'.
  apply bind_ok in H' as (allowed' & _ & H').
  apply bind_ok in H' as (jsx' & _ & H').
  rewrite (Hsur _ (quote (settings quoteOption))), Hfixed, orb_true_r in H'.
  cbn [negb andb] in H'. discriminate.
Qed.

(** The literal in double quotes of ['use strict'; ("a");] under the
    option [single]. *)
Lemma literal_fix_is_final_witness :
  exists problem edit,
    Literal strict_program strict_isParenthesised strict_isTopLevel surroundedBy
      (fun _ => false) (Some single) NoOption 4 = Ok (Some problem)
    /\ fix_ problem = Some edit
    /\ range edit = (15, 18)
    /\ surroundedBy (text edit) SQUOTE = true.
Proof.
  eexists. eexists.
  pose proof (literal_fix_is_final
                strict_program strict_isParenthesised strict_isTopLevel surroundedBy
                (fun _ => false) (Some single) NoOption
                4 (Programs.nodeAt strict_program 4) DQUOTE "a") as H.
  specialize (H _ _ (fun _ _ => eq_refl) eq_refl eq_refl eq_refl eq_refl).
  destruct H as (Hrange & Hsur & _).
  split; [reflexivity|]. split; [reflexivity|]. split; [exact Hrange|exact Hsur].
Defined.

(** X15.  The option [avoidEscape] only spares literals. A literal reported
    with it is reported, with the same problem, without it; and of the
    literals reported without it, it spares exactly those in the alternate
    quote whose text contains the preferred quote. *)
Theorem avoid_escape_only_spares
  sc isParenthesised isTopLevelExpressionStatement isSurroundedBy
  hasOctalOrNonOctalDecimalEscapeSequence quoteOption options options'
  node n raw problem :
  avoidEscapeOf options = true ->
  avoidEscapeOf options' = false ->
  getNode sc node = Ok n ->
  prop n "raw" = VStr raw ->
  Literal sc isParenthesised isTopLevelExpressionStatement isSurroundedBy
    hasOctalOrNonOctalDecimalEscapeSequence quoteOption options node
  = Ok (Some problem)
  <-> Literal sc isParenthesised isTopLevelExpressionStatement isSurroundedBy
        hasOctalOrNonOctalDecimalEscapeSequence quoteOption options' node
      = Ok (Some problem)
      /\ isSurroundedBy raw (alternateQuote (settings quoteOption))
         && includes raw (quote (settings quoteOption)) = false.
Proof.
  intros Hon Hoff Hn Hraw. unfold Literal, avoidEscape.
  rewrite Hn, Hon, Hoff; cbn [bind].
  destruct (isString (prop n "value")); [|split; [|intros []]; discriminate].
  rewrite Hraw.
  destruct (if isBacktick quoteOption
            then isAllowedAsNonBacktick sc isParenthesised
                   isTopLevelExpressionStatement node
            else Ok false) as [allowed|e]; cbn [bind];
    [|split; [|intros []]; discriminate].
  destruct (if allowed then Ok true else isJSXLiteral sc node) as [jsx|e];
    cbn [bind]; [|split; [|intros []]; discriminate].
  destruct (jsx || isSurroundedBy raw (quote (settings quoteOption)));
    cbn [negb andb]; [split; [|intros []]; discriminate|].
  destruct (isSurroundedBy raw (alternateQuote (settings quoteOption))
            && includes raw (quote (settings quoteOption)));
    cbn [negb]; split; try discriminate; intuition discriminate || auto.
Qed.

Lemma avoid_escape_only_spares_witness :
  Literal strict_program strict_isParenthesised strict_isTopLevel surroundedBy
    (fun _ => false) (Some single) NoOption 4
  = Ok (Some {| node := 4;
                messageId := "wrongQuotes";
                data_description := "singlequote";
                fix_ := Some (mkEdit (15, 18)
                                (String SQUOTE ("a" ++ str1 SQUOTE))) |}).
Proof.
  pose proof (avoid_escape_only_spares
                strict_program strict_isParenthesised strict_isTopLevel surroundedBy
                (fun _ => false) (Some single) AvoidEscapeString NoOption
                4 (Programs.nodeAt strict_program 4)
                (String DQUOTE ("a" ++ str1 DQUOTE))
                {| node := 4;
                   messageId := "wrongQuotes";
                   data_description := "singlequote";
                   fix_ := Some (mkEdit (15, 18)
                                   (String SQUOTE ("a" ++ str1 SQUOTE))) |}
                eq_refl eq_refl eq_refl eq_refl) as [H _].
  exact (proj1 (H eq_refl)).
Defined.

(** X16.  A reported template literal uses no feature of template literals:
    the preferred quote is not the backtick, template literals are not
    allowed by the options, it is not the quasi of a tagged template, it has
    no interpolated expression, and the raw text of its first quasi has no
    line break after an even number of backslashes. *)
Theorem reported_template_is_plain
  sc isParenthesised isTopLevelExpressionStatement LINEBREAKS getText
  quoteOption options node problem :
  existsb (Ascii.eqb BACKSLASH) LINEBREAKS = false ->
  TemplateLiteral sc isParenthesised isTopLevelExpressionStatement LINEBREAKS getText
    quoteOption options node = Ok (Some problem) ->
  quoteOption <> Some backtick
  /\ allowTemplateLiteralsOf options = false
  /\ exists n pid pn,
       getNode sc node = Ok n
       /\ parentNode sc node = Ok (pid, pn)
       /\ (Node.type pn = "TaggedTemplateExpression" -> prop pn "quasi" <> VNode node)
       /\ prop n "expressions" = VArr []
       /\ forall quasi rest q raw,
            prop n "quasis" = VArr (quasi :: rest) ->
            getNode sc quasi = Ok q ->
            prop q "value.raw" = VStr raw ->
            ~ hasUnescapedLinebreak LINEBREAKS raw.
Proof.
  intros Hlb H. unfold TemplateLiteral, allowTemplateLiterals in H.
  apply bind_ok in H as (skip & Hskip & H). destruct skip; [discriminate|].
  apply bind_ok in H as (n & Hn & H).
  apply bind_ok in H as ([pid pn] & Hp & _).
  destruct (allowTemplateLiteralsOf options); [discriminate|].
  destruct (isBacktick quoteOption) eqn:Hbt; [discriminate|].
  cbn [orb] in Hskip.
  split; [intros ->; discriminate|]. split; [reflexivity|].
  exists n, pid, pn. split; [assumption|]. split; [assumption|].
  unfold isUsingFeatureOfTemplateLiteral in Hskip.
  rewrite Hn, Hp in Hskip; cbn [bind snd] in Hskip.
  destruct (String.eqb (Node.type pn) "TaggedTemplateExpression"
            && NoUseBeforeDefine.isNode (prop pn "quasi") node) eqn:Htag;
    [discriminate|].
  split.
  { intros Ht Hq. rewrite Ht, Hq in Htag. cbn in Htag.
    rewrite Nat.eqb_refl in Htag. discriminate. }
  destruct (prop n "expressions") as [| | | | | |expressions]; try discriminate.
  destruct expressions as [|e es]; [|discriminate].
  split; [reflexivity|].
  intros quasi rest q raw Hquasis Hq Hrawq Hbreak.
  cbn [List.length Nat.ltb Nat.leb] in Hskip.
  rewrite Hquasis, Hq in Hskip; cbn [bind] in Hskip. rewrite Hrawq in Hskip.
  apply (linebreak_pattern_found LINEBREAKS raw Hlb) in Hbreak.
  rewrite Hbreak in Hskip. discriminate.
Qed.

(** The template literal of [template_program] under the option [single]:
    it is reported, and its text has no line break. *)
Lemma reported_template_is_plain_witness :
  ~ hasUnescapedLinebreak [CR; LF] "a".
Proof.
  pose proof (reported_template_is_plain
                template_program (fun _ => false) (fun _ => false) [CR; LF]
                template_getText (Some single) NoOption 4
                {| node := 4;
                   messageId := "wrongQuotes";
                   data_description := "singlequote";
                   fix_ := Some (mkEdit (8, 11) (String SQUOTE ("a" ++ str1 SQUOTE))) |}
                eq_refl eq_refl) as (_ & _ & n & pid & pn & Hn & _ & _ & _ & H).
  injection Hn as <-.
  exact (H 5 [] (Programs.nodeAt template_program 5) "a" eq_refl eq_refl eq_refl).
Defined.

(** ** quotes: what [convert] does inside the text *)

(** X11.  A conversion to backticks opens no interpolation: in the text
    between the new backticks no dollar sign stands, outside an escape,
    right before an opening brace. *)
Theorem convert_to_backtick_opens_no_interpolation oldQuote body last :
  isQuote oldQuote = true ->
  Ascii.eqb BACKTICK oldQuote = false ->
  Escaped anyCharacter body ->
  exists out,
    convert (QUOTE_SETTINGS backtick) (String oldQuote (body ++ str1 last))
    = String BACKTICK (out ++ str1 BACKTICK)
    /\ NoInterpolation false out.
Proof.
  intros Hold Hne Hbody.
  exists (replaceAll oldQuote BACKTICK body). split.
  - unfold convert. cbn [QUOTE_SETTINGS quote]. rewrite Hne, slice_body. reflexivity.
  - apply (replaceAll_closed oldQuote Hold Hne (String.length body)); auto.
    discriminate.
Qed.

(** The text [a${b}] in double quotes. *)
Lemma convert_to_backtick_opens_no_interpolation_witness :
  exists out,
    convert (QUOTE_SETTINGS backtick)
      (String DQUOTE (String "a" (String DOLLAR (String LBRACE "b}")) ++ str1 DQUOTE))
    = String BACKTICK (out ++ str1 BACKTICK)
    /\ NoInterpolation false out.
Proof.
  apply (convert_to_backtick_opens_no_interpolation DQUOTE
           (String "a" (String DOLLAR (String LBRACE "b}"))) DQUOTE);
    try reflexivity.
  repeat (apply escaped_plain; [reflexivity|reflexivity|]). apply escaped_nil.
Defined.

(** The text [it's] in double quotes, converted to single quotes. *)
Lemma convert_escapes_witness :
  exists out,
    convert (QUOTE_SETTINGS single) (String DQUOTE ("it's" ++ str1 DQUOTE))
    = String SQUOTE (out ++ str1 SQUOTE)
    /\ Escaped (forbiddenAfter DQUOTE SQUOTE) out.
Proof.
  apply (convert_escapes single DQUOTE "it's" DQUOTE); try reflexivity.
  repeat (apply escaped_plain; [reflexivity|reflexivity|]). apply escaped_nil.
Defined.

(** The text [it's] in double quotes, converted to single quotes: the
    apostrophe gains a backslash and nothing else changes. *)
Lemma convert_keeps_characters_witness :
  unslashed (convert (QUOTE_SETTINGS single) (String DQUOTE ("it's" ++ str1 DQUOTE)))
  = String SQUOTE ("it's" ++ str1 SQUOTE).
Proof.
  apply (convert_keeps_characters single DQUOTE "it's" DQUOTE); reflexivity.
Defined.

End QuotesConversion.

Import QuotesNames.

(** ** quotes: what the backtick option leaves alone *)

(** X23.  With the backtick option, a string literal that must stay a
    string literal is never reported: the name of a property, field or
    method that is not computed, the source of an import or export
    declaration, and a module export name of an export-all declaration, an
    import specifier or an export specifier. *)
Theorem backtick_spares_names
  sc isParenthesised isTopLevelExpressionStatement isSurroundedBy
  hasOctalOrNonOctalDecimalEscapeSequence options node pid pn problem :
  parentNode sc node = Ok (pid, pn) ->
  (In (Node.type pn) ["Property"; "PropertyDefinition"; "MethodDefinition"]
   /\ prop pn "key" = VNode node
   /\ truthy (prop pn "computed") = false)
  \/ (In (Node.type pn)
        ["ImportDeclaration"; "ExportNamedDeclaration"; "ExportAllDeclaration"]
      /\ prop pn "source" = VNode node)
  \/ (In (Node.type pn) ["ExportAllDeclaration"; "ExportSpecifier"]
      /\ prop pn "exported" = VNode node)
  \/ (Node.type pn = "ImportSpecifier" /\ prop pn "imported" = VNode node)
  \/ (Node.type pn = "ExportSpecifier" /\ prop pn "local" = VNode node) ->
  Literal sc isParenthesised isTopLevelExpressionStatement isSurroundedBy
    hasOctalOrNonOctalDecimalEscapeSequence (Some backtick) options node
  <> Ok (Some problem).
Proof.
  intros Hparent Hkind H.
  assert (Hallowed : isAllowedAsNonBacktick sc isParenthesised
                       isTopLevelExpressionStatement node = Ok true).
  { unfold isAllowedAsNonBacktick. rewrite Hparent; cbn [bind snd].
    unfold NoUseBeforeDefine.isNode.
    destruct Hkind as [(Ht & Hkey & Hcomputed)
                      |[(Ht & Hsource)
                       |[(Ht & Hexported)
                        |[(Ht & Himported)|(Ht & Hlocal)]]]].
    - rewrite Hkey, Hcomputed, Nat.eqb_refl.
      destruct Ht as [<-|[<-|[<-|[]]]]; reflexivity.
    - rewrite Hsource, Nat.eqb_refl.
      destruct Ht as [<-|[<-|[<-|[]]]]; cbn; now rewrite ?orb_true_r.
    - rewrite Hexported, Nat.eqb_refl.
      destruct Ht as [<-|[<-|[]]]; cbn; now rewrite ?orb_true_r.
    - rewrite Ht, Himported, Nat.eqb_refl. reflexivity.
    - rewrite Ht, Hlocal, Nat.eqb_refl. reflexivity. }
  unfold Literal in H.
  apply bind_ok in H as (n & _ & H).
  destruct (isString (prop n "value")); [|discriminate].
  destruct (prop n "raw") as [| | | |rawVal| |]; try discriminate.
  cbn [isBacktick] in H. rewrite Hallowed in H.
  cbn [bind orb negb andb] in H. discriminate.
Qed.

(** The property name in double quotes of [key_program] under the backtick
    option. *)
Lemma backtick_spares_names_witness :
  Literal key_program (fun _ => false) (fun _ => false) surroundedBy
    (fun _ => false) (Some backtick) NoOption 4 = Ok None.
Proof.
  destruct (Literal key_program (fun _ => false) (fun _ => false) surroundedBy
              (fun _ => false) (Some backtick) NoOption 4)
    as [[problem|]|e] eqn:E.
  - exfalso.
    apply (backtick_spares_names
             key_program (fun _ => false) (fun _ => false) surroundedBy
             (fun _ => false) NoOption 4 3 (Programs.nodeAt key_program 3) problem
             eq_refl);
      [|exact E].
    left. split; [left; reflexivity|]. split; reflexivity.
  - reflexivity.
  - discriminate E.
Defined.

Import NoLabels NoLabelsReading.

(** ** no-labels: what the rule reports *)

Section NoLabelsReports.

Variable isLoop : ASTNode -> bool.
Variables allowLoop allowSwitch : bool.

(** The walk of a tree reports, after what was reported before, the
    problems read off the tree. *)
Lemma traverse_reports node :
  forall st, exists seen st',
    traverse isLoop allowLoop allowSwitch node st = Ok (seen, st')
    /\ scopeInfo st' = scopeInfo st
    /\ reports st'
       = reports st ++ expected isLoop allowLoop allowSwitch (scopeInfo st) node.
Proof.
  induction node as [label body IH|label|label|type children IH]
    using ASTNode_induction; intros st.
  - cbn [traverse enter onLabeledStatement observe bind app].
    destruct (IH {| scopeInfo := Some (mkScopeInfo label
                                         (getBodyKind isLoop body) (scopeInfo st));
                    reports := reports st |}) as (seen & st2 & Hrun & Hinfo & Hrep).
    rewrite Hrun. cbn [bind snd fst leave].
    unfold onLabeledStatementExit. rewrite Hinfo.
    cbn [scopeInfo info_upper info_kind bind reports] in *.
    eexists; eexists; split; [reflexivity|]. split; [reflexivity|].
    cbn [expected scopeInfo reports].
    destruct (isAllowed allowLoop allowSwitch (getBodyKind isLoop body));
      cbn [negb context_report reports].
    + now rewrite Hrep, app_nil_r.
    + now rewrite Hrep, app_assoc.
  - cbn [traverse enter observe expected]. unfold onBreakStatement, getKind.
    destruct label as [name|]; cbn [bind leave].
    + destruct (isAllowed _ _ _); cbn [negb bind];
        eexists; eexists; (split; [reflexivity|]); split; try reflexivity.
      cbn. now rewrite app_nil_r.
    + eexists; eexists; split; [reflexivity|]. split; [reflexivity|].
      now rewrite app_nil_r.
  - cbn [traverse enter observe expected]. unfold onContinueStatement, getKind.
    destruct label as [name|]; cbn [bind leave].
    + destruct (isAllowed _ _ _); cbn [negb bind];
        eexists; eexists; (split; [reflexivity|]); split; try reflexivity.
      cbn. now rewrite app_nil_r.
    + eexists; eexists; split; [reflexivity|]. split; [reflexivity|].
      now rewrite app_nil_r.
  - cbn [traverse enter observe bind app leave expected].
    revert st. induction IH as [|child rest Hchild _ IHrest]; intros st.
    + cbn [bind snd fst]. eexists; eexists; split; [reflexivity|].
      split; [reflexivity|]. now rewrite app_nil_r.
    + destruct (Hchild st) as (seen1 & st1 & Hrun1 & Hinfo1 & Hrep1).
      rewrite Hrun1; cbn [bind snd fst].
      destruct (IHrest st1) as (seen2 & st2 & Hrun2 & Hinfo2 & Hrep2).
      apply bind_ok in Hrun2 as ([obs s2] & Heach & Hrest).
      cbn [bind snd fst] in Hrest. injection Hrest as _ <-.
      rewrite Heach; cbn [bind snd fst].
      eexists; eexists; split; [reflexivity|].
      split; [now rewrite Hinfo2|].
      rewrite Hrep2, Hrep1, Hinfo1, app_assoc. reflexivity.
Qed.

(** Whatever the options, what is read off for them is among what carries
    a label. *)
Lemma expected_labelled node :
  forall info, incl (expected isLoop allowLoop allowSwitch info node) (labelled node).
Proof.
  induction node as [label body IH|label|label|type children IH]
    using ASTNode_induction; intros info.
  - cbn [expected labelled]. apply incl_app.
    + apply incl_appl, IH.
    + apply incl_appr. destruct (isAllowed _ _ _); [apply incl_nil_l|apply incl_refl].
  - destruct label as [name|]; cbn [expected labelled]; [|apply incl_refl].
    destruct (isAllowed _ _ _); [apply incl_nil_l|apply incl_refl].
  - destruct label as [name|]; cbn [expected labelled]; [|apply incl_refl].
    destruct (isAllowed _ _ _); [apply incl_nil_l|apply incl_refl].
  - cbn [expected labelled].
    induction IH as [|child rest Hchild _ IHrest]; [apply incl_refl|].
    apply incl_app; [apply incl_appl, Hchild|apply incl_appr, IHrest].
Qed.

Lemma allowed_label :
  forall info name,
    allowedIn allowLoop allowSwitch info = true ->
    existsb (String.eqb name) (labelsIn info) = true ->
    isAllowed allowLoop allowSwitch (getKindIn info name) = true.
Proof.
  fix IH 1. intros [label kind upper] name Hall Hin.
  cbn [allowedIn labelsIn getKindIn existsb] in *.
  apply andb_true_iff in Hall as [Hkind Hupper].
  rewrite (String.eqb_sym name label) in Hin.
  destruct (String.eqb label name); [exact Hkind|].
  cbn [orb] in Hin.
  destruct upper as [info'|]; [|discriminate].
  now apply IH.
Qed.

Lemma expected_tame node :
  forall info,
    allowedFrom allowLoop allowSwitch info = true ->
    tame isLoop allowLoop allowSwitch (labelsOf info) node = true ->
    expected isLoop allowLoop allowSwitch info node = [].
Proof.
  induction node as [label body IH|label|label|type children IH]
    using ASTNode_induction; intros info Hall Htame.
  - cbn [expected tame] in *.
    apply andb_true_iff in Htame as [Hkind Hbody].
    rewrite Hkind, IH; [reflexivity| |].
    + cbn [allowedFrom allowedIn]. rewrite Hkind. destruct info; exact Hall.
    + now rewrite labelsOf_push.
  - destruct label as [name|]; cbn [expected tame] in *; [|reflexivity].
    destruct info as [i|]; [|discriminate].
    cbn [getKindFrom]. now rewrite allowed_label.
  - destruct label as [name|]; cbn [expected tame] in *; [|reflexivity].
    destruct info as [i|]; [|discriminate].
    cbn [getKindFrom]. now rewrite allowed_label.
  - cbn [expected tame] in *.
    induction IH as [|child rest Hchild _ IHrest]; [reflexivity|].
    apply andb_true_iff in Htame as [H1 H2].
    rewrite (Hchild info Hall H1). now apply IHrest.
Qed.

Lemma isAllowed_default kind : isAllowed false false kind = false.
Proof.
  unfold isAllowed.
  destruct (String.eqb kind "loop"); [reflexivity|].
  now destruct (String.eqb kind "switch").
Qed.

Lemma expected_default node :
  forall info, expected isLoop false false info node = labelled node.
Proof.
  induction node as [label body IH|label|label|type children IH]
    using ASTNode_induction; intros info.
  - cbn [expected labelled]. rewrite IH.
    now rewrite isAllowed_default.
  - destruct label as [name|]; cbn [expected labelled]; [|reflexivity].
    now rewrite isAllowed_default.
  - destruct label as [name|]; cbn [expected labelled]; [|reflexivity].
    now rewrite isAllowed_default.
  - cbn [expected labelled].
    induction IH as [|child rest Hchild _ IHrest]; [reflexivity|].
    now rewrite Hchild, IHrest.
Qed.

End NoLabelsReports.

(** X17.  With the default options the rule reports everything that carries
    a label, and nothing else: each jump with a label where the walk enters
    it, each labeled statement where the walk leaves it. *)
Theorem default_options_report_every_label isLoop node st :
  exists seen st',
    traverse isLoop false false node st = Ok (seen, st')
    /\ reports st' = reports st ++ labelled node.
Proof.
  destruct (traverse_reports isLoop false false node st)
    as (seen & st' & Hrun & _ & Hrep).
  exists seen, st'. split; [exact Hrun|].
  now rewrite Hrep, expected_default.
Qed.

(** X18.  Whatever the options, the walk of a program returns and reports
    only what carries a label: the options spare problems and add none, and
    a jump without a label is never reported. *)
Theorem only_labels_are_reported isLoop allowLoop allowSwitch node :
  exists seen st',
    traverse isLoop allowLoop allowSwitch node (mkState None []) = Ok (seen, st')
    /\ incl (reports st') (labelled node)
    /\ (forall p, In p (reports st') ->
          NoLabels.node p <> BreakStatement None
          /\ NoLabels.node p <> ContinueStatement None).
Proof.
  destruct (traverse_reports isLoop allowLoop allowSwitch node (mkState None []))
    as (seen & st' & Hrun & _ & Hrep).
  exists seen, st'. split; [exact Hrun|].
  cbn [reports scopeInfo app] in Hrep.
  assert (Hincl : incl (reports st') (labelled node))
    by (rewrite Hrep; apply expected_labelled).
  split; [exact Hincl|].
  intros p Hp. apply Hincl in Hp. clear - Hp.
  induction node as [label body IH|label|label|type children IH]
    using ASTNode_induction.
  - cbn [labelled] in Hp. apply in_app_or in Hp as [Hp|[<-|[]]]; [auto|].
    split; discriminate.
  - destruct label; cbn in Hp; [destruct Hp as [<-|[]]; split; discriminate|tauto].
  - destruct label; cbn in Hp; [destruct Hp as [<-|[]]; split; discriminate|tauto].
  - cbn [labelled] in Hp.
    induction IH as [|child rest Hchild _ IHrest]; [destruct Hp|].
    apply in_app_or in Hp as [Hp|Hp]; auto.
Qed.

(** X19.  When every label of a program sits on a statement of a kind the
    options allow, and every jump with a label names a label that encloses
    it, nothing is reported. *)
Theorem allowed_labels_are_not_reported isLoop allowLoop allowSwitch node :
  tame isLoop allowLoop allowSwitch [] node = true ->
  exists seen st',
    traverse isLoop allowLoop allowSwitch node (mkState None []) = Ok (seen, st')
    /\ reports st' = [].
Proof.
  intros Htame.
  destruct (traverse_reports isLoop allowLoop allowSwitch node (mkState None []))
    as (seen & st' & Hrun & _ & Hrep).
  exists seen, st'. split; [exact Hrun|].
  rewrite Hrep. cbn [reports scopeInfo app].
  now apply expected_tame.
Qed.

(** The labeled loop of [loop_label] under the option [allowLoop]. *)
Lemma allowed_labels_are_not_reported_witness :
  exists seen st',
    traverse loopTypes true false loop_label (mkState None []) = Ok (seen, st')
    /\ reports st' = [].
Proof.
  apply (allowed_labels_are_not_reported loopTypes true false loop_label).
  reflexivity.
Defined.

Import NoLonelyIf.

(** ** no-lonely-if: what a fix removes *)

Lemma firstn_plus {A : Type} (n m : nat) (l : list A) :
  firstn (n + m) l = firstn n l ++ firstn m (skipn n l).
Proof.
  revert l. induction n as [|n IH]; intros l; [reflexivity|].
  destruct l as [|x l]; cbn [Nat.add firstn skipn app].
  - now rewrite firstn_nil.
  - now rewrite IH.
Qed.

Lemma skipn_plus {A : Type} (n m : nat) (l : list A) :
  skipn m (skipn n l) = skipn (n + m) l.
Proof.
  revert l. induction n as [|n IH]; intros l; [reflexivity|].
  destruct l as [|x l]; cbn [Nat.add skipn]; [now rewrite skipn_nil|apply IH].
Qed.

(** A slice falls into two at any index between its ends. *)
Lemma slice_split text a b c :
  a <= b -> b <= c -> slice text a c = slice text a b ++ slice text b c.
Proof.
  intros Hab Hbc. unfold slice.
  replace (c - a) with ((b - a) + (c - b)) by lia.
  rewrite firstn_plus, skipn_plus.
  now replace (a + (b - a)) with b by lia.
Qed.

Lemma trimStart_blank text :
  trimStart text = [] -> forallb isWhiteSpace text = true.
Proof.
  induction text as [|c rest IH]; [reflexivity|].
  cbn [trimStart forallb]. destruct (isWhiteSpace c); [exact IH|discriminate].
Qed.

Lemma trimStart_head text :
  trimStart text = [] \/ exists c rest, trimStart text = c :: rest /\ isWhiteSpace c = false.
Proof.
  induction text as [|c rest IH]; [now left|].
  cbn [trimStart]. destruct (isWhiteSpace c) eqn:E; [exact IH|].
  right. eauto.
Qed.

(** A text that [trim] empties holds white space only. *)
Lemma trim_blank text :
  nonEmpty (trim text) = false -> forallb isWhiteSpace text = true.
Proof.
  unfold trim, trimEnd. intros H.
  destruct (rev (trimStart (rev (trimStart text)))) eqn:E; [|discriminate].
  apply (f_equal (@rev N)) in E. rewrite rev_involutive in E. cbn [rev] in E.
  apply trimStart_blank in E.
  destruct (trimStart_head text) as [Hnil|(c & rest & Hc & Hws)].
  - now apply trimStart_blank.
  - rewrite Hc in E. rewrite forallb_forall in E.
    assert (Hin : In c (rev (c :: rest))) by (apply in_rev; rewrite rev_involutive; now left).
    apply E in Hin. congruence.
Qed.

Section NoLonelyIfFacts.

Variable sc : SourceCode.
Variable areBracesNecessary : NodeId -> bool.
Variable getFirstToken : NodeId -> option Token.
Variable getLastToken : NodeId -> option Token.
Variable getTokenBefore : Token -> option Token.
Variable getTokenAfter : Token -> option Token.
Variable sourceText : Text.
Variable getText : NodeId -> Text.

(** What the [fix] callback hands over when it hands over an edit. *)
Lemma fix_edit node parent n opening closing edit :
  getFirstToken parent = Some opening ->
  getLastToken parent = Some closing ->
  fix' sc getFirstToken getLastToken getTokenBefore getTokenAfter sourceText getText
    node parent n = Ok (Some edit) ->
  edit_range edit = (fst (range opening), snd (range closing))
  /\ forallb isWhiteSpace
       (slice sourceText (snd (range opening)) (fst (Node.range n))) = true
  /\ forallb isWhiteSpace
       (slice sourceText (snd (Node.range n)) (fst (range closing))) = true
  /\ (edit_text edit = getText node \/ edit_text edit = codes " " ++ getText node).
Proof.
  intros Hopen Hclose H. unfold fix' in H.
  rewrite Hopen, Hclose in H. cbn [required bind] in H.
  destruct (prop n "consequent") as [| | | | |consequent|]; try discriminate.
  destruct (nonEmpty (trim (slice sourceText (snd (range opening)) (fst (Node.range n)))))
    eqn:Hbefore; [discriminate|].
  destruct (nonEmpty (trim (slice sourceText (snd (Node.range n)) (fst (range closing)))))
    eqn:Hafter; [discriminate|].
  cbn [orb] in H.
  apply bind_ok in H as (c & _ & H).
  apply bind_ok in H as (unsafe & _ & H).
  destruct unsafe; [discriminate|].
  apply bind_ok in H as (keyword & _ & H).
  injection H as <-. cbn [edit_range edit_text].
  split; [reflexivity|].
  split; [now apply trim_blank|]. split; [now apply trim_blank|].
  destruct (snd (range keyword) =? fst (range opening)); [now right|now left].
Qed.

End NoLonelyIfFacts.

(** X20.  A fix of the rule takes away the two braces of the block and the
    white space around the inner statement, and nothing else. When the
    tokens and the statement lie in the text in their order, the replaced
    part of the text is the opening brace, white space, the statement, white
    space and the closing brace, and it is replaced by the statement, with a
    space before it or not. *)
Theorem lonely_if_fix_removes_braces_and_blanks
  sc areBracesNecessary getFirstToken getLastToken getTokenBefore getTokenAfter
  sourceText getText node n parent opening closing problem edit :
  getNode sc node = Ok n ->
  Node.parent n = Some parent ->
  getFirstToken parent = Some opening ->
  getLastToken parent = Some closing ->
  getText node = slice sourceText (fst (Node.range n)) (snd (Node.range n)) ->
  fst (range opening) <= snd (range opening) ->
  snd (range opening) <= fst (Node.range n) ->
  fst (Node.range n) <= snd (Node.range n) ->
  snd (Node.range n) <= fst (range closing) ->
  fst (range closing) <= snd (range closing) ->
  IfStatement sc areBracesNecessary getFirstToken getLastToken getTokenBefore
    getTokenAfter sourceText getText node = Ok (Some problem) ->
  fix_ problem = Some edit ->
  edit_range edit = (fst (range opening), snd (range closing))
  /\ (edit_text edit = getText node \/ edit_text edit = codes " " ++ getText node)
  /\ exists before after,
       slice sourceText (fst (range opening)) (snd (range closing))
       = slice sourceText (fst (range opening)) (snd (range opening))
         ++ before ++ getText node ++ after
         ++ slice sourceText (fst (range closing)) (snd (range closing))
       /\ forallb isWhiteSpace before = true
       /\ forallb isWhiteSpace after = true.
Proof.
  intros Hn Hparent Hopen Hclose Htext H1 H2 H3 H4 H5 H Hfix.
  unfold IfStatement in H. rewrite Hn in H; cbn [bind] in H.
  rewrite Hparent in H; cbn [required bind] in H.
  apply bind_ok in H as (p & _ & H).
  destruct (String.eqb (Node.type p) "BlockStatement"); [|discriminate].
  apply bind_ok in H as (one & _ & H).
  destruct (one && _); [|discriminate].
  destruct (Node.parent p) as [g|]; [|discriminate].
  apply bind_ok in H as (gn & _ & H).
  destruct (_ && _); [|discriminate].
  apply bind_ok in H as (f & Hf & H). injection H as <-.
  cbn [fix_] in Hfix. subst f.
  destruct (fix_edit sc getFirstToken getLastToken getTokenBefore getTokenAfter
              sourceText getText node parent n opening closing edit Hopen Hclose Hf)
    as (Hrange & Hbefore & Hafter & Hnew).
  split; [exact Hrange|]. split; [exact Hnew|].
  exists (slice sourceText (snd (range opening)) (fst (Node.range n))),
         (slice sourceText (snd (Node.range n)) (fst (range closing))).
  split; [|split; assumption].
  rewrite Htext.
  rewrite (slice_split sourceText (fst (range opening)) (snd (range opening))
             (snd (range closing))) by lia.
  rewrite (slice_split sourceText (snd (range opening)) (fst (Node.range n))
             (snd (range closing))) by lia.
  rewrite (slice_split sourceText (fst (Node.range n)) (snd (Node.range n))
             (snd (range closing))) by lia.
  rewrite (slice_split sourceText (snd (Node.range n)) (fst (range closing))
             (snd (range closing))) by lia.
  reflexivity.
Qed.

(** On [if (a) {} else { if (b) {} }]: the block after [else] gives way to
    the inner statement. *)
Lemma lonely_if_fix_removes_braces_and_blanks_witness :
  exists before after,
    slice lonely_text 15 28
    = codes "{" ++ before ++ codes "if (b) {}" ++ after ++ codes "}"
    /\ forallb isWhiteSpace before = true
    /\ forallb isWhiteSpace after = true.
Proof.
  pose proof (lonely_if_fix_removes_braces_and_blanks
                lonely_program (fun _ => false)
                lonely_getFirstToken lonely_getLastToken
                lonely_getTokenBefore lonely_getTokenAfter
                lonely_text lonely_getText
                5 (Programs.nodeAt lonely_program 5) 4
                (lonely_token 15 16) (lonely_token 27 28)
                {| node := 5;
                   messageId := "unexpectedLonelyIf";
                   fix_ := Some (mkEdit (15, 28) (codes "if (b) {}")) |}
                (mkEdit (15, 28) (codes "if (b) {}"))
                eq_refl eq_refl eq_refl eq_refl eq_refl) as H.
  cbn [lonely_token range fst snd Programs.nodeAt lonely_program ast lonely_ast nth
       Node.range] in H.
  assert (H15 : 15 <= 16) by lia. assert (H16 : 16 <= 17) by lia.
  assert (H17 : 17 <= 26) by lia. assert (H26 : 26 <= 27) by lia.
  assert (H27 : 27 <= 28) by lia.
  destruct (H H15 H16 H17 H26 H27 eq_refl eq_refl) as (_ & _ & before & after & E & Hb & Ha).
  exists before, after. split; [exact E|]. split; assumption.
Defined.

(** X21.  The rule reports an [if] only as the sole statement of the block
    that is the [else] branch of another [if]; an [if] whose parent is no
    block, such as the [if] a fix leaves right after [else], is not
    reported. *)
Theorem lonely_if_stands_alone_in_else_block
  sc areBracesNecessary getFirstToken getLastToken getTokenBefore getTokenAfter
  sourceText getText node n parent p :
  getNode sc node = Ok n ->
  Node.parent n = Some parent ->
  getNode sc parent = Ok p ->
  (forall problem,
     IfStatement sc areBracesNecessary getFirstToken getLastToken getTokenBefore
       getTokenAfter sourceText getText node = Ok (Some problem) ->
     Node.type p = "BlockStatement"
     /\ hasOneElement (prop p "body") = Ok true
     /\ areBracesNecessary parent = false
     /\ exists g gn,
          Node.parent p = Some g
          /\ getNode sc g = Ok gn
          /\ Node.type gn = "IfStatement"
          /\ prop gn "alternate" = VNode parent)
  /\ (Node.type p <> "BlockStatement" ->
      IfStatement sc areBracesNecessary getFirstToken getLastToken getTokenBefore
        getTokenAfter sourceText getText node = Ok None).
Proof.
  intros Hn Hparent Hp. split.
  - intros problem H.
    unfold IfStatement in H. rewrite Hn in H; cbn [bind] in H.
    rewrite Hparent in H; cbn [required bind] in H.
    rewrite Hp in H; cbn [bind] in H.
    destruct (String.eqb_spec (Node.type p) "BlockStatement") as [Ht|]; [|discriminate].
    split; [exact Ht|].
    apply bind_ok in H as (one & Hone & H).
    destruct one; [|discriminate].
    split; [exact Hone|].
    destruct (areBracesNecessary parent); [discriminate|].
    split; [reflexivity|].
    cbn [andb negb] in H.
    destruct (Node.parent p) as [g|]; [|discriminate].
    apply bind_ok in H as (gn & Hgn & H).
    exists g, gn. split; [reflexivity|]. split; [exact Hgn|].
    destruct (String.eqb_spec (Node.type gn) "IfStatement") as [Hgt|]; [|discriminate].
    split; [exact Hgt|].
    cbn [andb] in H. unfold NoUseBeforeDefine.isNode in H.
    destruct (prop gn "alternate") as [| | | | |alt|]; try discriminate.
    destruct (Nat.eqb_spec alt parent) as [E|]; [now rewrite E|discriminate].
  - intros Ht. unfold IfStatement. rewrite Hn; cbn [bind].
    rewrite Hparent; cbn [required bind]. rewrite Hp; cbn [bind].
    apply String.eqb_neq in Ht. now rewrite Ht.
Qed.

(** On [if (a) {} else { if (b) {} }]: the outer [if] is not reported. *)
Lemma lonely_if_stands_alone_in_else_block_witness :
  IfStatement lonely_program (fun _ => false)
    lonely_getFirstToken lonely_getLastToken lonely_getTokenBefore lonely_getTokenAfter
    lonely_text lonely_getText 1 = Ok None.
Proof.
  apply (lonely_if_stands_alone_in_else_block
           lonely_program (fun _ => false)
           lonely_getFirstToken lonely_getLastToken
           lonely_getTokenBefore lonely_getTokenAfter
           lonely_text lonely_getText
           1 (Programs.nodeAt lonely_program 1) 0 (Programs.nodeAt lonely_program 0)
           eq_refl eq_refl eq_refl).
  discriminate.
Defined.
